(** * ComfyUI-Auto-Build: workflow dependency resolution and plugin materialization

  A shallow embedding of the two builder scripts

    - [builder-scripts/generate_workflow_dependencies.py]  (catalog builder, resolver)
    - [builder-scripts/apply_workflow_custom_nodes.py]     (plan builder, materializer,
                                                            requirement aggregator)

  Python [str] values are modelled by [string]: a sequence of code points
  below 256 (the Latin-1 range), on which [str.strip], [str.lower] and the
  [re] character classes are written out as Python defines them.  Python
  [dict]s whose iteration order is observable are association lists in
  insertion order; [dict]s and [set]s that are only looked up, or that are
  sorted before they are output, are [gmap]s and [gset]s. *)

From Stdlib Require Import Ascii String NArith.
From stdpp Require Import base option list gmap sets strings pretty sorting.

Set Warnings "-register-all".

Local Open Scope string_scope.

(** ** Python string primitives *)

Module PyStr.

Definition code (c : ascii) : N := N_of_ascii c.

Definition in_range (lo hi : N) (c : ascii) : bool :=
  ((lo <=? code c) && (code c <=? hi))%N.

(** [str.isspace] on one code point below 256: TAB..CR, FS..US, space,
    NEL and NBSP.  [str.strip()] and the regex class [\s] use this set. *)
Definition is_space (c : ascii) : bool :=
  in_range 9 13 c || in_range 28 32 c || (code c =? 133)%N || (code c =? 160)%N.

(** [str.lower] on one code point below 256. *)
Definition lower_char (c : ascii) : ascii :=
  if in_range 65 90 c || (in_range 192 222 c && negb (code c =? 215)%N)
  then ascii_of_N (code c + 32) else c.

Fixpoint lower (s : string) : string :=
  match s with
  | "" => ""
  | String c s' => String (lower_char c) (lower s')
  end.

Fixpoint lstrip_by (p : ascii -> bool) (s : string) : string :=
  match s with
  | "" => ""
  | String c s' => if p c then lstrip_by p s' else s
  end.

Definition rstrip_by (p : ascii -> bool) (s : string) : string :=
  String.rev (lstrip_by p (String.rev s)).

Definition strip_by (p : ascii -> bool) (s : string) : string :=
  rstrip_by p (lstrip_by p s).

(** [s.strip()] *)
Definition strip : string -> string := strip_by is_space.

Definition is_char (c d : ascii) : bool := bool_decide (c = d).

(** [s.startswith(p)] *)
Definition startswith (p s : string) : bool := String.prefix p s.

(** [s.startswith((p1, ..., pn))] *)
Definition startswith_any (ps : list string) (s : string) : bool :=
  existsb (fun p => startswith p s) ps.

(** [s.endswith(p)] *)
Definition endswith (p s : string) : bool :=
  String.prefix (String.rev p) (String.rev s).

(** [sub in s] *)
Fixpoint contains (sub s : string) : bool :=
  String.prefix sub s ||
  match s with
  | "" => false
  | String _ s' => contains sub s'
  end.

(** [c in s] for a one-character string [c] *)
Fixpoint has_char (c : ascii) (s : string) : bool :=
  match s with
  | "" => false
  | String d s' => is_char c d || has_char c s'
  end.

(** [s.split(c, 1)] for a one-character separator: the text before the
    first [c], and the text after it when [c] occurs. *)
Fixpoint split_once (c : ascii) (s : string) : string * option string :=
  match s with
  | "" => ("", None)
  | String d s' =>
      if is_char c d then ("", Some s')
      else let '(a, b) := split_once c s' in (String d a, b)
  end.

(** [s.split(c)[0]] and [s.split(c, 1)[0]] *)
Definition before_first (c : ascii) (s : string) : string := fst (split_once c s).

(** [s.rsplit(c, 1)[-1]]: the text after the last [c], all of [s] when
    [c] does not occur. *)
Definition after_last (c : ascii) (s : string) : string :=
  String.rev (before_first c (String.rev s)).

(** [s.replace(c, d)] for one-character strings *)
Fixpoint replace_char (c d : ascii) (s : string) : string :=
  match s with
  | "" => ""
  | String e s' => String (if is_char c e then d else e) (replace_char c d s')
  end.

(** [s[n:]] *)
Fixpoint drop (n : nat) (s : string) : string :=
  match n, s with
  | O, _ => s
  | S _, "" => ""
  | S n', String _ s' => drop n' s'
  end.

(** [s[:-n]] for [n > 0] *)
Definition drop_end (n : nat) (s : string) : string :=
  String.rev (drop n (String.rev s)).

(** [sorted(xs)] for a collection of strings: [str] is ordered
    lexicographically on code points *)
Definition sorted (xs : list string) : list string := merge_sort String.le xs.

(** [bool(s)] *)
Definition truthy (s : string) : bool :=
  match s with "" => false | _ => true end.

(** the one-character string [LF] *)
Definition nl : string := String "010" "".

End PyStr.

(** ** JSON values, as [json.loads] returns them

  Numbers carry an integer; the scripts never compute with them, they only
  copy them or test them for truth. *)

Inductive json : Type :=
| JNull
| JBool (b : bool)
| JNum (z : Z)
| JStr (s : string)
| JArr (items : list json)
| JObj (fields : list (string * json)).

(** [bool(v)] for a JSON value *)
Definition json_truthy (v : json) : bool :=
  match v with
  | JNull => false
  | JBool b => b
  | JNum z => negb (z =? 0)%Z
  | JStr s => PyStr.truthy s
  | JArr items => match items with [] => false | _ => true end
  | JObj fields => match fields with [] => false | _ => true end
  end.

(** ** Python [dict] with string keys, in insertion order *)

Module Dict.

Section ops.
Context {V : Type}.

(** [d.get(k)], [None] when the key is missing *)
Fixpoint get (k : string) (d : list (string * V)) : option V :=
  match d with
  | [] => None
  | (k', v) :: d' => if decide (k = k') then Some v else get k d'
  end.

(** [k in d] *)
Definition mem (k : string) (d : list (string * V)) : bool :=
  match get k d with Some _ => true | None => false end.

(** [d[k] = v]: an existing key keeps its position *)
Fixpoint set (k : string) (v : V) (d : list (string * V)) : list (string * V) :=
  match d with
  | [] => [(k, v)]
  | (k', v') :: d' => if decide (k = k') then (k, v) :: d' else (k', v') :: set k v d'
  end.

(** [d.setdefault(k, v)], for its effect on [d] *)
Definition setdefault (k : string) (v : V) (d : list (string * V)) : list (string * V) :=
  if mem k d then d else set k v d.

(** [d.update(other)] *)
Definition update (d other : list (string * V)) : list (string * V) :=
  fold_left (fun acc kv => set kv.1 kv.2 acc) other d.

(** [bool(d)] *)
Definition truthy (d : list (string * V)) : bool :=
  match d with [] => false | _ => true end.

End ops.

(** [d.get(k)] as a JSON value: Python's [None] is JSON [null] *)
Definition get_json (k : string) (d : list (string * json)) : json :=
  default JNull (get k d).

End Dict.

(** ** The dependency manifest

    [generate_workflow_dependencies.py] writes it and
    [apply_workflow_custom_nodes.py] reads it back:
    [{"plugins": [{"id", "nodes": [str, ...], "metadata"?}], "unresolved_nodes"?}]. *)

Record PluginGroup := {
  group_id : string;
  group_nodes : list string;
  group_metadata : option (list (string * json))
}.

Record Deps := {
  deps_plugins : list PluginGroup;
  deps_unresolved_nodes : list string
}.

(** A file a script is pointed at: missing, present but not decodable as
    text, or present with its text. *)
Inductive FileState :=
| Absent
| Unreadable
| Text (content : string).

(** ** [apply_workflow_custom_nodes.py] *)

Module Apply.

(** [normalize_git_url(candidate)], [candidate] being [None] or a [str]. *)
Definition normalize_git_url (candidate : option string) : option string :=
  match candidate with
  | None => None
  | Some c =>
      if negb (PyStr.truthy c) then None else
      let url := PyStr.strip c in
      if negb (PyStr.truthy url) then None else
      let url := if PyStr.startswith "git+" url then PyStr.drop 4 url else url in
      let lowered := PyStr.lower url in
      if PyStr.startswith_any ["http://"; "https://"; "ssh://"] lowered
         || PyStr.has_char "@" (PyStr.before_first "/" url)
      then Some url else None
  end.

(** *** Slugs *)

Definition alnum (c : ascii) : bool :=
  PyStr.in_range 97 122 c || PyStr.in_range 65 90 c || PyStr.in_range 48 57 c.

(** the class [[a-zA-Z0-9._-]] *)
Definition slug_char (c : ascii) : bool :=
  alnum c || PyStr.is_char "." c || PyStr.is_char "_" c || PyStr.is_char "-" c.

(** [re.sub(r"[^a-zA-Z0-9._-]+", "-", name)]: every maximal run of
    characters outside the class becomes one hyphen.  [in_run] tells that
    the hyphen of the current run is already written. *)
Fixpoint sub_runs (in_run : bool) (s : string) : string :=
  match s with
  | "" => ""
  | String c s' =>
      if slug_char c then String c (sub_runs false s')
      else if in_run then sub_runs true s'
      else String "-" (sub_runs true s')
  end.

Definition slugify (name : string) : string :=
  let cleaned := PyStr.lower (PyStr.strip_by (PyStr.is_char "-") (sub_runs false name)) in
  if PyStr.truthy cleaned then cleaned else "custom-node".

(** [f"{slug}-{idx}"] *)
Definition suffixed (slug : string) (idx : nat) : string :=
  slug +:+ "-" +:+ pretty idx.

(** The [while True] loop of [ensure_unique_slug], started at [idx]; it
    gives up when [fuel] candidates have been tried. *)
Fixpoint unique_loop (fuel : nat) (slug : string) (existing : gset string) (idx : nat)
  : option (string * gset string) :=
  match fuel with
  | O => None
  | S fuel' =>
      let candidate := suffixed slug idx in
      if decide (candidate ∈ existing)
      then unique_loop fuel' slug existing (S idx)
      else Some (candidate, {[candidate]} ∪ existing)
  end.

(** [ensure_unique_slug(slug, existing)]: the slug handed out and the set
    [existing] after the call.  The loop is given one more round than
    [existing] has members. *)
Definition ensure_unique_slug (slug : string) (existing : gset string)
  : option (string * gset string) :=
  if decide (slug ∈ existing)
  then unique_loop (S (size existing)) slug existing 2
  else Some (slug, {[slug]} ∪ existing).

(** the base slug [derive_slug] passes to [ensure_unique_slug] *)
Definition base_slug (repo_url : string) : string :=
  let cleaned := PyStr.rstrip_by (PyStr.is_char "/") (PyStr.before_first "?" repo_url) in
  let cleaned := if PyStr.endswith ".git" cleaned then PyStr.drop_end 4 cleaned else cleaned in
  slugify (PyStr.after_last "/" cleaned).

Definition derive_slug (repo_url : string) (used : gset string)
  : option (string * gset string) :=
  ensure_unique_slug (base_slug repo_url) used.

(** *** Plans *)

Inductive Status := planned | skipped | cloned | failed.

(** The texts a plan's [message] can hold: the four fixed messages of
    [clone_plugin] (no repository address found; directory exists, clone
    skipped; git executable not found; git clone failed) and the captured
    diagnostic of a failed clone. *)
Inductive Message :=
| MsgNoRepository
| MsgDirectoryExists
| MsgGitNotFound
| MsgCloneFailed
| MsgStderr (text : string).

Record Path := {
  path_root : string;
  path_slug : string;
  path_name : string
}.

(** [str(path)] *)
Definition path_str (p : Path) : string :=
  path_root p +:+ "/" +:+ path_slug p +:+ "/" +:+ path_name p.

Record PluginPlan := {
  plugin_id : string;
  nodes : list string;
  repo_url : option string;
  slug : option string;
  reason : option string;
  status : Status;
  message : option Message;
  requirements : list Path
}.

(** [bool(x)] for [x : Optional[str]] *)
Definition opt_truthy (x : option string) : bool :=
  match x with Some s => PyStr.truthy s | None => false end.

(** [candidate if isinstance(candidate, str) else None] after [metadata.get(key)] *)
Definition str_or_none (v : option json) : option string :=
  match v with Some (JStr s) => Some s | _ => None end.

Definition metadata_keys : list string :=
  ["repo"; "repository"; "github"; "git"; "url"; "homepage"].

(** The [for key in (...)] loop of [plan_plugins]: the values of
    [repo_url] and [reason] when the loop is left, by [break] or at its
    end ([repo_url] then holds the last key's result). *)
Fixpoint metadata_loop (metadata : list (string * json)) (keys : list string)
    (repo_url : option string) : option string * option string :=
  match keys with
  | [] => (repo_url, None)
  | key :: keys' =>
      let repo_url := normalize_git_url (str_or_none (Dict.get key metadata)) in
      if opt_truthy repo_url then (repo_url, Some ("metadata." +:+ key))
      else metadata_loop metadata keys' repo_url
  end.

(** [repo_url] and [reason] of one manifest entry, as [plan_plugins]
    computes them before it derives the slug *)
Definition derive_repo (entry : PluginGroup) : option string * option string :=
  let plugin_id := PyStr.strip (group_id entry) in
  let '(repo_url, reason) :=
    match group_metadata entry with
    | Some metadata => metadata_loop metadata metadata_keys None
    | None => (None, None)
    end in
  match repo_url with
  | None =>
      let repo_url := normalize_git_url (Some plugin_id) in
      (repo_url, if opt_truthy repo_url then Some "plugin_id" else reason)
  | Some _ => (repo_url, reason)
  end.

(** one round of the [for entry in raw_plugins] loop *)
Definition plan_entry (entry : PluginGroup) (used_slugs : gset string)
  : option (PluginPlan * gset string) :=
  let plugin_id := PyStr.strip (group_id entry) in
  let '(repo_url, reason) := derive_repo entry in
  slug_used ←
    match repo_url with
    | Some url =>
        if PyStr.truthy url
        then '(s, used) ← derive_slug url used_slugs; Some (Some s, used)
        else Some (None, used_slugs)
    | None => Some (None, used_slugs)
    end;
  Some ({| plugin_id := if PyStr.truthy plugin_id then plugin_id else "<unknown>";
           nodes := group_nodes entry;
           repo_url := repo_url;
           slug := slug_used.1;
           reason := reason;
           status := planned;
           message := None;
           requirements := [] |}, slug_used.2).

Fixpoint plan_loop (entries : list PluginGroup) (used_slugs : gset string)
  : option (list PluginPlan) :=
  match entries with
  | [] => Some []
  | entry :: entries' =>
      '(plan, used) ← plan_entry entry used_slugs;
      plans ← plan_loop entries' used;
      Some (plan :: plans)
  end.

(** [plan_plugins(deps)] *)
Definition plan_plugins (deps : Deps) : option (list PluginPlan * list string) :=
  plans ← plan_loop (deps_plugins deps) ∅;
  Some (plans, deps_unresolved_nodes deps).

(** *** The custom-node directory and the fetch collaborator *)

(** What a plugin directory holds under one name. [RegularFile None] is a
    regular file whose [read_text] raises. *)
Inductive DirEntry :=
| RegularFile (text : option string)
| SubDirectory.

(** What exists at [root / slug]. *)
Inductive Node :=
| FileNode
| DirNode (children : gmap string DirEntry).

(** How [subprocess.run(["git", "clone", ...], check=True)] ends: the tree
    it leaves at the target, [FileNotFoundError] (no command was run), or
    [CalledProcessError] with the decoded [stderr] and what the command
    that failed left at the target, if anything. *)
Inductive GitResult :=
| GitOk (tree : gmap string DirEntry)
| GitNotFound
| GitError (stderr : string) (leftover : option (gmap string DirEntry)).

(** one entry of [workflow_plugins] in the summary *)
Record SummaryPlugin := {
  sp_id : string;
  sp_repo_url : option string;
  sp_slug : option string;
  sp_nodes : list string;
  sp_status : Status;
  sp_reason : option string;
  sp_message : option Message;
  sp_requirements_files : list string
}.

Record Summary := {
  workflow_plugins : list SummaryPlugin;
  summary_unresolved_nodes : list string;
  collected_requirements : list string
}.

(** The part of the outside world [main] reads and changes: what lies
    under the custom-node root (by name), the clone commands run so far
    (url, target slug), the requirements output file and the summary. *)
Record World := {
  fs : gmap string Node;
  git_calls : list (string * string);
  requirements_output : option string;
  summary_output : option Summary
}.

Definition is_file (e : option DirEntry) : bool :=
  match e with Some (RegularFile _) => true | _ => false end.

(** [sorted(plugin_dir.glob("requirements*"))]: the names in the directory
    that start with [requirements], in path order *)
Definition glob_requirements (children : gmap string DirEntry) : list string :=
  PyStr.sorted (filter (fun name => PyStr.startswith "requirements" name = true)
                       (map fst (map_to_list children))).

(** [find_requirement_files(plugin_dir)], [plugin_dir] being [root / slug] *)
Definition find_requirement_files (root slug : string) (node : option Node) : list Path :=
  let mk name := {| path_root := root; path_slug := slug; path_name := name |} in
  match node with
  | Some (DirNode children) =>
      let results :=
        map mk (filter (fun name => is_file (children !! name) = true)
                       (glob_requirements children)) in
      if is_file (children !! "requirements")
      then results ++ [mk "requirements"]
      else results
  | _ => []
  end.

Definition with_status (plan : PluginPlan) (st : Status) (msg : option Message)
    (reqs : list Path) : PluginPlan :=
  {| plugin_id := plugin_id plan; nodes := nodes plan; repo_url := repo_url plan;
     slug := slug plan; reason := reason plan;
     status := st; message := msg; requirements := reqs |}.

(** [clone_plugin(plan, root)] *)
Definition clone_plugin (git : string -> string -> GitResult) (root : string)
    (plan : PluginPlan) (w : World) : PluginPlan * World :=
  match repo_url plan, slug plan with
  | Some url, Some target =>
      match fs w !! target with
      | Some node =>
          (with_status plan skipped (Some MsgDirectoryExists)
             (find_requirement_files root target (Some node)), w)
      | None =>
          let w' := {| fs := fs w; git_calls := git_calls w ++ [(url, target)];
                       requirements_output := requirements_output w;
                       summary_output := summary_output w |} in
          match git url target with
          | GitOk tree =>
              let w'' := {| fs := <[target := DirNode tree]> (fs w');
                            git_calls := git_calls w';
                            requirements_output := requirements_output w';
                            summary_output := summary_output w' |} in
              (with_status plan cloned (message plan)
                 (find_requirement_files root target (fs w'' !! target)), w'')
          | GitNotFound =>
              (with_status plan failed (Some MsgGitNotFound) (requirements plan), w')
          | GitError stderr leftover =>
              let text := PyStr.strip stderr in
              let w'' := {| fs := match leftover with
                                  | Some tree => <[target := DirNode tree]> (fs w')
                                  | None => fs w'
                                  end;
                            git_calls := git_calls w';
                            requirements_output := requirements_output w';
                            summary_output := summary_output w' |} in
              (with_status plan failed
                 (Some (if PyStr.truthy text then MsgStderr text else MsgCloneFailed))
                 (requirements plan), w'')
          end
      end
  | _, _ => (with_status plan skipped (Some MsgNoRepository) (requirements plan), w)
  end.

(** *** Requirement lines *)

Inductive Kind := package | vcs | other.

Record RequirementEntry := {
  original : string;
  kind : Kind;
  key : string
}.

(** the class [[A-Za-z0-9_.-]] of [REQ_PATTERN] *)
Definition name_char (c : ascii) : bool :=
  alnum c || PyStr.is_char "_" c || PyStr.is_char "." c || PyStr.is_char "-" c.

(** the class [[A-Za-z0-9_,.-]] of [REQ_PATTERN] *)
Definition extras_char (c : ascii) : bool :=
  alnum c || PyStr.is_char "_" c || PyStr.is_char "," c || PyStr.is_char "." c
  || PyStr.is_char "-" c.

(** the longest prefix of [s] in a class, and the rest *)
Fixpoint span (p : ascii -> bool) (s : string) : string * string :=
  match s with
  | "" => ("", "")
  | String c s' =>
      if p c then let '(a, b) := span p s' in (String c a, b) else ("", s)
  end.

(** [REQ_PATTERN.match(s).group(1)], [None] when the pattern does not
    match.  Every quantifier of the pattern is greedy and is followed by a
    character outside its class, so the first attempt of the matcher is the
    only one that can succeed: the longest run of blanks, the longest run of
    name characters, and the bracketed extras when they are complete. *)
Definition req_pattern_match (s : string) : option string :=
  let s := PyStr.lstrip_by PyStr.is_space s in
  let '(name, rest) := span name_char s in
  if PyStr.truthy name then
    match rest with
    | String c rest' =>
        if PyStr.is_char "[" c then
          let '(extras, rest'') := span extras_char rest' in
          if PyStr.truthy extras && PyStr.startswith "]" rest''
          then Some (name +:+ "[" +:+ extras +:+ "]")
          else Some name
        else Some name
    | "" => Some name
    end
  else None.

(** [parse_requirement_line(line)] *)
Definition parse_requirement_line (line : string) : option RequirementEntry :=
  let stripped := PyStr.strip line in
  if negb (PyStr.truthy stripped) || PyStr.startswith "#" stripped then None else
  let lowered := PyStr.lower stripped in
  if PyStr.startswith_any
       ["-r "; "--requirement"; "--requirements"; "-c "; "--constraint"] lowered
  then None else
  if PyStr.contains "git+" lowered || PyStr.startswith_any ["-e "; "--editable"] lowered
  then Some {| original := stripped; kind := vcs; key := lowered |} else
  let base :=
    if PyStr.has_char "@" stripped
    then Some (PyStr.strip (PyStr.before_first "@" stripped))
    else req_pattern_match stripped in
  match base with
  | None => Some {| original := stripped; kind := other; key := lowered |}
  | Some base =>
      Some {| original := stripped; kind := package;
              key := PyStr.lower (PyStr.replace_char "_" "-" base) |}
  end.

(** the characters at which [str.splitlines] breaks a line, CR apart *)
Definition is_linebreak (c : ascii) : bool :=
  PyStr.in_range 10 12 c || PyStr.in_range 28 30 c || (PyStr.code c =? 133)%N.

(** [text.splitlines()]; [acc] holds the current line, reversed *)
Fixpoint splitlines_aux (acc : string) (s : string) : list string :=
  match s with
  | "" => if PyStr.truthy acc then [String.rev acc] else []
  | String c s' =>
      if PyStr.is_char "013" c then
        match s' with
        | String d s'' =>
            if PyStr.is_char "010" d
            then String.rev acc :: splitlines_aux "" s''
            else String.rev acc :: splitlines_aux "" s'
        | "" => String.rev acc :: splitlines_aux "" s'
        end
      else if is_linebreak c then String.rev acc :: splitlines_aux "" s'
      else splitlines_aux (String c acc) s'
  end.

Definition splitlines (text : string) : list string := splitlines_aux "" text.

(** *** Aggregation *)

(** the two sets [collect_requirements] and [load_known_requirements] keep *)
Record Known := {
  known_packages : gset string;
  known_vcs : gset string
}.

(** the inner [for line in lines] loop of [load_known_requirements] *)
Definition note_known (acc : Known) (line : string) : Known :=
  match parse_requirement_line line with
  | None => acc
  | Some entry =>
      match kind entry with
      | package => {| known_packages := {[key entry]} ∪ known_packages acc;
                      known_vcs := known_vcs acc |}
      | vcs => {| known_packages := known_packages acc;
                  known_vcs := {[key entry]} ∪ known_vcs acc |}
      | other => acc
      end
  end.

(** [load_known_requirements(paths)] *)
Definition load_known_requirements (paths : list FileState) : Known :=
  fold_left
    (fun acc path =>
       match path with
       | Text content => fold_left note_known (splitlines content) acc
       | Absent | Unreadable => acc
       end)
    paths {| known_packages := ∅; known_vcs := ∅ |}.

(** one round of the [for line in lines] loop of [collect_requirements]:
    the state is the list [collected] and the two [current_] sets *)
Definition collect_line (st : list string * Known) (line : string) : list string * Known :=
  let '(collected, current) := st in
  match parse_requirement_line line with
  | None => st
  | Some entry =>
      match kind entry with
      | package =>
          if decide (key entry ∈ known_packages current) then st
          else ((collected ++ [original entry])%list,
                {| known_packages := {[key entry]} ∪ known_packages current;
                   known_vcs := known_vcs current |})
      | vcs =>
          if decide (key entry ∈ known_vcs current) then st
          else ((collected ++ [original entry])%list,
                {| known_packages := known_packages current;
                   known_vcs := {[key entry]} ∪ known_vcs current |})
      | other =>
          let identifier := "other:" +:+ key entry in
          if decide (identifier ∈ known_vcs current) then st
          else ((collected ++ [original entry])%list,
                {| known_packages := known_packages current;
                   known_vcs := {[identifier]} ∪ known_vcs current |})
      end
  end.

(** [req_file.read_text(encoding="utf-8")] in the world [w]; [None] when it raises *)
Definition read_text (w : World) (p : Path) : option string :=
  match fs w !! path_slug p with
  | Some (DirNode children) =>
      match children !! path_name p with
      | Some (RegularFile text) => text
      | _ => None
      end
  | _ => None
  end.

(** the lines [collect_requirements] takes from one requirement file; none
    when reading it raises *)
Definition file_lines (w : World) (req_file : Path) : list string :=
  match read_text w req_file with
  | Some text => splitlines text
  | None => []
  end.

(** the lines [collect_requirements] goes through for one plan, in order *)
Definition plan_lines (w : World) (plan : PluginPlan) : list string :=
  match status plan with
  | cloned | skipped => flat_map (file_lines w) (requirements plan)
  | planned | failed => []
  end.

(** the list [collected] at the end of the loops of [collect_requirements] *)
Definition collect_lines (known : Known) (lines : list string) : list string :=
  (fold_left collect_line lines ([], known)).1.

(** ["\n".join(collected) + "\n"] for a non-empty list: every line,
    followed by a line feed *)
Definition output_text (collected : list string) : string :=
  fold_right (fun l acc => l +:+ String "010" acc) "" collected.

(** [collect_requirements(plans, requirements_output, known_packages, known_vcs)]:
    the list it returns and the world it leaves *)
Definition collect_requirements (plans : list PluginPlan) (known : Known) (w : World)
  : list string * World :=
  let collected := collect_lines known (flat_map (plan_lines w) plans) in
  let out :=
    match collected with
    | [] => None
    | _ => Some (output_text collected)
    end in
  (collected, {| fs := fs w; git_calls := git_calls w;
                 requirements_output := out;
                 summary_output := summary_output w |}).

(** [write_summary(summary_output, plans, unresolved_nodes, collected_requirements)] *)
Definition write_summary (plans : list PluginPlan) (unresolved_nodes : list string)
    (collected : list string) (w : World) : World :=
  {| fs := fs w; git_calls := git_calls w;
     requirements_output := requirements_output w;
     summary_output :=
       Some {| workflow_plugins :=
                 map (fun plan =>
                        {| sp_id := plugin_id plan;
                           sp_repo_url := repo_url plan;
                           sp_slug := slug plan;
                           sp_nodes := nodes plan;
                           sp_status := status plan;
                           sp_reason := reason plan;
                           sp_message := message plan;
                           sp_requirements_files := map path_str (requirements plan) |})
                     plans;
               summary_unresolved_nodes := unresolved_nodes;
               collected_requirements := collected |} |}.

(** *** [main] *)

(** the file [--deps] names: missing, not loadable as JSON, or loaded *)
Inductive DepsFile :=
| DepsAbsent
| DepsInvalid
| DepsLoaded (deps : Deps).

Record Args := {
  arg_deps : DepsFile;
  arg_custom_node_root : string;
  arg_pak3 : FileState;
  arg_pak7 : FileState
}.

(** the counters and the world after the [for plan in plans] loop of [main] *)
Record Progress := {
  processed_plans : list PluginPlan;
  missing_repos : nat;
  clone_failures : nat;
  world : World
}.

Definition process_plan (git : string -> string -> GitResult) (root : string)
    (st : Progress) (plan : PluginPlan) : Progress :=
  let '(updated, w) := clone_plugin git root plan (world st) in
  let is_failed := match status updated with failed => true | _ => false end in
  {| processed_plans := processed_plans st ++ [updated];
     missing_repos :=
       match repo_url updated with
       | None => S (missing_repos st)
       | Some _ => missing_repos st
       end;
     clone_failures :=
       match repo_url updated with
       | None => clone_failures st
       | Some _ => if is_failed then S (clone_failures st) else clone_failures st
       end;
     world := w |}.

(** [main()]: the exit status of the process and the world it leaves.
    [None] only if a slug loop ran out of rounds. *)
Definition main (git : string -> string -> GitResult) (args : Args) (w : World)
  : option (nat * World) :=
  match arg_deps args with
  | DepsAbsent => Some (0, w)
  | DepsInvalid => Some (1, w)
  | DepsLoaded deps_data =>
      '(plans, unresolved_nodes) ← plan_plugins deps_data;
      match plans with
      | [] =>
          let w1 := {| fs := fs w; git_calls := git_calls w;
                       requirements_output := None;
                       summary_output := summary_output w |} in
          Some (0, write_summary plans unresolved_nodes [] w1)
      | _ =>
          let st := fold_left (process_plan git (arg_custom_node_root args)) plans
                      {| processed_plans := []; missing_repos := 0;
                         clone_failures := 0; world := w |} in
          let known := load_known_requirements [arg_pak3 args; arg_pak7 args] in
          let '(collected, w2) := collect_requirements (processed_plans st) known (world st) in
          let w3 := write_summary (processed_plans st) unresolved_nodes collected w2 in
          if ((0 <? missing_repos st) || (0 <? clone_failures st))%nat
          then Some (1, w3)
          else Some (0, w3)
      end
  end.

End Apply.

(** ** [generate_workflow_dependencies.py] *)

Module Generate.

(** A compiled regular expression: its source and what [pattern.search]
    answers on a node name. *)
Record Pattern := {
  pattern_source : string;
  search : string -> bool
}.

(** *** Catalog builder *)

(** the five values [load_extension_node_map] builds and returns *)
Record Catalog := {
  node_to_plugins : gmap string (list string);
  plugin_metadata : gmap string (list (string * json));
  preemption_map : gmap string string;
  pattern_entries : list (Pattern * string);
  comfy_nodes : gset string
}.

Definition empty_catalog : Catalog :=
  {| node_to_plugins := ∅; plugin_metadata := ∅; preemption_map := ∅;
     pattern_entries := []; comfy_nodes := ∅ |}.

(** [[entry for entry in items if isinstance(entry, str)]] *)
Definition str_items (items : list json) : list string :=
  flat_map (fun v => match v with JStr s => [s] | _ => [] end) items.

(** [nodes] after the shape test on a raw catalog value *)
Definition entry_nodes (value : json) : list string :=
  match value with
  | JArr (JArr items :: _) => str_items items
  | _ => []
  end.

(** [metadata] after the shape test on a raw catalog value *)
Definition entry_metadata (value : json) : list (string * json) :=
  match value with
  | JArr (_ :: JObj fields :: _) => fields
  | JObj fields => fields
  | _ => []
  end.

(** [custom_entry], when it is found and not empty *)
Definition custom_entry (custom_catalog : gmap string (list (string * json)))
    (raw_plugin_id : string) : option (list (string * json)) :=
  match custom_catalog !! raw_plugin_id with
  | Some entry => if Dict.truthy entry then Some entry else None
  | None => None
  end.

Definition canonical_id (custom_catalog : gmap string (list (string * json)))
    (raw_plugin_id : string) : string :=
  match custom_entry custom_catalog raw_plugin_id with
  | Some entry =>
      match Dict.get "reference" entry with
      | Some (JStr reference) =>
          if PyStr.truthy reference then reference else raw_plugin_id
      | _ => raw_plugin_id
      end
  | None => raw_plugin_id
  end.

Definition combined_metadata (custom_catalog : gmap string (list (string * json)))
    (raw_plugin_id : string) (metadata : list (string * json)) : list (string * json) :=
  match custom_entry custom_catalog raw_plugin_id with
  | Some entry =>
      let m := Dict.setdefault "reference" (Dict.get_json "reference" entry) metadata in
      let m := Dict.setdefault "author" (Dict.get_json "author" entry) m in
      let m := Dict.setdefault "title" (Dict.get_json "title" entry) m in
      let m := Dict.setdefault "install_type" (Dict.get_json "install_type" entry) m in
      let description := Dict.get_json "description" entry in
      let m := if json_truthy description && negb (Dict.mem "description" m)
               then Dict.set "description" description m else m in
      match Dict.get_json "files" entry with
      | JArr files => Dict.setdefault "files" (JArr (map JStr (str_items files))) m
      | _ => m
      end
  | None => metadata
  end.

Definition is_null (v : json) : bool :=
  match v with JNull => true | _ => false end.

(** [{k: v for k, v in combined_metadata.items() if v is not None}] *)
Definition non_null (d : list (string * json)) : list (string * json) :=
  List.filter (fun kv => negb (is_null kv.2)) d.

(** the value stored at [plugin_metadata[canonical_id]], given what
    [plugin_metadata.get(canonical_id)] returned *)
Definition merge_metadata (existing_meta : option (list (string * json)))
    (combined : list (string * json)) : list (string * json) :=
  match existing_meta with
  | Some existing =>
      if Dict.truthy existing then Dict.update existing (non_null combined)
      else combined
  | None => combined
  end.

(** [node_to_plugins[normalized].append(canonical_id)] for every node name *)
Definition add_providers (cid : string) (names : list string)
    (m : gmap string (list string)) : gmap string (list string) :=
  fold_left
    (fun acc node_name =>
       let normalized := PyStr.strip node_name in
       if PyStr.truthy normalized
       then <[normalized := (default [] (acc !! normalized) ++ [cid])%list]> acc
       else acc)
    names m.

(** [preemption_map[entry] = canonical_id] for every string of the
    [preemptions] list *)
Definition add_preemptions (cid : string) (preemptions : option json)
    (m : gmap string string) : gmap string string :=
  match preemptions with
  | Some (JArr items) => fold_left (fun acc entry => <[entry := cid]> acc) (str_items items) m
  | _ => m
  end.

Definition add_pattern (re_compile : string -> option Pattern) (cid : string)
    (pattern : option json) (l : list (Pattern * string)) : list (Pattern * string) :=
  match pattern with
  | Some (JStr p) =>
      if PyStr.truthy p then
        match re_compile p with
        | Some compiled => (l ++ [(compiled, cid)])%list
        | None => l
        end
      else l
  | _ => l
  end.

Definition comfy_repository : string := "https://github.com/comfyanonymous/ComfyUI".

(** one round of the [for raw_plugin_id, value in raw_data.items()] loop *)
Definition catalog_step (re_compile : string -> option Pattern)
    (custom_catalog : gmap string (list (string * json)))
    (acc : Catalog) (item : string * json) : Catalog :=
  let '(raw_plugin_id, value) := item in
  let names := entry_nodes value in
  let metadata := entry_metadata value in
  let cid := canonical_id custom_catalog raw_plugin_id in
  let combined := combined_metadata custom_catalog raw_plugin_id metadata in
  {| node_to_plugins := add_providers cid names (node_to_plugins acc);
     plugin_metadata :=
       <[cid := merge_metadata (plugin_metadata acc !! cid) combined]> (plugin_metadata acc);
     preemption_map := add_preemptions cid (Dict.get "preemptions" metadata) (preemption_map acc);
     pattern_entries :=
       add_pattern re_compile cid (Dict.get "nodename_pattern" metadata) (pattern_entries acc);
     comfy_nodes :=
       if decide (cid = comfy_repository)
       then list_to_set (map PyStr.strip names) ∪ comfy_nodes acc
       else comfy_nodes acc |}.

(** [load_extension_node_map(raw_data, custom_catalog)]; [raw_data] lists
    the items of the node map in the order [raw_data.items()] yields them *)
Definition load_extension_node_map (re_compile : string -> option Pattern)
    (raw_data : list (string * json))
    (custom_catalog : gmap string (list (string * json))) : Catalog :=
  fold_left (catalog_step re_compile custom_catalog) raw_data empty_catalog.

(** *** Resolver *)

(** the test that makes [resolve_dependencies] skip a node name *)
Definition is_builtin (builtin_nodes : gset string) (builtin_patterns : list Pattern)
    (node_name : string) : bool :=
  bool_decide (node_name ∈ builtin_nodes)
  || existsb (fun pattern => search pattern node_name) builtin_patterns.

(** the [for pattern, candidate_plugin in pattern_entries] loop *)
Fixpoint first_pattern (pattern_entries : list (Pattern * string)) (node_name : string)
  : option string :=
  match pattern_entries with
  | [] => None
  | (pattern, candidate_plugin) :: rest =>
      if search pattern node_name then Some candidate_plugin
      else first_pattern rest node_name
  end.

(** [plugin_ids[0]] when [plugin_ids] is a non-empty list *)
Definition first_provider (plugin_ids : option (list string)) : option string :=
  match plugin_ids with
  | Some (p :: _) => Some p
  | _ => None
  end.

(** [plugin_id] of one node name that is not built in, as the body of the
    loop of [resolve_dependencies] computes it *)
Definition resolve_node (cat : Catalog) (plugin_overrides : gmap string string)
    (node_name : string) : option string :=
  let override_plugin := plugin_overrides !! node_name in
  let plugin_ids := node_to_plugins cat !! node_name in
  let plugin_id :=
    match override_plugin with
    | Some p => Some p
    | None =>
        let plugin_id := preemption_map cat !! node_name in
        let plugin_id :=
          match plugin_id with
          | None => first_provider plugin_ids
          | Some _ => plugin_id
          end in
        match plugin_id with
        | None => first_pattern (pattern_entries cat) node_name
        | Some _ => plugin_id
        end
    end in
  match plugin_id with
  | None => first_provider plugin_ids
  | Some _ => plugin_id
  end.

(** the dict [plugins] (plugin id to its node set and metadata) and the set
    [unresolved] *)
Record Resolution := {
  plugins : gmap string (gset string * list (string * json));
  unresolved : gset string
}.

(** one round of the [for node_name in sorted(workflow_nodes)] loop *)
Definition resolve_step (builtin_nodes : gset string) (builtin_patterns : list Pattern)
    (cat : Catalog) (plugin_overrides : gmap string string)
    (acc : Resolution) (node_name : string) : Resolution :=
  if is_builtin builtin_nodes builtin_patterns node_name then acc else
  match resolve_node cat plugin_overrides node_name with
  | None => {| plugins := plugins acc; unresolved := {[node_name]} ∪ unresolved acc |}
  | Some plugin_id =>
      let entry :=
        default (∅, default [] (plugin_metadata cat !! plugin_id))
                (plugins acc !! plugin_id) in
      {| plugins := <[plugin_id := ({[node_name]} ∪ entry.1, entry.2)]> (plugins acc);
         unresolved := unresolved acc |}
  end.

Definition key_le {V : Type} (a b : string * V) : Prop := String.le a.1 b.1.

Definition plugin_entry (item : string * (gset string * list (string * json)))
  : PluginGroup :=
  {| group_id := item.1;
     group_nodes := PyStr.sorted (elements item.2.1);
     group_metadata := if Dict.truthy item.2.2 then Some item.2.2 else None |}.

(** [resolve_dependencies(workflow_nodes, builtin_nodes, builtin_patterns,
    node_to_plugins, plugin_metadata, preemption_map, pattern_entries,
    plugin_overrides)]: the pair [(plugin_list, sorted(unresolved))] *)
Definition resolve_dependencies (workflow_nodes builtin_nodes : gset string)
    (builtin_patterns : list Pattern) (cat : Catalog)
    (plugin_overrides : gmap string string) : list PluginGroup * list string :=
  let res :=
    fold_left (resolve_step builtin_nodes builtin_patterns cat plugin_overrides)
              (PyStr.sorted (elements workflow_nodes))
              {| plugins := ∅; unresolved := ∅ |} in
  (map plugin_entry (merge_sort key_le (map_to_list (plugins res))),
   PyStr.sorted (elements (unresolved res))).

(** *** Loading the node map in [main] *)

Inductive Exception :=
| NameError (name : string)
| AttributeError
| JSONDecodeError
| ReadError.

(** how a piece of [main] ends *)
Inductive Outcome (A : Type) :=
| Returns (a : A)
| Exits (code : nat)
| Raises (e : Exception).
Arguments Returns {A} a.
Arguments Exits {A} code.
Arguments Raises {A} e.

(** the names bound at module level: the imports, the class and the functions *)
Definition module_globals : gset string :=
  list_to_set
    ["annotations"; "argparse"; "ast"; "json"; "re"; "subprocess"; "sys";
     "defaultdict"; "Path"; "Dict"; "Iterable"; "List"; "Optional"; "Pattern";
     "Sequence"; "Set"; "Tuple"; "parse_args"; "NodeClassCollector";
     "gather_builtin_nodes"; "load_workflow_nodes"; "load_custom_node_catalog";
     "load_extension_node_map"; "resolve_dependencies"; "load_special_config";
     "_maybe_compile_pattern"; "ensure_repo"; "main"].

(** the builtins the script calls; Python has no builtin named [fallback] *)
Definition builtins_used : gset string :=
  list_to_set ["any"; "isinstance"; "print"; "set"; "sorted"; "str"; "dict"; "list"].

(** the names [main] has assigned when it reaches [if args.node_map:];
    [fallback_root] is among them only if one of the two download
    fallbacks ran *)
Definition main_locals (fallback_ran : bool) : gset string :=
  list_to_set
    ["args"; "script_dir"; "comfy_root"; "manager_root"; "required_manager_files";
     "required_comfy_files"; "workflow_nodes"; "builtin_nodes"; "node_map_data"]
  ∪ (if fallback_ran then {[ "fallback_root" ]} else ∅).

(** the names a read inside the [else] branch can resolve *)
Definition branch_scope (fallback_ran : bool) : gset string :=
  {[ "preferred" ]} ∪ main_locals fallback_ran ∪ module_globals ∪ builtins_used.

(** [json.loads(path.read_text(encoding="utf-8"))] *)
Definition load_json_file (json_loads : string -> option json) (f : FileState)
  : Outcome json :=
  match f with
  | Text content =>
      match json_loads content with
      | Some data => Returns data
      | None => Raises JSONDecodeError
      end
  | Absent | Unreadable => Raises ReadError
  end.

Definition exists_ (f : FileState) : bool :=
  match f with Absent => false | _ => true end.

(** reading the variable [name]: [k] goes on with the file it denotes *)
Definition read_name {A : Type} (scope : gset string) (name : string)
    (k : Outcome A) : Outcome A :=
  if decide (name ∈ scope) then k else Raises (NameError name).

(** [for key, value in fallback_data.items(): node_map_data.setdefault(key, value)] *)
Definition merge_fallback (node_map_data fallback_data : json) : Outcome json :=
  match fallback_data with
  | JObj [] => Returns node_map_data
  | JObj fb =>
      match node_map_data with
      | JObj d => Returns (JObj (fold_left (fun acc kv => Dict.setdefault kv.1 kv.2 acc) fb d))
      | _ => Raises AttributeError
      end
  | _ => Raises AttributeError
  end.

(** The statement [if args.node_map: ... else: ...] of [main], up to the
    test [if node_map_data is None].  [node_map] is the state of the file
    [--node-map] names, when the option is given; [preferred] that of
    [manager_root / "node_db" / "dev" / "extension-node-map.json"];
    [scope] the names a read can resolve and [fallback] the state of the
    file the variable [fallback] would denote if it were bound. *)
Definition load_node_map (json_loads : string -> option json)
    (scope : gset string) (node_map : option FileState)
    (preferred fallback : FileState) : Outcome json :=
  match node_map with
  | Some node_map_path =>
      if exists_ node_map_path then load_json_file json_loads node_map_path
      else Exits 1
  | None =>
      if exists_ preferred then
        match load_json_file json_loads preferred with
        | Returns node_map_data =>
            read_name scope "fallback"
              (if exists_ fallback then
                 match load_json_file json_loads fallback with
                 | Returns fallback_data => merge_fallback node_map_data fallback_data
                 | Exits c => Exits c
                 | Raises e => Raises e
                 end
               else Returns node_map_data)
        | Exits c => Exits c
        | Raises e => Raises e
        end
      else
        read_name scope "fallback"
          (if exists_ fallback then load_json_file json_loads fallback
           else Exits 1)
  end.

(** *** The special-case configuration *)

(** [set(".*+?[](){}|^$")] *)
Definition regex_tokens : list ascii :=
  ["."; "*"; "+"; "?"; "["; "]"; "("; ")"; "{"; "}"; "|"; "^"; "$"]%char.

(** [any(token in value for token in regex_tokens)] *)
Definition has_regex_token (value : string) : bool :=
  existsb (fun token => PyStr.has_char token value) regex_tokens.

(** [_maybe_compile_pattern(value)] *)
Definition _maybe_compile_pattern (re_compile : string -> option Pattern) (value : string)
  : option Pattern :=
  if has_regex_token value then re_compile value else None.

(** what [load_special_config] returns *)
Record SpecialConfig := {
  builtin_overrides : gset string;
  config_builtin_patterns : list Pattern;
  plugin_overrides : gmap string string
}.

(** the [for item in builtin_list] loop *)
Definition add_builtin (re_compile : string -> option Pattern)
    (acc : gset string * list Pattern) (item : json) : gset string * list Pattern :=
  match item with
  | JStr item =>
      match _maybe_compile_pattern re_compile item with
      | None => ({[item]} ∪ acc.1, acc.2)
      | Some pattern => (acc.1, (acc.2 ++ [pattern])%list)
      end
  | _ => acc
  end.

(** the [for node_name, plugin_id in plugin_map.items()] loop *)
Definition add_override (acc : gmap string string) (kv : string * json) : gmap string string :=
  match kv.2 with
  | JStr plugin_id => <[kv.1 := plugin_id]> acc
  | _ => acc
  end.

(** [load_special_config(path)]; [path] is [None] when [--special-config]
    is not given *)
Definition load_special_config (re_compile : string -> option Pattern)
    (json_loads : string -> option json) (path : option FileState) : Outcome SpecialConfig :=
  match path with
  | None => Returns {| builtin_overrides := ∅; config_builtin_patterns := [];
                       plugin_overrides := ∅ |}
  | Some Absent => Exits 1
  | Some Unreadable => Exits 1
  | Some (Text content) =>
      match json_loads content with
      | None => Exits 1
      | Some (JObj data) =>
          let builtins :=
            match Dict.get "builtin_nodes" data with
            | Some (JArr builtin_list) => fold_left (add_builtin re_compile) builtin_list (∅, [])
            | _ => (∅, [])
            end in
          let overrides :=
            match Dict.get "plugin_overrides" data with
            | Some (JObj plugin_map) => fold_left add_override plugin_map ∅
            | _ => ∅
            end in
          Returns {| builtin_overrides := builtins.1;
                     config_builtin_patterns := builtins.2;
                     plugin_overrides := overrides |}
      | Some _ => Raises AttributeError
      end
  end.

(** *** The workflow's node names *)

(** [obj.get("class_type") or obj.get("type")], when it is a [str] *)
Definition class_type_of (fields : list (string * json)) : option string :=
  let class_type := Dict.get_json "class_type" fields in
  match (if json_truthy class_type then class_type else Dict.get_json "type" fields) with
  | JStr name => Some name
  | _ => None
  end.

Definition class_type_set (fields : list (string * json)) : gset string :=
  match class_type_of fields with
  | Some name => {[name]}
  | None => ∅
  end.

(** the fallback crawl [_scan(obj)]: the names it adds to [discovered] *)
Fixpoint scan (obj : json) : gset string :=
  match obj with
  | JObj fields =>
      class_type_set fields
      ∪ (fix scan_values (l : list (string * json)) : gset string :=
           match l with
           | [] => ∅
           | kv :: l' => scan kv.2 ∪ scan_values l'
           end) fields
  | JArr items =>
      (fix scan_items (l : list json) : gset string :=
         match l with
         | [] => ∅
         | item :: l' => scan item ∪ scan_items l'
         end) items
  | _ => ∅
  end.

(** the loop over [nodes_section] when it is a list *)
Definition scan_nodes_section (nodes_section : list json) : gset string :=
  fold_left
    (fun discovered node =>
       match node with
       | JObj fields => class_type_set fields ∪ discovered
       | _ => discovered
       end)
    nodes_section ∅.

(** [load_workflow_nodes(workflow_path)], from the parsed workflow on *)
Definition load_workflow_nodes (data : json) : Outcome (gset string) :=
  match data with
  | JObj fields =>
      match Dict.get "nodes" fields with
      | Some (JArr nodes_section) => Returns (scan_nodes_section nodes_section)
      | _ => Returns (scan data)
      end
  | _ => Raises AttributeError
  end.

(** *** The extension directory *)

(** the URLs under which [load_custom_node_catalog] files an entry: its
    reference, then its files, the non-empty strings among them *)
Definition entry_urls (entry : list (string * json)) : list string :=
  (match Dict.get "reference" entry with
   | Some (JStr reference) => if PyStr.truthy reference then [reference] else []
   | _ => []
   end
   ++ match Dict.get "files" entry with
      | Some (JArr files) => List.filter PyStr.truthy (str_items files)
      | _ => []
      end)%list.

(** [catalog.setdefault(url, entry)] *)
Definition catalog_setdefault (entry : list (string * json))
    (catalog : gmap string (list (string * json))) (url : string)
  : gmap string (list (string * json)) :=
  match catalog !! url with
  | Some _ => catalog
  | None => <[url := entry]> catalog
  end.

(** one round of the [for entry in entries] loop *)
Definition add_entry (catalog : gmap string (list (string * json))) (entry : json)
  : gmap string (list (string * json)) :=
  match entry with
  | JObj fields => fold_left (catalog_setdefault fields) (entry_urls fields) catalog
  | _ => catalog
  end.

(** The body of the [for path in candidates] loop: the catalog after it,
    and whether the body ran to its last statement, the test
    [if catalog: break], rather than leaving by [continue]. *)
Definition load_candidate (json_loads : string -> option json)
    (catalog : gmap string (list (string * json))) (path : FileState)
  : Outcome (bool * gmap string (list (string * json))) :=
  match path with
  | Absent | Unreadable => Returns (false, catalog)
  | Text content =>
      match json_loads content with
      | None => Returns (false, catalog)
      | Some (JObj data) =>
          match Dict.get "custom_nodes" data with
          | Some (JArr entries) => Returns (true, fold_left add_entry entries catalog)
          | _ => Returns (false, catalog)
          end
      | Some _ => Raises AttributeError
      end
  end.

Fixpoint load_candidates (json_loads : string -> option json)
    (candidates : list FileState) (catalog : gmap string (list (string * json)))
  : Outcome (gmap string (list (string * json))) :=
  match candidates with
  | [] => Returns catalog
  | path :: rest =>
      match load_candidate json_loads catalog path with
      | Returns (at_end, catalog') =>
          if at_end && negb (bool_decide (catalog' = ∅)) then Returns catalog'
          else load_candidates json_loads rest catalog'
      | Exits code => Exits code
      | Raises e => Raises e
      end
  end.

(** [load_custom_node_catalog(manager_root)]; [candidates] are the states of
    [node_db/dev/custom-node-list.json] and [custom-node-list.json] *)
Definition load_custom_node_catalog (json_loads : string -> option json)
    (candidates : list FileState) : Outcome (gmap string (list (string * json))) :=
  load_candidates json_loads candidates ∅.

(** *** The resolution step of [main] *)

(** The part of [main] from [load_extension_node_map] to the [result]
    dict: [builtin_nodes] is what [gather_builtin_nodes] returned,
    [raw_data] the items of the node map, [config] what
    [load_special_config] returned.  The result is the manifest
    [{"plugins": ..., "unresolved_nodes"?: ...}], the second key being
    written only for a non-empty list. *)
Definition resolve_workflow (re_compile : string -> option Pattern)
    (workflow_nodes builtin_nodes : gset string) (raw_data : list (string * json))
    (custom_catalog : gmap string (list (string * json))) (config : SpecialConfig) : Deps :=
  let cat := load_extension_node_map re_compile raw_data custom_catalog in
  let builtin_nodes := builtin_nodes ∪ comfy_nodes cat ∪ builtin_overrides config in
  let out := resolve_dependencies workflow_nodes builtin_nodes
               (config_builtin_patterns config) cat (plugin_overrides config) in
  {| deps_plugins := out.1; deps_unresolved_nodes := out.2 |}.

End Generate.

(** ** The specification's wording, for comparison with the code *)

Module Spec.
Import Apply.

(** the first of [keys] whose metadata value is a string that normalizes *)
Fixpoint first_normalizing (metadata : list (string * json)) (keys : list string)
  : option string :=
  match keys with
  | [] => None
  | key :: keys' =>
      match normalize_git_url (str_or_none (Dict.get key metadata)) with
      | Some url => Some url
      | None => first_normalizing metadata keys'
      end
  end.

Definition metadata_url (entry : PluginGroup) : option string :=
  match group_metadata entry with
  | Some metadata => first_normalizing metadata metadata_keys
  | None => None
  end.

(** "normalizing the id itself ... or, if absent, by inspecting the group's
    metadata": the id is tried first *)
Definition id_first_url (entry : PluginGroup) : option string :=
  match normalize_git_url (Some (PyStr.strip (group_id entry))) with
  | Some url => Some url
  | None => metadata_url entry
  end.

(** the metadata keys are tried first, the id only when none of them
    gives a URL *)
Definition metadata_first_url (entry : PluginGroup) : option string :=
  match metadata_url entry with
  | Some url => Some url
  | None => normalize_git_url (Some (PyStr.strip (group_id entry)))
  end.

(** "the second receives a [-2] suffix; a third colliding plugin receives
    [-3]": the slug of a plugin is its base slug, with [-n] appended when
    it is the [n]-th plugin of the run with that base slug, [n >= 2] *)
Fixpoint slug_by_encounter (earlier bases : list string) : list string :=
  match bases with
  | [] => []
  | base :: bases' =>
      let n := length (filter (fun b => b = base) earlier) in
      (if decide (n = 0) then base else suffixed base (S n))
        :: slug_by_encounter (earlier ++ [base])%list bases'
  end.

(** [s] is [base] when that is not in [used], and else [base-k] for the
    least [k >= 2] for which that is not in [used] *)
Definition first_free (base : string) (used : gset string) (s : string) : Prop :=
  ((base ∉ used) /\ s = base) \/
  (base ∈ used /\ exists k, 2 <= k /\ s = suffixed base k /\ (s ∉ used) /\
                   forall j, 2 <= j < k -> suffixed base j ∈ used).

(** every plan of [plans] has a slug exactly when it has a repository URL,
    and that slug is the first free one for the URL's base slug, [used]
    holding the slugs handed out before *)
Fixpoint slugs_first_free (used : gset string) (plans : list PluginPlan) : Prop :=
  match plans with
  | [] => True
  | plan :: plans' =>
      match repo_url plan with
      | None => slug plan = None /\ slugs_first_free used plans'
      | Some url =>
          exists s, slug plan = Some s /\ first_free (base_slug url) used s /\
                    slugs_first_free ({[s]} ∪ used) plans'
      end
  end.

(** the ids listed as providers of a node name *)
Definition providers (cat : Generate.Catalog) (node_name : string) : list string :=
  default [] (Generate.node_to_plugins cat !! node_name).

(** the node names a raw catalog value contributes: trimmed, blank ones dropped *)
Definition provided_names (value : json) : list string :=
  List.filter PyStr.truthy (map PyStr.strip (Generate.entry_nodes value)).

(** a dict holds each key once *)
Definition unique_keys (d : list (string * json)) : Prop := NoDup (map fst d).

(** "later non-null values overriding only unset keys": a non-null value
    of the later entry is taken only for a key the earlier metadata does
    not hold, or holds as null *)
Definition merge_unset_only (earlier later : list (string * json)) : list (string * json) :=
  fold_left
    (fun acc kv =>
       if Generate.is_null kv.2 then acc
       else if Generate.is_null (Dict.get_json kv.1 earlier) then Dict.set kv.1 kv.2 acc
       else acc)
    later earlier.

(** a later entry's non-null value replaces the earlier one key by key;
    where the later entry has no value, or null, the earlier value stays *)
Definition later_non_null_wins (earlier later merged : list (string * json)) : Prop :=
  forall k, Dict.get_json k merged
            = if Generate.is_null (Dict.get_json k later) then Dict.get_json k earlier
              else Dict.get_json k later.

(** [node_name] is in the node set the dict [plugins] holds for [pid] *)
Definition resolved_in (res : Generate.Resolution) (pid node_name : string) : Prop :=
  exists entry, Generate.plugins res !! pid = Some entry /\ node_name ∈ entry.1.

(** "the first canonical id in the node's provider list" *)
Definition first_of_provider_list (cat : Generate.Catalog) (node_name pid : string) : Prop :=
  exists others, Generate.node_to_plugins cat !! node_name = Some (pid :: others).

(** the node name has no provider list, or an empty one *)
Definition no_provider (cat : Generate.Catalog) (node_name : string) : Prop :=
  Generate.node_to_plugins cat !! node_name = None \/
  Generate.node_to_plugins cat !! node_name = Some [].

(** "the first declared pattern whose regex matches": [pid] is declared
    with a pattern that matches the node name, and no pattern declared
    before that one matches it *)
Definition first_matching_pattern (cat : Generate.Catalog) (node_name pid : string) : Prop :=
  exists before pattern after,
    Generate.pattern_entries cat = (before ++ (pattern, pid) :: after)%list /\
    Generate.search pattern node_name = true /\
    forall entry, entry ∈ before -> Generate.search entry.1 node_name = false.

Definition no_matching_pattern (cat : Generate.Catalog) (node_name : string) : Prop :=
  forall entry, entry ∈ Generate.pattern_entries cat ->
                Generate.search entry.1 node_name = false.

(** "override > preemption > catalog provider-list > pattern match": what
    the chain picks for a node name, each source being asked only when the
    ones before it have nothing for the name *)
Inductive precedence_chain (cat : Generate.Catalog) (plugin_overrides : gmap string string)
    (node_name : string) : option string -> Prop :=
| chain_override pid :
    plugin_overrides !! node_name = Some pid ->
    precedence_chain cat plugin_overrides node_name (Some pid)
| chain_preemption pid :
    plugin_overrides !! node_name = None ->
    Generate.preemption_map cat !! node_name = Some pid ->
    precedence_chain cat plugin_overrides node_name (Some pid)
| chain_provider pid :
    plugin_overrides !! node_name = None ->
    Generate.preemption_map cat !! node_name = None ->
    first_of_provider_list cat node_name pid ->
    precedence_chain cat plugin_overrides node_name (Some pid)
| chain_pattern pid :
    plugin_overrides !! node_name = None ->
    Generate.preemption_map cat !! node_name = None ->
    no_provider cat node_name ->
    first_matching_pattern cat node_name pid ->
    precedence_chain cat plugin_overrides node_name (Some pid)
| chain_nothing :
    plugin_overrides !! node_name = None ->
    Generate.preemption_map cat !! node_name = None ->
    no_provider cat node_name ->
    no_matching_pattern cat node_name ->
    precedence_chain cat plugin_overrides node_name None.

(** the groups of a result that list [node_name] *)
Definition listed_under (groups : list PluginGroup) (node_name pid : string) : Prop :=
  exists group, group ∈ groups /\ group_id group = pid /\ node_name ∈ group_nodes group.

(** "evaluation reaches a reference to an undefined variable", for every
    invocation without [--node-map] *)
Definition always_name_error (json_loads : string -> option json) (fallback_ran : bool)
    (preferred fallback : FileState) : Prop :=
  Generate.load_node_map json_loads (Generate.branch_scope fallback_ran) None preferred fallback
  = Generate.Raises (Generate.NameError "fallback").

(** a stand-in for [json.loads] that accepts the text of the empty object
    only *)
Definition loads_empty_object (content : string) : option json :=
  if decide (content = "{}") then Some (JObj []) else None.

(** the plans of a run *)
Definition plans_of (args : Args) : list PluginPlan :=
  match arg_deps args with
  | DepsLoaded deps =>
      match plan_plugins deps with
      | Some (plans, _) => plans
      | None => []
      end
  | DepsAbsent | DepsInvalid => []
  end.

Definition no_url (plan : PluginPlan) : bool :=
  match repo_url plan with None => true | Some _ => false end.

Definition lacks_url (plans : list PluginPlan) : Prop :=
  exists plan, plan ∈ plans /\ repo_url plan = None.

(** the clone command [call] (url, target) does not succeed *)
Definition failed_call (git : string -> string -> GitResult) (call : string * string) : bool :=
  match git call.1 call.2 with
  | GitOk _ => false
  | GitNotFound | GitError _ _ => true
  end.

Definition clone_fails (git : string -> string -> GitResult) (calls : list (string * string))
  : Prop :=
  exists call, call ∈ calls /\ failed_call git call = true.

(** "non-zero termination if and only if a plan lacks a repository URL or
    a clone attempt fails", [calls] being the clone commands of the run *)
Definition exit_contract (git : string -> string -> GitResult) (plans : list PluginPlan)
    (calls : list (string * string)) (code : nat) : Prop :=
  code <> 0 <-> lacks_url plans \/ clone_fails git calls.

(** "the summary and the aggregated requirements output are always written
    before the non-zero termination" *)
Definition outputs_written (w : World) : Prop :=
  is_Some (summary_output w) /\ is_Some (requirements_output w).

(** the exit contract as the specification states it, for one run *)
Definition exit_contract_as_stated (git : string -> string -> GitResult) (args : Args)
    (w : World) : Prop :=
  exists code w',
    main git args w = Some (code, w') /\
    exit_contract git (plans_of args) (drop (length (git_calls w)) (git_calls w')) code /\
    (code <> 0 -> outputs_written w').

(** The set a requirement entry is looked up in, and the member it stands
    for there: [current_packages] holds package keys; [current_vcs] holds
    vcs keys and, for an entry of kind [other], [f"{kind}:{key}"]. *)
Inductive Pool := PackagePool | VcsPool.

Global Instance Pool_eq_dec : EqDecision Pool.
Proof. solve_decision. Defined.

Definition dedup_id (entry : RequirementEntry) : Pool * string :=
  match kind entry with
  | package => (PackagePool, key entry)
  | vcs => (VcsPool, key entry)
  | other => (VcsPool, "other:" +:+ key entry)
  end.

Definition is_covered (known : Known) (id : Pool * string) : bool :=
  match id.1 with
  | PackagePool => bool_decide (id.2 ∈ known_packages known)
  | VcsPool => bool_decide (id.2 ∈ known_vcs known)
  end.

(** the dedup ids of the lines that parse, in order *)
Definition dedup_ids (lines : list string) : list (Pool * string) :=
  map dedup_id (omap parse_requirement_line lines).

(** what one more line adds to the output: its trimmed text, unless the
    line does not parse, the baseline covers its id, or an earlier line
    had the same id *)
Definition emitted (known : Known) (earlier : list string) (line : string) : list string :=
  match parse_requirement_line line with
  | None => []
  | Some entry =>
      if is_covered known (dedup_id entry)
         || bool_decide (dedup_id entry ∈ dedup_ids earlier)
      then [] else [original entry]
  end.

(** "Deduplication state accumulates across baseline files first, then
    across all scanned plugin requirement files ...; the first occurrence of
    any dedup key wins and is emitted, every later occurrence of the same key
    is dropped": what one more line adds when every line of the baseline
    counts as an earlier occurrence of its dedup id *)
Definition emitted_as_stated (baseline earlier : list string) (line : string) : list string :=
  match parse_requirement_line line with
  | None => []
  | Some entry =>
      if bool_decide (dedup_id entry ∈ dedup_ids (baseline ++ earlier))
      then [] else [original entry]
  end.

(** the lines of the baseline files that are read *)
Definition baseline_lines (paths : list FileState) : list string :=
  flat_map (fun path => match path with Text content => splitlines content | _ => [] end) paths.

End Spec.

(** ** Predicates used to state further properties of the code *)

Module Shape.
Import Apply.

(** every character of [s] is in the class [p] *)
Fixpoint all_chars (p : ascii -> bool) (s : string) : bool :=
  match s with
  | "" => true
  | String c s' => p c && all_chars p s'
  end.

(** a trimmed requirement line [name ++ rest] that names a package: the
    name is made of letters, digits, [.], [_] and [-] and starts with a
    letter or a digit; what follows it, if anything, starts with a character
    outside that class other than an opening bracket; there is no [@] after
    the name and no [git+] in the line *)
Definition package_line (name rest : string) : Prop :=
  (exists c name', name = String c name' /\ alnum c = true) /\
  all_chars name_char name = true /\
  match rest with
  | "" => True
  | String c _ => name_char c = false /\ c <> "["%char
  end /\
  PyStr.has_char "@" rest = false /\
  PyStr.contains "git+" (PyStr.lower (name +:+ rest)) = false.

(** the class [[a-z0-9._-]] *)
Definition safe_char (c : ascii) : bool :=
  PyStr.in_range 97 122 c || PyStr.in_range 48 57 c
  || PyStr.is_char "." c || PyStr.is_char "_" c || PyStr.is_char "-" c.

(** the characters at which [str.splitlines] breaks a line *)
Definition is_break (c : ascii) : bool :=
  PyStr.is_char "013" c || is_linebreak c.

(** a plan with a URL whose clone failed *)
Definition failed_plan (plan : PluginPlan) : bool :=
  match repo_url plan, status plan with
  | Some _, failed => true
  | _, _ => false
  end.

(** a processed plan that is materialized: skipped for an existing directory
    or cloned, with its slug naming an entry under the custom-node root *)
Definition materialized (w : World) (plan : PluginPlan) : Prop :=
  (status plan = cloned \/ status plan = skipped) /\
  exists target, slug plan = Some target /\ is_Some (fs w !! target).

(** the order [sorted(plugins.items(), key=...)] sorts by *)
Global Instance key_le_trans {V} : Transitive (@Generate.key_le V).
Proof. intros x y z. unfold Generate.key_le. apply transitivity. Qed.

Global Instance key_le_total {V} : Total (@Generate.key_le V).
Proof. intros x y. unfold Generate.key_le. apply total, _. Qed.

(** the pattern entry a raw catalog item adds: none when it declares no
    pattern or one that does not compile *)
Definition declared_pattern (re_compile : string -> option Generate.Pattern)
    (custom_catalog : gmap string (list (string * json))) (item : string * json)
  : list (Generate.Pattern * string) :=
  match Dict.get "nodename_pattern" (Generate.entry_metadata item.2) with
  | Some (JStr p) =>
      if PyStr.truthy p then
        match re_compile p with
        | Some compiled => [(compiled, Generate.canonical_id custom_catalog item.1)]
        | None => []
        end
      else []
  | _ => []
  end.

(** the node names a raw catalog value preempts *)
Definition preempted_names (value : json) : list string :=
  match Dict.get "preemptions" (Generate.entry_metadata value) with
  | Some (JArr items) => Generate.str_items items
  | _ => []
  end.

(** the directory fields [load_extension_node_map] copies *)
Definition directory_fields : list string :=
  ["reference"; "author"; "title"; "install_type"; "description"; "files"].

(** [inner] occurs in [outer]: it is [outer], or occurs in a value of the
    object [outer], or in an item of the list [outer] *)
Inductive within (inner : json) : json -> Prop :=
| within_here : within inner inner
| within_value fields k v :
    (k, v) ∈ fields -> within inner v -> within inner (JObj fields)
| within_item items item :
    item ∈ items -> within inner item -> within inner (JArr items).

(** the first object among [entries] that is filed under [url] *)
Fixpoint first_mention (url : string) (entries : list json) : option (list (string * json)) :=
  match entries with
  | [] => None
  | JObj fields :: rest =>
      if decide (url ∈ Generate.entry_urls fields) then Some fields
      else first_mention url rest
  | _ :: rest => first_mention url rest
  end.

(** what [clone_plugin] makes of a plan whose target exists *)
Definition skip_existing (root : string) (w : World) (plan : PluginPlan) : PluginPlan :=
  match slug plan with
  | Some target =>
      with_status plan skipped (Some MsgDirectoryExists)
        (find_requirement_files root target (fs w !! target))
  | None => plan
  end.

(** a plan with a URL and a slug whose target exists in [w] *)
Definition target_exists (w : World) (plan : PluginPlan) : Prop :=
  exists url target, repo_url plan = Some url /\ slug plan = Some target /\
                     is_Some (fs w !! target).

(** [c] does not end a line *)
Definition no_break (c : ascii) : bool := negb (is_break c).

End Shape.

(** * Properties *)

(** ** Strings *)

Section strings.
Import Shape.

Lemma app_nil_str s : "" +:+ s = s.
Proof. reflexivity. Qed.

Lemma app_cons_str c s1 s2 : String c s1 +:+ s2 = String c (s1 +:+ s2).
Proof. reflexivity. Qed.

Lemma app_empty_r s : s +:+ "" = s.
Proof. induction s as [|c s IH]; [done|]. by rewrite app_cons_str, IH. Qed.

Lemma app_assoc_str s1 s2 s3 : (s1 +:+ s2) +:+ s3 = s1 +:+ s2 +:+ s3.
Proof. induction s1 as [|c s1 IH]; [done|]. by rewrite !app_cons_str, IH. Qed.

Lemma rev_app_app s1 : forall s2 s3,
  String.rev_app s1 (s2 +:+ s3) = String.rev_app s1 s2 +:+ s3.
Proof.
  induction s1 as [|c s1 IH]; intros s2 s3; [done|].
  cbn [String.rev_app]. by rewrite <- IH, app_cons_str.
Qed.

Lemma rev_cons c s : String.rev (String c s) = String.rev s +:+ String c "".
Proof.
  unfold String.rev. cbn [String.rev_app].
  by rewrite <- rev_app_app, app_nil_str.
Qed.

Lemma rev_app_distr s1 s2 : String.rev (s1 +:+ s2) = String.rev s2 +:+ String.rev s1.
Proof.
  induction s1 as [|c s1 IH].
  - by rewrite app_nil_str, app_empty_r.
  - by rewrite app_cons_str, !rev_cons, IH, app_assoc_str.
Qed.

Lemma rev_involutive s : String.rev (String.rev s) = s.
Proof.
  induction s as [|c s IH]; [done|].
  by rewrite rev_cons, rev_app_distr, IH.
Qed.

Lemma all_chars_app p s1 s2 :
  all_chars p (s1 +:+ s2) = all_chars p s1 && all_chars p s2.
Proof.
  induction s1 as [|c s1 IH]; [done|].
  rewrite app_cons_str. cbn [all_chars]. by rewrite IH, andb_assoc.
Qed.

Lemma all_chars_rev p s : all_chars p (String.rev s) = all_chars p s.
Proof.
  induction s as [|c s IH]; [done|].
  rewrite rev_cons, all_chars_app, IH. cbn [all_chars].
  by rewrite andb_true_r, andb_comm.
Qed.

Lemma all_chars_impl (p q : ascii -> bool) s :
  (forall c, p c = true -> q c = true) -> all_chars p s = true -> all_chars q s = true.
Proof.
  intros Hpq. induction s as [|c s IH]; simpl; [done|].
  intros [Hc Hs]%andb_true_iff. by rewrite (Hpq c Hc), (IH Hs).
Qed.

Lemma lstrip_by_all p s : all_chars p s = true -> PyStr.lstrip_by p s = "".
Proof.
  induction s as [|c s IH]; [done|]. cbn [all_chars PyStr.lstrip_by].
  intros [-> Hs]%andb_true_iff. by apply IH.
Qed.

Lemma lstrip_by_app p s1 s2 :
  PyStr.lstrip_by p (s1 +:+ s2)
  = if all_chars p s1 then PyStr.lstrip_by p s2 else PyStr.lstrip_by p s1 +:+ s2.
Proof.
  induction s1 as [|c s1 IH]; [done|].
  rewrite app_cons_str. cbn [all_chars PyStr.lstrip_by].
  destruct (p c); [apply IH|done].
Qed.

Lemma lstrip_by_idem p s : PyStr.lstrip_by p (PyStr.lstrip_by p s) = PyStr.lstrip_by p s.
Proof.
  induction s as [|c s IH]; [done|]. cbn [PyStr.lstrip_by].
  destruct (p c) eqn:E; [done|]. cbn [PyStr.lstrip_by]. by rewrite E.
Qed.

Lemma rstrip_by_idem p s : PyStr.rstrip_by p (PyStr.rstrip_by p s) = PyStr.rstrip_by p s.
Proof. unfold PyStr.rstrip_by. by rewrite rev_involutive, lstrip_by_idem. Qed.

(** stripping on the right leaves a first character outside the class alone *)
Lemma rstrip_by_cons p c s :
  p c = false -> PyStr.rstrip_by p (String c s) = String c (PyStr.rstrip_by p s).
Proof.
  intros Hc. unfold PyStr.rstrip_by. rewrite rev_cons, lstrip_by_app.
  destruct (all_chars p (String.rev s)) eqn:E.
  - rewrite (lstrip_by_all _ _ E). cbn [PyStr.lstrip_by]. by rewrite Hc.
  - by rewrite rev_app_distr.
Qed.

Lemma strip_by_idem p s : PyStr.strip_by p (PyStr.strip_by p s) = PyStr.strip_by p s.
Proof.
  unfold PyStr.strip_by.
  destruct (PyStr.lstrip_by p s) as [|c t] eqn:E; [done|].
  assert (p c = false) as Hc.
  { revert E. clear. induction s as [|d s IH]; [done|]. cbn [PyStr.lstrip_by].
    destruct (p d) eqn:Ed; [done|]. intros ?; by simplify_eq. }
  rewrite !(rstrip_by_cons _ _ _ Hc). cbn [PyStr.lstrip_by]. rewrite Hc.
  by rewrite (rstrip_by_cons _ _ _ Hc), rstrip_by_idem.
Qed.

Lemma all_chars_lstrip_by q p s :
  all_chars q s = true -> all_chars q (PyStr.lstrip_by p s) = true.
Proof.
  induction s as [|c s IH]; [done|]. cbn [all_chars PyStr.lstrip_by].
  intros [Hc Hs]%andb_true_iff. destruct (p c); [by apply IH|].
  cbn [all_chars]. by rewrite Hc, Hs.
Qed.

Lemma all_chars_strip_by q p s :
  all_chars q s = true -> all_chars q (PyStr.strip_by p s) = true.
Proof.
  intros H. unfold PyStr.strip_by, PyStr.rstrip_by.
  rewrite all_chars_rev. apply all_chars_lstrip_by. rewrite all_chars_rev.
  by apply all_chars_lstrip_by.
Qed.

Lemma has_char_app c s t :
  PyStr.has_char c (s +:+ t) = PyStr.has_char c s || PyStr.has_char c t.
Proof.
  induction s as [|d s IH]; [done|].
  rewrite app_cons_str. cbn [PyStr.has_char]. by rewrite IH, orb_assoc.
Qed.

Lemma has_char_all_other c p s :
  p c = false -> all_chars p s = true -> PyStr.has_char c s = false.
Proof.
  intros Hc. induction s as [|d s IH]; [done|]. cbn [all_chars PyStr.has_char].
  intros [Hd Hs]%andb_true_iff. rewrite (IH Hs), orb_false_r.
  unfold PyStr.is_char. apply bool_decide_eq_false. intros ->. congruence.
Qed.

Lemma startswith_cons a p c s : PyStr.startswith (String a p) (String c s) = true -> a = c.
Proof. unfold PyStr.startswith. simpl. by destruct (ascii_dec a c). Qed.

Lemma map_elem_of {A B} (f : A -> B) (l : list A) y :
  y ∈ map f l <-> exists x, y = f x /\ x ∈ l.
Proof.
  induction l as [|a l IH]; simpl.
  - rewrite elem_of_nil. split; [done|]. intros (x & _ & H). by apply elem_of_nil in H.
  - rewrite elem_of_cons, IH. split.
    + intros [->|(x & -> & Hx)]; [exists a|exists x]; rewrite elem_of_cons; auto.
    + intros (x & -> & [->|Hx]%elem_of_cons); eauto.
Qed.

End strings.

(** ** Slugs *)

Section slugs.
Import Apply.

Lemma suffixed_inj slug i j : suffixed slug i = suffixed slug j -> i = j.
Proof.
  unfold suffixed. intros H.
  by apply (inj pretty), (inj (String.app "-")), (inj (String.app slug)).
Qed.

(** The loop finds a candidate as soon as it has more rounds than the set
    [T] of names it can collide with has members. *)
Lemma unique_loop_total fuel : forall slug existing idx (T : gset string),
  size T < fuel ->
  (forall j, idx <= j -> suffixed slug j ∈ existing -> suffixed slug j ∈ T) ->
  is_Some (unique_loop fuel slug existing idx).
Proof.
  induction fuel as [|fuel IH]; intros slug existing idx T Hsize Hsub; [lia|].
  simpl. destruct (decide (suffixed slug idx ∈ existing)) as [Hin|Hout]; [|eauto].
  apply (IH slug existing (S idx) (T ∖ {[suffixed slug idx]})).
  - assert (suffixed slug idx ∈ T) as HT by (apply Hsub; [lia|done]).
    apply singleton_subseteq_l in HT.
    pose proof (subseteq_size _ _ HT) as Hle.
    rewrite (size_difference _ _ HT). rewrite size_singleton in *. lia.
  - intros j Hj Hjin. apply elem_of_difference. split; [apply Hsub; [lia|done]|].
    rewrite elem_of_singleton. intros Heq%suffixed_inj. lia.
Qed.

(** What the loop returns: the first index from [idx] on whose candidate
    is free, and [existing] with that candidate added. *)
Lemma unique_loop_first_free fuel : forall slug existing idx c e',
  unique_loop fuel slug existing idx = Some (c, e') ->
  exists k, idx <= k /\ c = suffixed slug k /\ (c ∉ existing) /\ e' = ({[c]} ∪ existing) /\
            forall j, idx <= j < k -> suffixed slug j ∈ existing.
Proof.
  induction fuel as [|fuel IH]; intros slug existing idx c e' H; [done|].
  simpl in H. destruct (decide (suffixed slug idx ∈ existing)) as [Hin|Hout].
  - apply IH in H as (k & Hk & -> & Hfree & -> & Hbelow).
    exists k. split; [lia|]. do 3 (split; [done|]).
    intros j Hj. destruct (decide (j = idx)) as [->|]; [done|]. apply Hbelow. lia.
  - simplify_eq. exists idx. do 4 (split; [done|]). intros j Hj. lia.
Qed.

Lemma ensure_unique_slug_total slug existing :
  is_Some (ensure_unique_slug slug existing).
Proof.
  unfold ensure_unique_slug. destruct (decide (slug ∈ existing)); [|eauto].
  apply (unique_loop_total _ _ _ _ existing); [lia|done].
Qed.

Lemma ensure_unique_slug_fresh slug existing c e' :
  ensure_unique_slug slug existing = Some (c, e') ->
  (c ∉ existing) /\ e' = ({[c]} ∪ existing).
Proof.
  unfold ensure_unique_slug. destruct (decide (slug ∈ existing)).
  - intros (k & _ & _ & ? & ? & _)%unique_loop_first_free. done.
  - intros ?; by simplify_eq.
Qed.

End slugs.

(** ** Plans *)

Section plans.
Import Apply.

Lemma normalize_git_url_truthy candidate url :
  normalize_git_url candidate = Some url -> PyStr.truthy url = true.
Proof.
  destruct candidate as [c|]; [|done]. unfold normalize_git_url.
  destruct (negb (PyStr.truthy c)); [done|].
  destruct (negb (PyStr.truthy (PyStr.strip c))); [done|].
  destruct (PyStr.startswith "git+" (PyStr.strip c)).
  - destruct (PyStr.drop 4 (PyStr.strip c)) eqn:E; [done|].
    case_match; [|done]. intros ?; by simplify_eq.
  - destruct (PyStr.strip c) eqn:E; [done|].
    case_match; [|done]. intros ?; by simplify_eq.
Qed.

(** the loop over the metadata keys stops at the first key that normalizes *)
Lemma metadata_loop_first metadata keys :
  forall r0, r0 = None ->
  (metadata_loop metadata keys r0).1 = Spec.first_normalizing metadata keys.
Proof.
  induction keys as [|key keys IH]; intros r0 ->; [done|].
  simpl. destruct (normalize_git_url (str_or_none (Dict.get key metadata))) as [u|] eqn:E.
  - simpl. by rewrite (normalize_git_url_truthy _ _ E).
  - simpl. by apply IH.
Qed.

Lemma derive_repo_metadata_first entry :
  (derive_repo entry).1 = Spec.metadata_first_url entry.
Proof.
  unfold derive_repo, Spec.metadata_first_url, Spec.metadata_url.
  destruct (group_metadata entry) as [metadata|].
  - rewrite <- (metadata_loop_first metadata metadata_keys None eq_refl).
    by destruct (metadata_loop metadata metadata_keys None) as [[u|] reason].
  - done.
Qed.

Lemma derive_repo_truthy entry url :
  (derive_repo entry).1 = Some url -> PyStr.truthy url = true.
Proof.
  rewrite derive_repo_metadata_first. unfold Spec.metadata_first_url, Spec.metadata_url.
  destruct (group_metadata entry) as [metadata|].
  - destruct (Spec.first_normalizing metadata metadata_keys) as [u|] eqn:E.
    + intros ?; simplify_eq. revert E. generalize metadata_keys.
      intros keys. induction keys as [|k keys IH]; [done|]. simpl.
      destruct (normalize_git_url _) eqn:E'; [|done].
      intros ?; simplify_eq. by eapply normalize_git_url_truthy.
    + apply normalize_git_url_truthy.
  - apply normalize_git_url_truthy.
Qed.

(** one round of the planning loop always ends, with the URL [derive_repo]
    found and a slug that is the first free one *)
Lemma plan_entry_spec entry used :
  exists plan used',
    plan_entry entry used = Some (plan, used') /\
    repo_url plan = (derive_repo entry).1 /\
    match repo_url plan with
    | None => slug plan = None /\ used' = used
    | Some url => exists s, slug plan = Some s /\ Spec.first_free (base_slug url) used s /\
                            used' = ({[s]} ∪ used)
    end.
Proof.
  unfold plan_entry. pose proof (derive_repo_truthy entry) as Htruthy.
  destruct (derive_repo entry) as [[url|] reason]; simpl in *.
  - rewrite (Htruthy url eq_refl). unfold derive_slug.
    destruct (ensure_unique_slug_total (base_slug url) used) as [[s used'] Hs].
    rewrite Hs. simpl. eexists _, _. split; [done|]. simpl. split; [done|].
    exists s. split; [done|]. revert Hs. unfold ensure_unique_slug.
    destruct (decide (base_slug url ∈ used)) as [Hin|Hout].
    + intros (k & Hk & -> & Hfree & -> & Hbelow)%unique_loop_first_free.
      split; [|done]. right. split; [done|]. exists k. done.
    + intros ?; simplify_eq. split; [|done]. by left.
  - eexists _, _. split; [done|]. done.
Qed.

Lemma plan_loop_spec entries : forall used,
  exists plans,
    plan_loop entries used = Some plans /\
    map repo_url plans = map (fun e => (derive_repo e).1) entries /\
    Spec.slugs_first_free used plans.
Proof.
  induction entries as [|entry entries IH]; intros used; simpl.
  - by exists [].
  - destruct (plan_entry_spec entry used) as (plan & used' & -> & Hurl & Hslug). simpl.
    destruct (IH used') as (plans & -> & Hurls & Hok). simpl.
    exists (plan :: plans). split; [done|]. simpl. split; [by rewrite Hurl, Hurls|].
    destruct (repo_url plan) as [url|].
    + destruct Hslug as (s & ? & ? & ->). eauto.
    + destruct Hslug as [? ->]. done.
Qed.

(** slugs handed out under [slugs_first_free] are new and pairwise distinct *)
Lemma slugs_first_free_NoDup plans : forall used,
  Spec.slugs_first_free used plans ->
  NoDup (omap slug plans) /\ forall s, s ∈ omap slug plans -> s ∉ used.
Proof.
  induction plans as [|plan plans IH]; intros used H; simpl in *.
  - split; [constructor|]. intros s Hs. by apply elem_of_nil in Hs.
  - destruct (repo_url plan) as [url|].
    + destruct H as (s & -> & Hfree & Hrest). simpl.
      destruct (IH _ Hrest) as [Hnd Hnew].
      assert (s ∉ used) as Hs.
      { destruct Hfree as [[? ->]|[_ (k & _ & _ & ? & _)]]; done. }
      split.
      * constructor; [|done]. intros Hin. apply Hnew in Hin.
        apply Hin, elem_of_union. left. by apply elem_of_singleton.
      * intros s' [->|Hin]%elem_of_cons; [done|]. apply Hnew in Hin.
        intros Hu. apply Hin, elem_of_union. by right.
    + destruct H as [-> Hrest]. simpl. by apply IH.
Qed.

(** C1, as the code has it: the Plan Builder makes one plan per plugin
    group, in order, and the plan's repository URL is the first metadata
    value, among the keys repo, repository, github, git, url, homepage in
    that order, that is a string and normalizes; only when no key gives a
    URL is the plugin id normalized, and when that fails too the plan
    carries no URL.  Normalization trims the candidate, strips a leading
    [git+], and accepts the rest only if, lowercased, it starts with
    [http://], [https://] or [ssh://], or if an [@] comes before its first
    slash. *)
Theorem C1_repo_url_metadata_then_id (deps : Deps) :
  (exists plans,
     plan_plugins deps = Some (plans, deps_unresolved_nodes deps) /\
     map repo_url plans = map Spec.metadata_first_url (deps_plugins deps)) /\
  (forall candidate url,
     normalize_git_url (Some candidate) = Some url <->
     let trimmed := PyStr.strip candidate in
     url = (if PyStr.startswith "git+" trimmed then PyStr.drop 4 trimmed else trimmed) /\
     trimmed <> "" /\
     (PyStr.startswith_any ["http://"; "https://"; "ssh://"] (PyStr.lower url)
      || PyStr.has_char "@" (PyStr.before_first "/" url)) = true).
Proof.
  split.
  - unfold plan_plugins.
    destruct (plan_loop_spec (deps_plugins deps) ∅) as (plans & -> & Hurls & _).
    exists plans. split; [done|]. rewrite Hurls.
    apply map_ext. intros e. apply derive_repo_metadata_first.
  - intros candidate url. unfold normalize_git_url. simpl.
    destruct candidate as [|c candidate'] eqn:Ec.
    { simpl. split; [done|]. intros (_ & Hne & _). by destruct Hne. }
    rewrite <- Ec. assert (PyStr.truthy candidate = true) as -> by (by rewrite Ec).
    simpl. destruct (PyStr.strip candidate) as [|t trimmed] eqn:Et.
    { simpl. split; [done|]. intros (_ & Hne & _). by destruct Hne. }
    rewrite <- Et. assert (PyStr.truthy (PyStr.strip candidate) = true) as -> by (by rewrite Et).
    simpl. set (u := if PyStr.startswith "git+" (PyStr.strip candidate) then _ else _).
    destruct (_ || _) eqn:Eacc.
    + split.
      * intros ?; simplify_eq. split; [done|]. split; [by rewrite Et|done].
      * intros (-> & _ & _). done.
    + split; [done|]. intros (-> & _ & Hacc). fold u in Hacc. congruence.
Qed.

(** C1, as the specification words it, fails: a group whose id and whose
    [repo] metadata both normalize gets the metadata URL, not the id. *)
Lemma C1_id_first_counterexample :
  let entry := {| group_id := "https://example.com/from-id";
                  group_nodes := ["NodeA"];
                  group_metadata := Some [("repo", JStr "https://example.com/from-meta")] |} in
  let deps := {| deps_plugins := [entry]; deps_unresolved_nodes := [] |} in
  normalize_git_url (Some (group_id entry)) = Some "https://example.com/from-id" /\
  (map repo_url <$> (fst <$> plan_plugins deps)) = Some [Some "https://example.com/from-meta"] /\
  (map repo_url <$> (fst <$> plan_plugins deps)) <> Some (map Spec.id_first_url (deps_plugins deps)).
Proof. vm_compute. split; [done|]. split; [done|]. intros H. discriminate H. Qed.

(** C7, as the code has it: planning always ends; a plan has a slug
    exactly when it has a repository URL; the slugs of one run are pairwise
    distinct; and the slug of a plan is the base slug of its URL when no
    earlier plan of the run holds it, and else the base slug with [-k]
    appended, [k] being the least number from 2 on for which that name is
    not held by an earlier plan. *)
Theorem C7_slugs_unique_first_free (deps : Deps) :
  exists plans,
    plan_plugins deps = Some (plans, deps_unresolved_nodes deps) /\
    Forall (fun plan => is_Some (repo_url plan) <-> is_Some (slug plan)) plans /\
    NoDup (omap slug plans) /\
    Spec.slugs_first_free ∅ plans.
Proof.
  unfold plan_plugins.
  destruct (plan_loop_spec (deps_plugins deps) ∅) as (plans & -> & _ & Hok).
  exists plans. split; [done|]. split; [|split; [|done]].
  - revert Hok. generalize (∅ : gset string).
    induction plans as [|plan plans IH]; intros used Hok; [constructor|].
    simpl in Hok. destruct (repo_url plan) as [url|] eqn:Eurl.
    + destruct Hok as (s & Hs & _ & Hrest). constructor; [|by eapply IH].
      rewrite Eurl, Hs. split; eauto.
    + destruct Hok as [Hs Hrest]. constructor; [|by eapply IH].
      rewrite Eurl, Hs. split; intros [? ?]; done.
  - by apply (slugs_first_free_NoDup plans ∅).
Qed.

(** C7, as the specification words it, fails: when an earlier plugin's own
    base slug is [a-2], the second plugin with base slug [a] gets [a-3]. *)
Lemma C7_second_collision_counterexample :
  let group id := {| group_id := id; group_nodes := []; group_metadata := None |} in
  let urls := ["https://example.com/a"; "https://example.com/a-2"; "https://example.org/a"] in
  let deps := {| deps_plugins := map group urls; deps_unresolved_nodes := [] |} in
  map base_slug urls = ["a"; "a-2"; "a"] /\
  (map slug <$> (fst <$> plan_plugins deps)) = Some [Some "a"; Some "a-2"; Some "a-3"] /\
  (map slug <$> (fst <$> plan_plugins deps))
    <> Some (map Some (Spec.slug_by_encounter [] (map base_slug urls))).
Proof. vm_compute. split; [done|]. split; [done|]. intros H. discriminate H. Qed.

End plans.

(** ** Requirement aggregation *)

Section aggregation.
Import Apply Spec Shape.

(** what one round of the loop does to the output and to the sets *)
Lemma collect_line_step collected current line :
  match parse_requirement_line line with
  | None => collect_line (collected, current) line = (collected, current)
  | Some e =>
      (collect_line (collected, current) line).1
        = (collected ++ if is_covered current (dedup_id e) then [] else [original e])%list /\
      forall id, is_covered (collect_line (collected, current) line).2 id = true <->
                 is_covered current id = true \/ dedup_id e = id
  end.
Proof.
  unfold collect_line. destruct (parse_requirement_line line) as [e|]; [|done].
  unfold dedup_id, is_covered.
  destruct (kind e); simpl; case_decide as Hin; simpl.
  all: rewrite ?(bool_decide_eq_true_2 _ Hin), ?(bool_decide_eq_false_2 _ Hin).
  all: split; [by rewrite ?app_nil_r|].
  all: intros [[] x]; simpl.
  all: rewrite ?bool_decide_eq_true, ?elem_of_union, ?elem_of_singleton.
  all: split; [intros H|intros [H|H]]; simplify_eq; auto.
  all: destruct H as [->|H]; auto.
Qed.

Lemma collect_fold known lines :
  forall id,
    is_covered (fold_left collect_line lines ([], known)).2 id = true <->
    is_covered known id = true \/ id ∈ dedup_ids lines.
Proof.
  induction lines as [|line lines IH] using rev_ind; intros id.
  - simpl. split; [by left|]. intros [?|H]; [done|]. by apply elem_of_nil in H.
  - rewrite fold_left_app. cbn [fold_left].
    destruct (fold_left collect_line lines ([], known)) as [collected current] eqn:Est.
    cbn [snd] in IH. pose proof (collect_line_step collected current line) as Hstep.
    set (st' := collect_line (collected, current) line) in *.
    unfold dedup_ids. rewrite omap_app, map_app, elem_of_app. simpl.
    destruct (parse_requirement_line line) as [e|].
    + destruct Hstep as [_ Hcov]. rewrite Hcov, IH. simpl.
      rewrite list_elem_of_singleton. unfold dedup_ids. intuition (subst; auto).
    + rewrite Hstep. simpl. rewrite IH. unfold dedup_ids. split; [tauto|].
      intros [?|[?|H]]; auto. by apply elem_of_nil in H.
Qed.

(** the output grows by exactly what [emitted] says *)
Lemma collect_lines_snoc known lines line :
  collect_lines known (lines ++ [line]) = (collect_lines known lines ++ emitted known lines line)%list.
Proof.
  unfold collect_lines, emitted. rewrite fold_left_app. cbn [fold_left].
  pose proof (collect_fold known lines) as Hcov.
  destruct (fold_left collect_line lines ([], known)) as [collected current].
  pose proof (collect_line_step collected current line) as Hstep.
  set (st' := collect_line (collected, current) line) in *.
  destruct (parse_requirement_line line) as [e|].
  - destruct Hstep as [-> _]. simpl. f_equal.
    specialize (Hcov (dedup_id e)). simpl in Hcov.
    destruct (is_covered current (dedup_id e)).
    + destruct (proj1 Hcov eq_refl) as [->|Hin]; [done|].
      by rewrite (bool_decide_eq_true_2 _ Hin), orb_true_r.
    + destruct (is_covered known (dedup_id e)) eqn:Ek.
      { exfalso. assert (false = true) by (apply Hcov; by left). done. }
      case_bool_decide as Hin; [|done].
      exfalso. assert (false = true) by (apply Hcov; by right). done.
  - rewrite Hstep. simpl. by rewrite app_nil_r.
Qed.

Lemma note_known_covered acc line :
  forall id, is_covered (note_known acc line) id = true <->
             is_covered acc id = true \/
             exists e, parse_requirement_line line = Some e /\ kind e <> other /\ dedup_id e = id.
Proof.
  intros [pool x]. unfold note_known, dedup_id, is_covered.
  destruct (parse_requirement_line line) as [e|]; simpl.
  2: { split; [by left|]. intros [?|(e & ? & _)]; done. }
  destruct (kind e) eqn:Ek; destruct pool; simpl.
  all: rewrite ?bool_decide_eq_true, ?elem_of_union, ?elem_of_singleton.
  all: split; [intros H|intros [H|(e' & ? & Hk & H)]]; simplify_eq; auto.
  all: try (destruct H as [->|H]; [right; exists e; rewrite Ek; by repeat split|by left]).
  all: rewrite Ek in *; simplify_eq; auto.
Qed.

Lemma fold_note_known_covered lines : forall acc id,
  is_covered (fold_left note_known lines acc) id = true <->
  is_covered acc id = true \/
  exists e, e ∈ omap parse_requirement_line lines /\ kind e <> other /\ dedup_id e = id.
Proof.
  induction lines as [|line lines IH]; intros acc id; simpl.
  - split; [by left|]. intros [?|(e & H & _)]; [done|]. by apply elem_of_nil in H.
  - rewrite IH, note_known_covered. split.
    + intros [[?|(e & Hp & ? & ?)]|(e & Hin & ? & ?)]; [by left|right; exists e..].
      * rewrite Hp. split; [apply elem_of_cons; by left|done].
      * split; [|done]. destruct (parse_requirement_line line); [apply elem_of_cons; by right|done].
    + intros [?|(e & Hin & ? & ?)]; [by left; left|].
      destruct (parse_requirement_line line) as [e0|] eqn:Ep.
      * apply elem_of_cons in Hin as [->|Hin]; [left; right; by exists e0|right; by exists e].
      * right. by exists e.
Qed.

Lemma load_known_requirements_fold paths : forall acc,
  fold_left
    (fun acc path =>
       match path with
       | Text content => fold_left note_known (splitlines content) acc
       | Absent | Unreadable => acc
       end) paths acc
  = fold_left note_known (baseline_lines paths) acc.
Proof.
  induction paths as [|path paths IH]; intros acc; [done|].
  unfold baseline_lines. simpl. rewrite fold_left_app, IH. by destruct path.
Qed.

(** the characters of a package key are fixed by the two folds *)
Lemma fold_char_idem c :
  let k := PyStr.lower_char (if PyStr.is_char "_" c then "-"%char else c) in
  PyStr.lower_char (if PyStr.is_char "_" k then "-"%char else k) = k.
Proof. destruct c as [[] [] [] [] [] [] [] []]; vm_compute; reflexivity. Qed.

Lemma fold_key_idem base :
  let k := PyStr.lower (PyStr.replace_char "_" "-" base) in
  PyStr.lower (PyStr.replace_char "_" "-" k) = k.
Proof.
  induction base as [|c base IH]; [done|]. simpl in *.
  f_equal; [apply fold_char_idem|apply IH].
Qed.

Lemma alnum_first c :
  alnum c = true ->
  c <> "#"%char /\ PyStr.lower_char c <> "-"%char /\ PyStr.is_space c = false.
Proof. destruct c as [[] [] [] [] [] [] [] []]; vm_compute; intros; try done. Qed.

Lemma span_app p name rest :
  all_chars p name = true ->
  match rest with "" => True | String c _ => p c = false end ->
  span p (name +:+ rest) = (name, rest).
Proof.
  intros Hname Hrest. induction name as [|c name IH].
  - rewrite app_nil_str. destruct rest as [|c rest]; [done|]. simpl. by rewrite Hrest.
  - cbn [all_chars] in Hname. apply andb_true_iff in Hname as [Hc Hname].
    rewrite app_cons_str. cbn [span]. by rewrite Hc, (IH Hname).
Qed.

(** the line of a package: its kind, and its key, the name lowercased with
    underscores folded to hyphens *)
Lemma parse_package_line line name rest :
  PyStr.strip line = name +:+ rest -> package_line name rest ->
  parse_requirement_line line
  = Some {| original := name +:+ rest; kind := package;
            key := PyStr.lower (PyStr.replace_char "_" "-" name) |}.
Proof.
  intros Hstrip ((c & name' & -> & Hc) & Hname & Hrest & Hat & Hgit).
  destruct (alnum_first c Hc) as (Hhash & Hdash & Hspace).
  unfold parse_requirement_line. rewrite Hstrip. cbn zeta.
  rewrite Hgit. rewrite app_cons_str in *.
  assert (PyStr.startswith "#" (String c (name' +:+ rest)) = false) as ->.
  { destruct (PyStr.startswith _ _) eqn:E; [|done]. apply startswith_cons in E. congruence. }
  assert (forall ps, Forall (fun p => exists p', p = String "-" p') ps ->
            PyStr.startswith_any ps (PyStr.lower (String c (name' +:+ rest))) = false) as Hany.
  { intros ps Hps. unfold PyStr.startswith_any. cbn [PyStr.lower].
    induction Hps as [|p ps (p' & ->) _ IH]; [done|].
    cbn [existsb]. rewrite IH, orb_false_r.
    destruct (PyStr.startswith _ _) eqn:E; [|done]. apply startswith_cons in E. congruence. }
  rewrite !Hany by (repeat constructor; by eexists).
  cbn [PyStr.truthy negb orb].
  assert (PyStr.has_char "@" (String c (name' +:+ rest)) = false) as ->.
  { rewrite <- app_cons_str, has_char_app, Hat, orb_false_r.
    by apply (has_char_all_other _ name_char). }
  unfold req_pattern_match. cbn [PyStr.lstrip_by]. rewrite Hspace.
  rewrite <- app_cons_str, (span_app name_char (String c name') rest Hname).
  2: { destruct rest; [done|]. apply Hrest. }
  cbn [PyStr.truthy]. destruct rest as [|d rest]; [done|].
  destruct Hrest as [_ Hd]. unfold PyStr.is_char.
  rewrite bool_decide_eq_false_2; [done|]. intros Heq. by apply Hd.
Qed.

Lemma parse_vcs_line line :
  let s := PyStr.strip line in
  PyStr.startswith "#" s = false ->
  PyStr.startswith_any ["-r "; "--requirement"; "--requirements"; "-c "; "--constraint"]
    (PyStr.lower s) = false ->
  PyStr.contains "git+" (PyStr.lower s) = true \/
    PyStr.startswith_any ["-e "; "--editable"] (PyStr.lower s) = true ->
  parse_requirement_line line = Some {| original := s; kind := vcs; key := PyStr.lower s |}.
Proof.
  intros s Hhash Hdir Hvcs. unfold parse_requirement_line. fold s. cbn zeta.
  rewrite Hhash, Hdir. destruct s; [by destruct Hvcs|].
  cbn [PyStr.truthy negb orb]. destruct Hvcs as [-> | ->]; [done|by rewrite orb_true_r].
Qed.

Lemma parse_skipped_line line :
  let s := PyStr.strip line in
  s = "" \/ PyStr.startswith "#" s = true \/
  PyStr.startswith_any ["-r "; "--requirement"; "--requirements"; "-c "; "--constraint"]
    (PyStr.lower s) = true ->
  parse_requirement_line line = None.
Proof.
  intros s H. unfold parse_requirement_line. fold s. cbn zeta.
  destruct H as [-> |[-> | ->]]; [done|by rewrite orb_true_r|].
  by destruct (negb _ || _).
Qed.

Lemma parse_reference_line line :
  let s := PyStr.strip line in
  s <> "" -> PyStr.startswith "#" s = false ->
  PyStr.startswith_any ["-r "; "--requirement"; "--requirements"; "-c "; "--constraint"]
    (PyStr.lower s) = false ->
  PyStr.contains "git+" (PyStr.lower s) = false ->
  PyStr.startswith_any ["-e "; "--editable"] (PyStr.lower s) = false ->
  PyStr.has_char "@" s = true ->
  parse_requirement_line line
  = Some {| original := s; kind := package;
            key := PyStr.lower (PyStr.replace_char "_" "-"
                                  (PyStr.strip (PyStr.before_first "@" s))) |}.
Proof.
  intros s Hne Hhash Hdir Hgit Hed Hat. unfold parse_requirement_line. fold s. cbn zeta.
  rewrite Hhash, Hdir, Hgit, Hed, Hat. by destruct s.
Qed.

Lemma other_first c :
  name_char c = false -> PyStr.lower_char c <> "-"%char.
Proof. destruct c as [[] [] [] [] [] [] [] []]; vm_compute; intros; done. Qed.

Lemma parse_other_line line c rest :
  PyStr.strip line = String c rest ->
  PyStr.is_space c = false -> name_char c = false -> c <> "#"%char ->
  PyStr.has_char "@" (String c rest) = false ->
  PyStr.contains "git+" (PyStr.lower (String c rest)) = false ->
  parse_requirement_line line
  = Some {| original := String c rest; kind := other; key := PyStr.lower (String c rest) |}.
Proof.
  intros Hstrip Hspace Hname Hhash Hat Hgit.
  pose proof (other_first c Hname) as Hdash.
  unfold parse_requirement_line. rewrite Hstrip. cbn zeta. rewrite Hgit, Hat.
  assert (PyStr.startswith "#" (String c rest) = false) as ->.
  { destruct (PyStr.startswith _ _) eqn:E; [|done]. apply startswith_cons in E. congruence. }
  assert (forall ps, Forall (fun p => exists p', p = String "-" p') ps ->
            PyStr.startswith_any ps (PyStr.lower (String c rest)) = false) as Hany.
  { intros ps Hps. unfold PyStr.startswith_any. cbn [PyStr.lower].
    induction Hps as [|p ps (p' & ->) _ IH]; [done|].
    cbn [existsb]. rewrite IH, orb_false_r.
    destruct (PyStr.startswith _ _) eqn:E; [|done]. apply startswith_cons in E. congruence. }
  rewrite !Hany by (repeat constructor; by eexists).
  cbn [PyStr.truthy negb orb].
  unfold req_pattern_match. cbn [PyStr.lstrip_by]. rewrite Hspace.
  cbn [span]. by rewrite Hname.
Qed.

Lemma load_known_requirements_covered paths id :
  is_covered (load_known_requirements paths) id = true <->
  exists e, e ∈ omap parse_requirement_line (baseline_lines paths) /\
            kind e <> other /\ dedup_id e = id.
Proof.
  unfold load_known_requirements.
  rewrite load_known_requirements_fold, fold_note_known_covered.
  split; [intros [H|H]; [|done]|by right].
  destruct id as [[] x]; unfold is_covered in H; simpl in H;
    apply bool_decide_eq_true in H; by apply not_elem_of_empty in H.
Qed.

(** a package line is dropped when a package line of the baseline, or an
    earlier one, has the same name up to case and to [_] for [-] *)
Lemma emitted_package_dropped paths lines line name rest line0 name0 rest0 :
  PyStr.strip line = name +:+ rest -> package_line name rest ->
  PyStr.strip line0 = name0 +:+ rest0 -> package_line name0 rest0 ->
  PyStr.lower (PyStr.replace_char "_" "-" name0)
    = PyStr.lower (PyStr.replace_char "_" "-" name) ->
  line0 ∈ (baseline_lines paths ++ lines)%list ->
  emitted (load_known_requirements paths) lines line = [].
Proof.
  intros Hs Hp Hs0 Hp0 Hkey Hin. unfold emitted.
  rewrite (parse_package_line line name rest Hs Hp).
  pose proof (parse_package_line line0 name0 rest0 Hs0 Hp0) as Hparse0.
  set (e := {| original := name +:+ rest; kind := package; key := _ |}).
  set (e0 := {| original := name0 +:+ rest0; kind := package; key := _ |}) in Hparse0.
  assert (dedup_id e0 = dedup_id e) as Hid by (unfold dedup_id, e, e0; simpl; by rewrite Hkey).
  apply elem_of_app in Hin as [Hin|Hin].
  - assert (is_covered (load_known_requirements paths) (dedup_id e) = true) as ->; [|done].
    apply load_known_requirements_covered. exists e0. split; [|done].
    apply list_elem_of_omap. by exists line0.
  - assert (dedup_id e ∈ dedup_ids lines) as Hd.
    { rewrite <- Hid. unfold dedup_ids. apply map_elem_of. exists e0. split; [done|].
      apply list_elem_of_omap. by exists line0. }
    by rewrite (bool_decide_eq_true_2 _ Hd), orb_true_r.
Qed.

(** and it is emitted, trimmed, when no line of the baseline and no earlier
    line is a package line with that key *)
Lemma emitted_package_kept paths lines line name rest :
  PyStr.strip line = name +:+ rest -> package_line name rest ->
  (forall l e, l ∈ (baseline_lines paths ++ lines)%list ->
               parse_requirement_line l = Some e -> kind e = package ->
               key e <> PyStr.lower (PyStr.replace_char "_" "-" name)) ->
  emitted (load_known_requirements paths) lines line = [name +:+ rest].
Proof.
  intros Hs Hp Hnone. unfold emitted.
  rewrite (parse_package_line line name rest Hs Hp).
  set (e := {| original := name +:+ rest; kind := package; key := _ |}).
  assert (forall e0, dedup_id e0 = dedup_id e -> kind e0 = package /\ key e0 = key e) as Hsame.
  { intros e0. unfold dedup_id, e. simpl. destruct (kind e0); intros [= ?]; done. }
  destruct (is_covered (load_known_requirements paths) (dedup_id e)) eqn:Ecov.
  { apply load_known_requirements_covered in Ecov as (e0 & (l & Hl & Hparse)%list_elem_of_omap & _ & Hid).
    destruct (Hsame e0 Hid) as [Hk Hkey]. exfalso.
    apply (Hnone l e0); [apply elem_of_app; by left|done|done|done]. }
  case_bool_decide as Hin; [|done].
  unfold dedup_ids in Hin. apply map_elem_of in Hin as (e0 & Hid & (l & Hl & Hparse)%list_elem_of_omap).
  destruct (Hsame e0 (eq_sym Hid)) as [Hk Hkey]. exfalso.
  apply (Hnone l e0); [apply elem_of_app; by right|done|done|done].
Qed.

(** every entry that is gone through is represented in the output, unless
    the sets the loop starts from cover it *)
Lemma collect_lines_complete known lines :
  forall l e, l ∈ lines -> parse_requirement_line l = Some e ->
    is_covered known (dedup_id e) = true \/
    exists l' e', l' ∈ lines /\ parse_requirement_line l' = Some e' /\
                  dedup_id e' = dedup_id e /\ original e' ∈ collect_lines known lines.
Proof.
  induction lines as [|line lines IH] using rev_ind; intros l e Hl Hparse.
  { by apply elem_of_nil in Hl. }
  rewrite collect_lines_snoc.
  assert (forall l0 e0, l0 ∈ lines -> parse_requirement_line l0 = Some e0 ->
            is_covered known (dedup_id e0) = true \/
            exists l' e', l' ∈ (lines ++ [line])%list /\ parse_requirement_line l' = Some e' /\
                          dedup_id e' = dedup_id e0 /\
                          original e' ∈ (collect_lines known lines ++ emitted known lines line)%list)
    as Hold.
  { intros l0 e0 Hl0 Hp0. destruct (IH l0 e0 Hl0 Hp0) as [?|(l' & e' & ? & ? & ? & ?)]; [by left|].
    right. exists l', e'. rewrite !elem_of_app. auto. }
  apply elem_of_app in Hl as [Hl|Hl]; [by apply (Hold l e)|].
  apply list_elem_of_singleton in Hl as ->.
  destruct (is_covered known (dedup_id e)) eqn:Ecov; [by left|].
  destruct (decide (dedup_id e ∈ dedup_ids lines)) as [Hin|Hout].
  - unfold dedup_ids in Hin.
    apply map_elem_of in Hin as (e0 & Hid & (l0 & Hl0 & Hp0)%list_elem_of_omap).
    destruct (Hold l0 e0 Hl0 Hp0) as [Hc|(l' & e' & ? & ? & Hid' & ?)].
    + rewrite <- Hid in Hc. congruence.
    + right. exists l', e'. rewrite Hid', <- Hid. auto.
  - right. exists line, e. split; [apply elem_of_app; right; by apply list_elem_of_singleton|].
    split; [done|]. split; [done|]. unfold emitted. rewrite Hparse, Ecov.
    rewrite (bool_decide_eq_false_2 _ Hout). simpl.
    apply elem_of_app. right. by apply list_elem_of_singleton.
Qed.

(** C3: the scenario of the specification, run through [main] (the
    baseline holds [numpy>=1.0], the cloned plugin's requirements file holds
    [NumPy==1.2] and a [git+] line: only the [git+] line is written), and
    the rules behind it.  Blank lines, comments and include directives give
    no entry.  A line that names a package is of kind package, with its name
    lowercased and underscores folded to hyphens as key; so is a line with
    an [@], the name being what stands before it; a line with [git+] in it,
    or one that starts with an editable flag, is of kind vcs, with the
    lowercased trimmed line as key; a line that starts with no name
    character is of kind other; folding a package key again changes nothing.
    The sets start from the package and vcs keys of the baseline lines, and
    from nothing else of the baseline; the aggregator runs over the
    requirement lines of the plans in order; each line adds its trimmed text
    to the output exactly when it parses, the baseline does not cover its
    dedup id, and no earlier line had that id.  So a package line is dropped
    when a package line of the baseline or an earlier one has the same
    folded name, and is emitted when none has. *)
Theorem C3_first_occurrence_emitted :
  (let tree : gmap string DirEntry :=
     {[ "requirements.txt" :=
          RegularFile (Some ("NumPy==1.2" +:+ PyStr.nl +:+
                             "git+https://example.com/foo.git" +:+ PyStr.nl)) ]} in
   let git := fun (_ _ : string) => GitOk tree in
   let deps := {| deps_plugins := [ {| group_id := "https://example.com/plugin";
                                       group_nodes := ["Node"];
                                       group_metadata := None |} ];
                  deps_unresolved_nodes := [] |} in
   let args := {| arg_deps := DepsLoaded deps; arg_custom_node_root := "custom_nodes";
                  arg_pak3 := Text ("numpy>=1.0" +:+ PyStr.nl); arg_pak7 := Absent |} in
   let w0 := {| fs := ∅; git_calls := []; requirements_output := None;
                summary_output := None |} in
   exists w, main git args w0 = Some (0, w) /\
             requirements_output w = Some ("git+https://example.com/foo.git" +:+ PyStr.nl) /\
             collected_requirements <$> summary_output w
               = Some ["git+https://example.com/foo.git"]) /\
  (forall line,
     PyStr.strip line = "" \/ PyStr.startswith "#" (PyStr.strip line) = true \/
     PyStr.startswith_any ["-r "; "--requirement"; "--requirements"; "-c "; "--constraint"]
       (PyStr.lower (PyStr.strip line)) = true ->
     parse_requirement_line line = None) /\
  (forall line name rest,
     PyStr.strip line = name +:+ rest -> package_line name rest ->
     parse_requirement_line line
     = Some {| original := name +:+ rest; kind := package;
               key := PyStr.lower (PyStr.replace_char "_" "-" name) |}) /\
  (forall line,
     PyStr.strip line <> "" -> PyStr.startswith "#" (PyStr.strip line) = false ->
     PyStr.startswith_any ["-r "; "--requirement"; "--requirements"; "-c "; "--constraint"]
       (PyStr.lower (PyStr.strip line)) = false ->
     PyStr.contains "git+" (PyStr.lower (PyStr.strip line)) = false ->
     PyStr.startswith_any ["-e "; "--editable"] (PyStr.lower (PyStr.strip line)) = false ->
     PyStr.has_char "@" (PyStr.strip line) = true ->
     parse_requirement_line line
     = Some {| original := PyStr.strip line; kind := package;
               key := PyStr.lower (PyStr.replace_char "_" "-"
                        (PyStr.strip (PyStr.before_first "@" (PyStr.strip line)))) |}) /\
  (forall line,
     PyStr.startswith "#" (PyStr.strip line) = false ->
     PyStr.startswith_any ["-r "; "--requirement"; "--requirements"; "-c "; "--constraint"]
       (PyStr.lower (PyStr.strip line)) = false ->
     PyStr.contains "git+" (PyStr.lower (PyStr.strip line)) = true \/
       PyStr.startswith_any ["-e "; "--editable"] (PyStr.lower (PyStr.strip line)) = true ->
     parse_requirement_line line
     = Some {| original := PyStr.strip line; kind := vcs;
               key := PyStr.lower (PyStr.strip line) |}) /\
  (forall line c rest,
     PyStr.strip line = String c rest ->
     PyStr.is_space c = false -> name_char c = false -> c <> "#"%char ->
     PyStr.has_char "@" (String c rest) = false ->
     PyStr.contains "git+" (PyStr.lower (String c rest)) = false ->
     parse_requirement_line line
     = Some {| original := String c rest; kind := other;
               key := PyStr.lower (String c rest) |}) /\
  (forall line e, parse_requirement_line line = Some e -> kind e = package ->
                  PyStr.lower (PyStr.replace_char "_" "-" (key e)) = key e) /\
  (forall paths id,
     is_covered (load_known_requirements paths) id = true <->
     exists e, e ∈ omap parse_requirement_line (baseline_lines paths) /\
               kind e <> other /\ dedup_id e = id) /\
  (forall plans known w,
     (collect_requirements plans known w).1
       = collect_lines known (flat_map (plan_lines w) plans)) /\
  (forall known, collect_lines known [] = []) /\
  (forall known lines line,
     collect_lines known (lines ++ [line])
       = (collect_lines known lines ++ emitted known lines line)%list) /\
  (forall paths lines line name rest line0 name0 rest0,
     PyStr.strip line = name +:+ rest -> package_line name rest ->
     PyStr.strip line0 = name0 +:+ rest0 -> package_line name0 rest0 ->
     PyStr.lower (PyStr.replace_char "_" "-" name0)
       = PyStr.lower (PyStr.replace_char "_" "-" name) ->
     line0 ∈ (baseline_lines paths ++ lines)%list ->
     emitted (load_known_requirements paths) lines line = []) /\
  (forall paths lines line name rest,
     PyStr.strip line = name +:+ rest -> package_line name rest ->
     (forall l e, l ∈ (baseline_lines paths ++ lines)%list ->
                  parse_requirement_line l = Some e -> kind e = package ->
                  key e <> PyStr.lower (PyStr.replace_char "_" "-" name)) ->
     emitted (load_known_requirements paths) lines line = [name +:+ rest]).
Proof.
  split.
  { eexists. vm_compute. split; [reflexivity|]. split; reflexivity. }
  split; [intros line; apply parse_skipped_line|].
  split; [apply parse_package_line|].
  split; [intros line; apply parse_reference_line|].
  split; [intros line; apply parse_vcs_line|].
  split; [apply parse_other_line|].
  split.
  { intros line e. unfold parse_requirement_line.
    repeat (case_match; try done); intros ? Hk; simplify_eq; simpl in *;
      try done; apply fold_key_idem. }
  split; [apply load_known_requirements_covered|].
  split; [done|]. split; [done|].
  split; [apply collect_lines_snoc|].
  split; [apply emitted_package_dropped|apply emitted_package_kept].
Qed.

(** C3, as the specification words it, fails for a line that is neither a
    package nor a vcs line: the baseline keeps no key for it, so the same
    line in a plugin's requirements file is emitted although the baseline
    holds it. *)
Lemma C3_baseline_other_line_counterexample :
  let line := "/opt/wheels/foo.whl" in
  let tree : gmap string DirEntry :=
    {[ "requirements.txt" := RegularFile (Some (line +:+ PyStr.nl)) ]} in
  let git := fun (_ _ : string) => GitOk tree in
  let deps := {| deps_plugins := [ {| group_id := "https://example.com/plugin";
                                      group_nodes := ["Node"];
                                      group_metadata := None |} ];
                 deps_unresolved_nodes := [] |} in
  let paths := [Text (line +:+ PyStr.nl); Absent] in
  let args := {| arg_deps := DepsLoaded deps; arg_custom_node_root := "custom_nodes";
                 arg_pak3 := Text (line +:+ PyStr.nl); arg_pak7 := Absent |} in
  let w0 := {| fs := ∅; git_calls := []; requirements_output := None;
               summary_output := None |} in
  (kind <$> parse_requirement_line line) = Some other /\
  (requirements_output <$> (snd <$> main git args w0)) = Some (Some (line +:+ PyStr.nl)) /\
  baseline_lines paths = [line] /\
  emitted (load_known_requirements paths) [] line = [line] /\
  emitted_as_stated (baseline_lines paths) [] line = [] /\
  emitted (load_known_requirements paths) [] line
    <> emitted_as_stated (baseline_lines paths) [] line.
Proof. vm_compute. repeat split; try reflexivity. intros H. discriminate H. Qed.

End aggregation.

(** ** Materialization *)

Section materialization.
Import Apply Spec.

(** a name of the directory that starts with [requirements] is globbed once *)
Lemma glob_requirements_once (children : gmap string DirEntry) name :
  is_Some (children !! name) ->
  PyStr.startswith "requirements" name = true ->
  NoDup (glob_requirements children) /\ name ∈ glob_requirements children.
Proof.
  intros [entry Hentry] Hprefix. unfold glob_requirements, PyStr.sorted.
  set (names := filter _ _).
  assert (NoDup names /\ name ∈ names) as [Hnd Hin].
  { subst names. split.
    - apply NoDup_filter. apply (NoDup_fst_map_to_list children).
    - apply list_elem_of_filter. split; [done|].
      apply map_elem_of. exists (name, entry). split; [done|].
      by apply elem_of_map_to_list. }
  split.
  - by rewrite merge_sort_Permutation.
  - by rewrite merge_sort_Permutation.
Qed.

(** a regular file named [requirements] is found by the glob and once
    more by the test on [plugin_dir / "requirements"] *)
Lemma find_requirement_files_twice root target (children : gmap string DirEntry) text :
  children !! "requirements" = Some (RegularFile text) ->
  let p := {| path_root := root; path_slug := target; path_name := "requirements" |} in
  exists l1 l2,
    find_requirement_files root target (Some (DirNode children)) = (l1 ++ [p] ++ l2 ++ [p])%list /\
    (p ∉ l1) /\ (p ∉ l2).
Proof.
  intros Hreq p. unfold find_requirement_files.
  rewrite Hreq. simpl.
  destruct (glob_requirements_once children "requirements") as [Hnd Hin]; [by eexists|done|].
  set (files := filter _ (glob_requirements children)).
  assert (NoDup files) as Hnd' by (by apply NoDup_filter).
  assert ("requirements" ∈ files) as Hin'.
  { apply list_elem_of_filter. split; [by rewrite Hreq|done]. }
  apply list_elem_of_split in Hin' as (n1 & n2 & Hsplit).
  rewrite Hsplit in Hnd'. apply NoDup_app in Hnd' as (_ & Hn1 & Hn2).
  apply NoDup_cons in Hn2 as [Hn2 _].
  set (mk := fun name => {| path_root := root; path_slug := target; path_name := name |}).
  assert (forall l, "requirements" ∉ l -> p ∉ map mk l) as Hmk.
  { intros l Hl (x & Hx & Hxl)%map_elem_of. unfold p, mk in Hx. by simplify_eq. }
  exists (map mk n1), (map mk n2). rewrite Hsplit, map_app. simpl.
  split; [by rewrite <- !app_assoc|]. split; apply Hmk; [|done].
  intros H. by apply (Hn1 _ H), elem_of_cons; left.
Qed.

(** discovery finds the regular files of the directory whose names start
    with [requirements], and nothing else *)
Lemma find_requirement_files_elem root target (children : gmap string DirEntry) p :
  p ∈ find_requirement_files root target (Some (DirNode children)) <->
  path_root p = root /\ path_slug p = target /\
  PyStr.startswith "requirements" (path_name p) = true /\
  is_file (children !! path_name p) = true.
Proof.
  set (mk := fun name => {| path_root := root; path_slug := target; path_name := name |}).
  assert (forall name, name ∈ glob_requirements children <->
                       is_Some (children !! name) /\
                       PyStr.startswith "requirements" name = true) as Hglob.
  { intros name. unfold glob_requirements, PyStr.sorted.
    rewrite merge_sort_Permutation, list_elem_of_filter, map_elem_of. split.
    - intros (Hpre & [k e] & -> & He%elem_of_map_to_list). split; [by eexists|done].
    - intros ([e He] & Hpre). split; [done|]. exists (name, e).
      split; [done|]. by apply elem_of_map_to_list. }
  assert (forall p,
            p ∈ map mk (filter (fun name => is_file (children !! name) = true)
                               (glob_requirements children)) <->
            path_root p = root /\ path_slug p = target /\
            PyStr.startswith "requirements" (path_name p) = true /\
            is_file (children !! path_name p) = true) as Hres.
  { intros q. rewrite map_elem_of. split.
    - intros (name & -> & [Hfile [_ Hpre]%Hglob]%list_elem_of_filter). done.
    - intros (<- & <- & Hpre & Hfile). exists (path_name q). split; [by destruct q|].
      apply list_elem_of_filter. split; [done|]. apply Hglob. split; [|done].
      destruct (children !! path_name q); [by eexists|done]. }
  unfold find_requirement_files. fold mk.
  destruct (is_file (children !! "requirements")) eqn:Ereq; [|apply Hres].
  rewrite elem_of_app, Hres, list_elem_of_singleton. split; [|by left].
  intros [?| ->]; [done|]. unfold mk. cbn [path_root path_slug path_name].
  by rewrite Ereq.
Qed.

(** the lines of a file that is read are part of the lines gone through *)
Lemma file_lines_in_stream (w : World) (files : list Path) p :
  p ∈ files ->
  exists pre post, flat_map (file_lines w) files = (pre ++ file_lines w p ++ post)%list.
Proof.
  intros (l1 & l2 & ->)%list_elem_of_split.
  exists (flat_map (file_lines w) l1), (flat_map (file_lines w) l2).
  by rewrite flat_map_app.
Qed.

(** what [clone_plugin] leaves in a plan that was skipped for an existing
    directory or cloned: the files found in that directory *)
Lemma clone_plugin_requirements git root plan w url target :
  repo_url plan = Some url -> slug plan = Some target ->
  let '(plan', w') := clone_plugin git root plan w in
  status plan' = failed \/
  ((status plan' = cloned \/ status plan' = skipped) /\
   is_Some (fs w' !! target) /\
   requirements plan' = find_requirement_files root target (fs w' !! target)).
Proof.
  intros Hurl Hslug. unfold clone_plugin. rewrite Hurl, Hslug.
  destruct (fs w !! target) as [node|] eqn:Hnode.
  - right. simpl. rewrite Hnode. split; [by right|]. split; [by eexists|done].
  - destruct (git url target); simpl; [right|by left..].
    rewrite lookup_insert_eq. split; [by left|]. split; [by eexists|done].
Qed.

(** a second pass over lines already gone through adds nothing *)
Lemma collect_lines_again known pre lines :
  (forall id, id ∈ dedup_ids lines -> id ∈ dedup_ids pre) ->
  collect_lines known (pre ++ lines) = collect_lines known pre.
Proof.
  induction lines as [|line lines IH] using rev_ind; intros Hsub.
  - by rewrite app_nil_r.
  - rewrite app_assoc, collect_lines_snoc.
    assert (forall id, id ∈ dedup_ids lines -> id ∈ dedup_ids pre) as Hsub'.
    { intros id Hid. apply Hsub. unfold dedup_ids in *.
      rewrite omap_app, map_app, elem_of_app. by left. }
    rewrite (IH Hsub'). unfold emitted.
    destruct (parse_requirement_line line) as [e|] eqn:Ep; [|by rewrite app_nil_r].
    assert (dedup_id e ∈ dedup_ids (pre ++ lines)) as Hin.
    { unfold dedup_ids. rewrite omap_app, map_app, elem_of_app. left.
      apply Hsub. unfold dedup_ids. rewrite omap_app, map_app, elem_of_app. right.
      simpl. rewrite Ep. simpl. apply elem_of_cons. by left. }
    by rewrite (bool_decide_eq_true_2 _ Hin), orb_true_r, app_nil_r.
Qed.

(** C8: a plan with a repository URL and a slug whose target [root/slug]
    exists is not fetched (no clone command is run), the world, and with it
    the existing directory, stays as it was, and the plan becomes [skipped].
    Its requirement files are those found by scanning the existing
    directory: exactly the regular files in it whose names start with
    [requirements].  They take part in the aggregation: the lines of every
    such file that can be read are among the lines the aggregator goes
    through, and each entry of such a file is represented in the collected
    output by a line with its dedup id, unless the baseline covers it. *)
Theorem C8_existing_directory_skipped git root plan w url target node :
  repo_url plan = Some url -> slug plan = Some target ->
  fs w !! target = Some node ->
  let plan' := (clone_plugin git root plan w).1 in
  let w' := (clone_plugin git root plan w).2 in
  w' = w /\
  git_calls w' = git_calls w /\
  fs w' !! target = Some node /\
  status plan' = skipped /\
  requirements plan' = find_requirement_files root target (Some node) /\
  (forall children, node = DirNode children ->
     forall p, p ∈ requirements plan' <->
               path_root p = root /\ path_slug p = target /\
               PyStr.startswith "requirements" (path_name p) = true /\
               is_file (children !! path_name p) = true) /\
  forall children name text before after known w'',
    node = DirNode children ->
    children !! name = Some (RegularFile (Some text)) ->
    PyStr.startswith "requirements" name = true ->
    fs w'' !! target = Some node ->
    let stream := flat_map (plan_lines w'') (before ++ plan' :: after) in
    let collected := (collect_requirements (before ++ plan' :: after) known w'').1 in
    (exists pre post, stream = (pre ++ splitlines text ++ post)%list) /\
    forall l e,
      l ∈ splitlines text -> parse_requirement_line l = Some e ->
      is_covered known (dedup_id e) = true \/
      exists l' e', l' ∈ stream /\ parse_requirement_line l' = Some e' /\
                    dedup_id e' = dedup_id e /\ original e' ∈ collected.
Proof.
  intros Hurl Hslug Hnode. unfold clone_plugin. rewrite Hurl, Hslug, Hnode. simpl.
  do 5 (split; [done|]). split.
  { intros children ->. intros p. apply find_requirement_files_elem. }
  intros children name text before after known w'' -> Hfile Hprefix Hnode''.
  set (p := {| path_root := root; path_slug := target; path_name := name |}).
  set (plan' := with_status _ _ _ _).
  assert (p ∈ requirements plan') as Hp.
  { apply find_requirement_files_elem. simpl. by rewrite Hfile. }
  assert (file_lines w'' p = splitlines text) as Hlines.
  { unfold file_lines, read_text. simpl. by rewrite Hnode'', Hfile. }
  assert (exists pre post,
            flat_map (plan_lines w'') (before ++ plan' :: after)
            = (pre ++ splitlines text ++ post)%list) as (pre & post & Hstream).
  { destruct (file_lines_in_stream w'' (requirements plan') p Hp) as (pre & post & Hsplit).
    exists (flat_map (plan_lines w'') before ++ pre)%list,
           (post ++ flat_map (plan_lines w'') after)%list.
    assert (plan_lines w'' plan' = flat_map (file_lines w'') (requirements plan')) as Hplan
      by reflexivity.
    assert (flat_map (plan_lines w'') (before ++ plan' :: after)
            = (flat_map (plan_lines w'') before ++ plan_lines w'' plan'
               ++ flat_map (plan_lines w'') after)%list) as ->
      by (by rewrite flat_map_app).
    by rewrite Hplan, Hsplit, Hlines, <- !app_assoc. }
  split; [by exists pre, post|].
  intros l e Hl Hparse. unfold collect_requirements. simpl.
  apply (collect_lines_complete known _ l e); [|done].
  rewrite Hstream, !elem_of_app. auto.
Qed.

Lemma C8_existing_directory_witness :
  let tree : gmap string DirEntry :=
    {[ "requirements.txt" := RegularFile (Some "torch") ; "nodes.py" := RegularFile (Some "") ]} in
  let w := {| fs := {[ "plugin" := DirNode tree ]}; git_calls := [];
              requirements_output := None; summary_output := None |} in
  let plan := {| plugin_id := "https://example.com/plugin"; nodes := ["Node"];
                 repo_url := Some "https://example.com/plugin"; slug := Some "plugin";
                 reason := Some "plugin_id"; status := planned; message := None;
                 requirements := [] |} in
  let git := fun (_ _ : string) => GitNotFound in
  let known := {| known_packages := ∅; known_vcs := ∅ |} in
  let plan' := (clone_plugin git "custom_nodes" plan w).1 in
  (clone_plugin git "custom_nodes" plan w).2 = w /\
  status plan' = skipped /\
  {| path_root := "custom_nodes"; path_slug := "plugin"; path_name := "requirements.txt" |}
    ∈ requirements plan' /\
  (exists pre post,
     flat_map (plan_lines w) [plan'] = (pre ++ splitlines "torch" ++ post)%list) /\
  (collect_requirements [plan'] known w).1 = ["torch"].
Proof.
  intros tree w plan git known plan'.
  pose proof (C8_existing_directory_skipped git "custom_nodes" plan w
                "https://example.com/plugin" "plugin" (DirNode tree)
                eq_refl eq_refl eq_refl) as (Hw & _ & _ & Hst & _ & Hfiles & Hagg).
  split; [exact Hw|]. split; [exact Hst|]. split.
  { apply (Hfiles tree eq_refl). vm_compute. repeat split. }
  destruct (Hagg tree "requirements.txt" "torch" [] [] known w eq_refl eq_refl eq_refl eq_refl)
    as [Hstream _].
  split; [exact Hstream|]. vm_compute. reflexivity.
Defined.

(** C10: when the directory of a materialized plugin (skipped for an
    existing directory, or cloned) holds a regular file named
    [requirements], the plan's requirement files hold its path twice, once
    from the glob and once more at the end; the summary lists the path
    twice; the aggregator goes through the lines of the file twice; and the
    second pass adds nothing to the output, every dedup id of it having been
    seen in the first. *)
Theorem C10_requirements_file_twice git root plan0 w0 url target children text :
  repo_url plan0 = Some url -> slug plan0 = Some target ->
  let plan := (clone_plugin git root plan0 w0).1 in
  let w := (clone_plugin git root plan0 w0).2 in
  status plan <> failed ->
  fs w !! target = Some (DirNode children) ->
  children !! "requirements" = Some (RegularFile text) ->
  let p := {| path_root := root; path_slug := target; path_name := "requirements" |} in
  exists l1 l2,
    requirements plan = (l1 ++ [p] ++ l2 ++ [p])%list /\ (p ∉ l1) /\ (p ∉ l2) /\
    (forall before after unresolved collected w1,
       exists sps1 sp sps2,
         workflow_plugins <$> summary_output
            (write_summary (before ++ plan :: after) unresolved collected w1)
           = Some (sps1 ++ sp :: sps2)%list /\
         length sps1 = length before /\
         sp_requirements_files sp
           = (map path_str l1 ++ [path_str p] ++ map path_str l2 ++ [path_str p])%list) /\
    file_lines w p = match text with Some t => splitlines t | None => [] end /\
    plan_lines w plan
      = (flat_map (file_lines w) l1 ++ file_lines w p
         ++ flat_map (file_lines w) l2 ++ file_lines w p)%list /\
    forall known pre,
      collect_lines known (pre ++ plan_lines w plan)
        = collect_lines known
            (pre ++ flat_map (file_lines w) l1 ++ file_lines w p
             ++ flat_map (file_lines w) l2)%list.
Proof.
  intros Hurl Hslug plan w Hstatus Hdir Hreq p.
  pose proof (clone_plugin_requirements git root plan0 w0 url target Hurl Hslug) as H.
  fold plan w in H.
  assert (clone_plugin git root plan0 w0 = (plan, w)) as E by (unfold plan, w; by destruct (clone_plugin _ _ _ _)).
  rewrite E in H. destruct H as [H|(Hst & _ & Hfiles)]; [done|].
  rewrite Hdir in Hfiles.
  destruct (find_requirement_files_twice root target children text Hreq) as (l1 & l2 & Hsplit & Hl1 & Hl2).
  fold p in Hsplit. rewrite Hsplit in Hfiles.
  exists l1, l2. do 3 (split; [done|]).
  assert (plan_lines w plan
          = (flat_map (file_lines w) l1 ++ file_lines w p
             ++ flat_map (file_lines w) l2 ++ file_lines w p)%list) as Hlines.
  { unfold plan_lines. rewrite Hfiles.
    assert (flat_map (file_lines w) (l1 ++ [p] ++ l2 ++ [p])
            = (flat_map (file_lines w) l1 ++ file_lines w p
               ++ flat_map (file_lines w) l2 ++ file_lines w p)%list) as ->.
    { rewrite !flat_map_app. simpl. by rewrite !app_nil_r. }
    by destruct Hst as [-> | ->]. }
  split; [|split; [|split; [done|]]].
  - intros before after unresolved collected w1. simpl.
    rewrite map_app. simpl. eexists _, _, _. split; [done|].
    split; [by rewrite length_map|]. simpl. rewrite Hfiles, !map_app. done.
  - unfold file_lines, read_text. simpl. by rewrite Hdir, Hreq.
  - intros known pre. rewrite Hlines.
    replace (pre ++ flat_map (file_lines w) l1 ++ file_lines w p
             ++ flat_map (file_lines w) l2 ++ file_lines w p)%list
      with ((pre ++ flat_map (file_lines w) l1 ++ file_lines w p
             ++ flat_map (file_lines w) l2) ++ file_lines w p)%list
      by (by rewrite <- !app_assoc).
    apply collect_lines_again. intros id Hid. unfold dedup_ids in *.
    rewrite !omap_app, !map_app, !elem_of_app. auto.
Qed.

Lemma C10_requirements_file_twice_witness :
  let tree : gmap string DirEntry :=
    {[ "requirements" := RegularFile (Some "torch") ;
       "requirements.txt" := RegularFile (Some "numpy") ]} in
  let w0 := {| fs := {[ "plugin" := DirNode tree ]}; git_calls := [];
               requirements_output := None; summary_output := None |} in
  let plan0 := {| plugin_id := "https://example.com/plugin"; nodes := ["Node"];
                  repo_url := Some "https://example.com/plugin"; slug := Some "plugin";
                  reason := Some "plugin_id"; status := planned; message := None;
                  requirements := [] |} in
  let git := fun (_ _ : string) => GitNotFound in
  let p := {| path_root := "custom_nodes"; path_slug := "plugin"; path_name := "requirements" |} in
  exists l1 l2,
    requirements (clone_plugin git "custom_nodes" plan0 w0).1 = (l1 ++ [p] ++ l2 ++ [p])%list.
Proof.
  intros tree w0 plan0 git p.
  destruct (C10_requirements_file_twice git "custom_nodes" plan0 w0
              "https://example.com/plugin" "plugin" tree (Some "torch")
              eq_refl eq_refl) as (l1 & l2 & H & _).
  - vm_compute. discriminate.
  - vm_compute. reflexivity.
  - vm_compute. reflexivity.
  - exists l1, l2. exact H.
Defined.

End materialization.

(** ** The exit status of [main] *)

Section exit_status.
Import Apply Spec.

Lemma filter_length_pos {A} (f : A -> bool) (l : list A) :
  0 < length (List.filter f l) <-> exists x, x ∈ l /\ f x = true.
Proof.
  induction l as [|a l IH]; simpl.
  - split; [lia|]. intros (x & H & _). by apply elem_of_nil in H.
  - destruct (f a) eqn:Ea; simpl.
    + split; [|lia]. intros _. exists a. split; [apply elem_of_cons; by left|done].
    + rewrite IH. split.
      * intros (x & Hx & Hfx). exists x. split; [apply elem_of_cons; by right|done].
      * intros (x & [->|Hx]%elem_of_cons & Hfx); [congruence|eauto].
Qed.

(** one plan: [clone_plugin] keeps the plan's id and URL, runs at most one
    clone command, and the two counters count the plans without URL and
    the clone commands that failed *)
Lemma process_plan_step git root st plan :
  exists calls,
    git_calls (world (process_plan git root st plan)) = (git_calls (world st) ++ calls)%list /\
    missing_repos (process_plan git root st plan)
      = missing_repos st + length (List.filter no_url [plan]) /\
    clone_failures (process_plan git root st plan)
      = clone_failures st + length (List.filter (failed_call git) calls) /\
    map plugin_id (processed_plans (process_plan git root st plan))
      = (map plugin_id (processed_plans st) ++ [plugin_id plan])%list.
Proof.
  unfold process_plan, clone_plugin, no_url, failed_call.
  destruct (repo_url plan) as [url|] eqn:Eurl; [destruct (slug plan) as [target|] eqn:Eslug|].
  - destruct (fs (world st) !! target) as [node|].
    + exists []. simpl. rewrite Eurl, app_nil_r, map_app. simpl. by rewrite !Nat.add_0_r.
    + exists [(url, target)]. simpl.
      destruct (git url target); simpl; rewrite Eurl, map_app; simpl;
        split; [done| |done| |done|]; split; try lia; split; try done; lia.
  - exists []. simpl. rewrite Eurl, app_nil_r, map_app. simpl. by rewrite !Nat.add_0_r.
  - exists []. simpl. rewrite Eurl, app_nil_r, map_app. simpl.
    split; [done|]. split; [lia|]. split; [lia|done].
Qed.

Lemma process_fold git root plans : forall st,
  exists calls,
    git_calls (world (fold_left (process_plan git root) plans st))
      = (git_calls (world st) ++ calls)%list /\
    missing_repos (fold_left (process_plan git root) plans st)
      = missing_repos st + length (List.filter no_url plans) /\
    clone_failures (fold_left (process_plan git root) plans st)
      = clone_failures st + length (List.filter (failed_call git) calls) /\
    map plugin_id (processed_plans (fold_left (process_plan git root) plans st))
      = (map plugin_id (processed_plans st) ++ map plugin_id plans)%list.
Proof.
  induction plans as [|plan plans IH]; intros st; simpl.
  - exists []. by rewrite !app_nil_r, !Nat.add_0_r.
  - destruct (process_plan_step git root st plan) as (c1 & Hc1 & Hm1 & Hf1 & Hp1).
    destruct (IH (process_plan git root st plan)) as (c2 & Hc2 & Hm2 & Hf2 & Hp2).
    exists (c1 ++ c2)%list. rewrite Hc2, Hc1, Hm2, Hm1, Hf2, Hf1, Hp2, Hp1.
    rewrite List.filter_app, length_app, <- !app_assoc. simpl.
    split; [done|]. split; [destruct (no_url plan); simpl; lia|]. split; [lia|done].
Qed.

(** C4, as the code has it: once the dependency manifest is loaded, [main]
    ends; its exit status is non-zero exactly when a plan lacks a
    repository URL or a clone command of the run fails; the unresolved
    nodes of the manifest have no part in the exit status; and whatever the
    exit status, the summary is written, with one entry per plan in order
    and the manifest's unresolved nodes, and the requirements output is
    brought up to date: written when a requirement was collected, absent
    when none was. *)
Theorem C4_exit_status_after_full_pipeline git deps root pak3 pak7 w :
  let args := {| arg_deps := DepsLoaded deps; arg_custom_node_root := root;
                 arg_pak3 := pak3; arg_pak7 := pak7 |} in
  exists plans code w' calls summary,
    plan_plugins deps = Some (plans, deps_unresolved_nodes deps) /\
    main git args w = Some (code, w') /\
    git_calls w' = (git_calls w ++ calls)%list /\
    exit_contract git plans calls code /\
    (forall unresolved',
       fst <$> main git {| arg_deps := DepsLoaded {| deps_plugins := deps_plugins deps;
                                                      deps_unresolved_nodes := unresolved' |};
                           arg_custom_node_root := root;
                           arg_pak3 := pak3; arg_pak7 := pak7 |} w
         = Some code) /\
    summary_output w' = Some summary /\
    map sp_id (workflow_plugins summary) = map plugin_id plans /\
    summary_unresolved_nodes summary = deps_unresolved_nodes deps /\
    requirements_output w'
      = match collected_requirements summary with
        | [] => None
        | _ => Some (output_text (collected_requirements summary))
        end.
Proof.
  intros args. unfold main, plan_plugins. simpl.
  destruct (plan_loop_spec (deps_plugins deps) ∅) as (plans & -> & _ & _). simpl.
  destruct plans as [|plan plans].
  { eexists [], 0, _, [], _. split; [done|]. split; [reflexivity|]. simpl.
    split; [by rewrite app_nil_r|]. split.
    - split; [done|]. intros [(x & H & _)|(x & H & _)]; by apply elem_of_nil in H.
    - split; [done|]. split; [reflexivity|]. done. }
  set (st0 := {| processed_plans := []; missing_repos := 0; clone_failures := 0; world := w |}).
  destruct (process_fold git root (plan :: plans) st0) as (calls & Hcalls & Hmiss & Hfail & Hids).
  set (st := fold_left (process_plan git root) (plan :: plans) st0) in *.
  change (fold_left (process_plan git root) plans (process_plan git root st0 plan)) with st.
  set (known := load_known_requirements [pak3; pak7]).
  set (collected := collect_lines known (flat_map (plan_lines (world st)) (processed_plans st))).
  simpl in Hmiss, Hfail, Hids, Hcalls.
  assert (((0 <? missing_repos st) || (0 <? clone_failures st))%nat = true
          <-> lacks_url (plan :: plans) \/ clone_fails git calls) as Hexit.
  { rewrite orb_true_iff, !Nat.ltb_lt, Hmiss, Hfail.
    change (if no_url plan then plan :: List.filter no_url plans else List.filter no_url plans)
      with (List.filter no_url (plan :: plans)).
    rewrite !filter_length_pos. unfold lacks_url, clone_fails, no_url.
    split; (intros [(x & Hx & Hfx)|H]; [left; exists x; split; [done|]; by destruct (repo_url x)|by right]). }
  exists (plan :: plans).
  destruct ((0 <? missing_repos st) || (0 <? clone_failures st))%nat eqn:Ecode.
  - eexists 1, _, calls, _. split; [done|]. split; [reflexivity|].
    split; [exact Hcalls|]. split; [split; [intros _; by apply Hexit|done]|].
    split; [done|]. split; [reflexivity|].
    split; [simpl; rewrite map_map; exact Hids|]. split; [done|]. simpl. by destruct collected.
  - eexists 0, _, calls, _. split; [done|]. split; [reflexivity|].
    split; [exact Hcalls|]. split; [split; [done|]; intros H; apply Hexit in H; done|].
    split; [done|]. split; [reflexivity|].
    split; [simpl; rewrite map_map; exact Hids|]. split; [done|]. simpl. by destruct collected.
Qed.

(** C4, as the specification states it, fails twice.  A manifest that
    cannot be loaded ends the run with status 1 although no plan lacks a URL
    and no clone was tried, and nothing is written.  And when a plugin with
    a bare label and no metadata is the only one, the run ends with status
    1 and the summary written, but with no requirements output: nothing was
    collected, so the file is left absent. *)
Lemma C4_exit_contract_counterexample :
  let git := fun (_ _ : string) => GitNotFound in
  let w0 := {| fs := ∅; git_calls := []; requirements_output := None;
               summary_output := None |} in
  let invalid := {| arg_deps := DepsInvalid; arg_custom_node_root := "custom_nodes";
                    arg_pak3 := Absent; arg_pak7 := Absent |} in
  let bare := {| arg_deps := DepsLoaded
                   {| deps_plugins := [ {| group_id := "SomePlugin"; group_nodes := ["Node"];
                                           group_metadata := None |} ];
                      deps_unresolved_nodes := [] |};
                 arg_custom_node_root := "custom_nodes";
                 arg_pak3 := Absent; arg_pak7 := Absent |} in
  (main git invalid w0 = Some (1, w0) /\ ~ exit_contract_as_stated git invalid w0) /\
  (exists w', main git bare w0 = Some (1, w') /\
              is_Some (summary_output w') /\ requirements_output w' = None) /\
  ~ exit_contract_as_stated git bare w0.
Proof.
  intros git w0 invalid bare. split; [split; [done|]|split].
  - intros (code & w' & Hmain & Hexit & _). vm_compute in Hmain. simplify_eq.
    destruct (proj1 Hexit) as [(x & H & _)|(x & H & _)]; [done|..].
    + vm_compute in H. by apply elem_of_nil in H.
    + vm_compute in H. by apply elem_of_nil in H.
  - eexists. split; [vm_compute; reflexivity|]. split; [by eexists|done].
  - intros (code & w' & Hmain & _ & Hout). vm_compute in Hmain. simplify_eq.
    destruct Hout as [_ [? Hreq]]; [done|]. discriminate Hreq.
Qed.

End exit_status.

(** ** Resolver *)

Section resolver.
Import Generate Spec.

Implicit Types (cat : Catalog) (plugin_overrides : gmap string string).

Lemma resolve_step_spec builtin_nodes builtin_patterns cat plugin_overrides acc node_name :
  let acc' := resolve_step builtin_nodes builtin_patterns cat plugin_overrides acc node_name in
  let fresh := is_builtin builtin_nodes builtin_patterns node_name = false in
  (forall pid n, resolved_in acc' pid n <->
                 resolved_in acc pid n \/
                 (n = node_name /\ fresh /\ resolve_node cat plugin_overrides node_name = Some pid)) /\
  (forall n, n ∈ unresolved acc' <->
             n ∈ unresolved acc \/
             (n = node_name /\ fresh /\ resolve_node cat plugin_overrides node_name = None)).
Proof.
  unfold resolve_step, resolved_in. simpl.
  destruct (is_builtin builtin_nodes builtin_patterns node_name).
  { split; intros; (split; [by left|]); intros [?|(_ & ? & _)]; done. }
  destruct (resolve_node cat plugin_overrides node_name) as [p|]; simpl.
  - split.
    + intros pid n. destruct (decide (p = pid)) as [->|Hne].
      * rewrite lookup_insert_eq. split.
        -- intros (entry & ? & Hn); simplify_eq. simpl in Hn.
           apply elem_of_union in Hn as [->%elem_of_singleton|Hn]; [by right|left].
           destruct (plugins acc !! pid) as [old|]; simpl in Hn; [by exists old|].
           by apply not_elem_of_empty in Hn.
        -- intros [(entry & Hentry & Hn)|(-> & _ & _)]; eexists; (split; [done|]); simpl.
           ++ rewrite Hentry. simpl. apply elem_of_union. by right.
           ++ apply elem_of_union. left. by apply elem_of_singleton.
      * rewrite lookup_insert_ne by done. split; [by left|].
        intros [?|(_ & _ & ?)]; [done|congruence].
    + intros n. split; [by left|]. intros [?|(_ & _ & ?)]; done.
  - split.
    + intros pid n. split; [by left|]. intros [?|(_ & _ & ?)]; done.
    + intros n. rewrite elem_of_union, elem_of_singleton. split.
      * intros [->|?]; [by right|by left].
      * intros [?|(-> & _ & _)]; [by right|by left].
Qed.

Lemma resolve_fold builtin_nodes builtin_patterns cat plugin_overrides names :
  let res := fold_left (resolve_step builtin_nodes builtin_patterns cat plugin_overrides)
                       names {| plugins := ∅; unresolved := ∅ |} in
  (forall pid n, resolved_in res pid n <->
                 n ∈ names /\ is_builtin builtin_nodes builtin_patterns n = false /\
                 resolve_node cat plugin_overrides n = Some pid) /\
  (forall n, n ∈ unresolved res <->
             n ∈ names /\ is_builtin builtin_nodes builtin_patterns n = false /\
             resolve_node cat plugin_overrides n = None).
Proof.
  induction names as [|name names IH] using rev_ind.
  - simpl. split.
    + intros pid n. split.
      * intros (entry & H & _). simpl in H. by rewrite lookup_empty in H.
      * intros (H & _). by apply elem_of_nil in H.
    + intros n. split; [intros H; by apply not_elem_of_empty in H|].
      intros (H & _). by apply elem_of_nil in H.
  - rewrite fold_left_app. cbn [fold_left].
    set (acc := fold_left _ names _) in *. cbn zeta in IH. destruct IH as [IH1 IH2].
    destruct (resolve_step_spec builtin_nodes builtin_patterns cat plugin_overrides acc name)
      as [H1 H2].
    cbn zeta. split.
    + intros pid n. rewrite H1, IH1, elem_of_app, list_elem_of_singleton.
      split.
      * intros [(? & ? & ?)|(-> & ? & ?)]; auto.
      * intros ([? | ->] & ? & ?); auto.
    + intros n. rewrite H2, IH2, elem_of_app, list_elem_of_singleton.
      split.
      * intros [(? & ? & ?)|(-> & ? & ?)]; auto.
      * intros ([? | ->] & ? & ?); auto.
Qed.

(** where a node name shows up in what [resolve_dependencies] returns *)
Lemma resolve_dependencies_spec workflow_nodes builtin_nodes builtin_patterns cat plugin_overrides :
  let out := resolve_dependencies workflow_nodes builtin_nodes builtin_patterns cat plugin_overrides in
  (forall pid n,
     (exists group, group ∈ out.1 /\ group_id group = pid /\ n ∈ group_nodes group) <->
     n ∈ workflow_nodes /\ is_builtin builtin_nodes builtin_patterns n = false /\
     resolve_node cat plugin_overrides n = Some pid) /\
  (forall n, n ∈ out.2 <->
     n ∈ workflow_nodes /\ is_builtin builtin_nodes builtin_patterns n = false /\
     resolve_node cat plugin_overrides n = None).
Proof.
  unfold resolve_dependencies. cbn zeta.
  destruct (resolve_fold builtin_nodes builtin_patterns cat plugin_overrides
              (PyStr.sorted (elements workflow_nodes))) as [H1 H2].
  set (res := fold_left _ _ _) in *.
  assert (forall n, n ∈ PyStr.sorted (elements workflow_nodes) <-> n ∈ workflow_nodes) as Hwf.
  { intros n. unfold PyStr.sorted. by rewrite merge_sort_Permutation, elem_of_elements. }
  split.
  - intros pid n. rewrite <- Hwf, <- H1. unfold resolved_in. cbn [fst]. split.
    + intros (group & (item & -> & Hitem)%map_elem_of & <- & Hn).
      rewrite merge_sort_Permutation in Hitem. destruct item as [k entry].
      apply elem_of_map_to_list in Hitem. exists entry. split; [done|].
      unfold plugin_entry, PyStr.sorted in Hn. simpl in Hn.
      by rewrite merge_sort_Permutation, elem_of_elements in Hn.
    + intros (entry & Hentry & Hn). exists (plugin_entry (pid, entry)).
      split; [|split; [done|]].
      * apply map_elem_of. exists (pid, entry). split; [done|].
        rewrite merge_sort_Permutation. by apply elem_of_map_to_list.
      * unfold plugin_entry, PyStr.sorted. simpl.
        by rewrite merge_sort_Permutation, elem_of_elements.
  - intros n. rewrite <- Hwf, <- H2. cbn [snd]. unfold PyStr.sorted.
    by rewrite merge_sort_Permutation, elem_of_elements.
Qed.

(** the loop over the pattern entries stops at the first one that matches *)
Lemma first_pattern_spec entries node_name :
  match first_pattern entries node_name with
  | Some pid =>
      exists before pattern after,
        entries = (before ++ (pattern, pid) :: after)%list /\
        search pattern node_name = true /\
        forall entry, entry ∈ before -> search entry.1 node_name = false
  | None => forall entry, entry ∈ entries -> search entry.1 node_name = false
  end.
Proof.
  induction entries as [|[pattern pid] entries IH]; simpl.
  - intros entry H. by apply elem_of_nil in H.
  - destruct (search pattern node_name) eqn:E.
    + exists [], pattern, entries. split; [done|]. split; [done|].
      intros entry H. by apply elem_of_nil in H.
    + destruct (first_pattern entries node_name) as [pid'|].
      * destruct IH as (before & pattern' & after & -> & Hm & Hbefore).
        exists ((pattern, pid) :: before), pattern', after. split; [done|]. split; [done|].
        intros entry [->|H]%elem_of_cons; [done|by apply Hbefore].
      * intros entry [->|H]%elem_of_cons; [done|by apply IH].
Qed.

Lemma first_pattern_first before pattern pid after node_name :
  search pattern node_name = true ->
  (forall entry, entry ∈ before -> search entry.1 node_name = false) ->
  first_pattern (before ++ (pattern, pid) :: after) node_name = Some pid.
Proof.
  intros Hm. induction before as [|[pattern' pid'] before IH]; intros Hbefore; simpl.
  - by rewrite Hm.
  - pose proof (Hbefore (pattern', pid')) as Hfirst. simpl in Hfirst.
    rewrite Hfirst by (apply elem_of_cons; by left).
    apply IH. intros entry H. apply Hbefore, elem_of_cons. by right.
Qed.

Lemma first_pattern_none entries node_name :
  (forall entry, entry ∈ entries -> search entry.1 node_name = false) ->
  first_pattern entries node_name = None.
Proof.
  intros Hnone. pose proof (first_pattern_spec entries node_name) as H.
  destruct (first_pattern entries node_name) as [pid|]; [|done].
  destruct H as (before & pattern & after & -> & Hm & _).
  assert (search pattern node_name = false) as Hno; [|congruence].
  apply (Hnone (pattern, pid)), elem_of_app. right. apply elem_of_cons. by left.
Qed.

(** the chain picks something for every node name *)
Lemma precedence_chain_total cat plugin_overrides node_name :
  exists choice, precedence_chain cat plugin_overrides node_name choice.
Proof.
  destruct (plugin_overrides !! node_name) as [pid|] eqn:Eo;
    [exists (Some pid); by apply chain_override|].
  destruct (preemption_map cat !! node_name) as [pid|] eqn:Ep;
    [exists (Some pid); by apply chain_preemption|].
  destruct (node_to_plugins cat !! node_name) as [[|pid others]|] eqn:En.
  2: { exists (Some pid). apply chain_provider; [done..|]. by exists others. }
  all: pose proof (first_pattern_spec (pattern_entries cat) node_name) as H.
  all: destruct (first_pattern (pattern_entries cat) node_name) as [pid|].
  all: try (exists (Some pid); apply chain_pattern; [done|done| |exact H]).
  all: try (exists None; apply chain_nothing; [done|done| |exact H]).
  all: unfold no_provider; auto.
Qed.

(** the body of the loop of [resolve_dependencies] computes what the chain picks *)
Lemma resolve_node_chain cat plugin_overrides node_name choice :
  precedence_chain cat plugin_overrides node_name choice ->
  resolve_node cat plugin_overrides node_name = choice.
Proof.
  unfold resolve_node.
  destruct 1 as [pid Ho|pid Ho Hp|pid Ho Hp [others Hn]|pid Ho Hp Hn Hpat|Ho Hp Hn Hpat].
  - by rewrite Ho.
  - by rewrite Ho, Hp.
  - by rewrite Ho, Hp, Hn.
  - destruct Hpat as (before & pattern & after & Hsplit & Hm & Hbefore).
    rewrite Ho, Hp, Hsplit, (first_pattern_first _ _ _ _ _ Hm Hbefore).
    by destruct Hn as [-> | ->].
  - rewrite Ho, Hp, (first_pattern_none _ _ Hpat). by destruct Hn as [-> | ->].
Qed.

Lemma is_builtin_true builtin_nodes builtin_patterns node_name :
  is_builtin builtin_nodes builtin_patterns node_name = true <->
  node_name ∈ builtin_nodes \/
  exists pattern, pattern ∈ builtin_patterns /\ search pattern node_name = true.
Proof.
  unfold is_builtin. rewrite orb_true_iff, bool_decide_eq_true, existsb_exists.
  split; (intros [?|(pattern & ? & ?)]; [by left|right; exists pattern]);
    by rewrite ?list_elem_of_In in *.
Qed.

(** what the chain picks decides where the resolver lists a node name *)
Lemma resolve_dependencies_chain workflow_nodes builtin_nodes builtin_patterns cat
    plugin_overrides node_name choice :
  node_name ∈ workflow_nodes ->
  is_builtin builtin_nodes builtin_patterns node_name = false ->
  precedence_chain cat plugin_overrides node_name choice ->
  let out := resolve_dependencies workflow_nodes builtin_nodes builtin_patterns cat
               plugin_overrides in
  match choice with
  | Some pid =>
      listed_under out.1 node_name pid /\
      (forall other, listed_under out.1 node_name other -> other = pid) /\
      (node_name ∉ out.2)
  | None =>
      node_name ∈ out.2 /\ forall other, ~ listed_under out.1 node_name other
  end.
Proof.
  intros Hwf Hnb Hchoice%resolve_node_chain out.
  destruct (resolve_dependencies_spec workflow_nodes builtin_nodes builtin_patterns cat
              plugin_overrides) as [H1 H2]. fold out in H1, H2.
  destruct choice as [pid|].
  - split; [by apply H1|]. split.
    + intros other Hother%H1. destruct Hother as (_ & _ & ?). congruence.
    + intros Hu. apply H2 in Hu as (_ & _ & ?). congruence.
  - split; [by apply H2|]. intros other Hother%H1.
    destruct Hother as (_ & _ & ?). congruence.
Qed.

(** C2: for a workflow node name that is not built in, the precedence
    chain picks the manual override; else the preemption entry; else the
    first id of the provider list; else the plugin of the first declared
    pattern that matches, no pattern declared before it matching; else
    nothing.  The chain always picks, and what it picks decides the result:
    the node name is listed under the picked plugin id and under no other,
    and is not reported unresolved; when nothing is picked it is reported
    unresolved and listed under no plugin.  So when a manual override, a
    preemption entry, a provider list and a matching pattern all exist for
    the name, it is listed under the override's id, and under none of the
    other three ids that differs from it; with the override taken away it
    is listed under the preemption's id; with the preemption entry taken
    away too, under the first provider's id; and with the provider list
    taken away too, under the id of the first declared pattern that
    matches. *)
Theorem C2_precedence_chain workflow_nodes builtin_nodes builtin_patterns cat
    plugin_overrides node_name :
  node_name ∈ workflow_nodes ->
  is_builtin builtin_nodes builtin_patterns node_name = false ->
  let resolve := resolve_dependencies workflow_nodes builtin_nodes builtin_patterns in
  let out := resolve cat plugin_overrides in
  (exists choice, precedence_chain cat plugin_overrides node_name choice) /\
  (forall choice,
     precedence_chain cat plugin_overrides node_name choice ->
     match choice with
     | Some pid =>
         listed_under out.1 node_name pid /\
         (forall other, listed_under out.1 node_name other -> other = pid) /\
         (node_name ∉ out.2)
     | None =>
         node_name ∈ out.2 /\ forall other, ~ listed_under out.1 node_name other
     end) /\
  forall override_id preempt_id provider_id providers pattern pattern_id,
    plugin_overrides !! node_name = Some override_id ->
    preemption_map cat !! node_name = Some preempt_id ->
    node_to_plugins cat !! node_name = Some (provider_id :: providers) ->
    (pattern, pattern_id) ∈ pattern_entries cat -> search pattern node_name = true ->
    let no_override := delete node_name plugin_overrides in
    let no_preemption :=
      {| node_to_plugins := node_to_plugins cat;
         plugin_metadata := plugin_metadata cat;
         preemption_map := delete node_name (preemption_map cat);
         pattern_entries := pattern_entries cat;
         comfy_nodes := comfy_nodes cat |} in
    let no_provider_list :=
      {| node_to_plugins := delete node_name (node_to_plugins cat);
         plugin_metadata := plugin_metadata cat;
         preemption_map := delete node_name (preemption_map cat);
         pattern_entries := pattern_entries cat;
         comfy_nodes := comfy_nodes cat |} in
    listed_under out.1 node_name override_id /\
    (forall other, other ∈ [preempt_id; provider_id; pattern_id] -> other <> override_id ->
                   ~ listed_under out.1 node_name other) /\
    listed_under (resolve cat no_override).1 node_name preempt_id /\
    listed_under (resolve no_preemption no_override).1 node_name provider_id /\
    exists first_id,
      first_matching_pattern cat node_name first_id /\
      listed_under (resolve no_provider_list no_override).1 node_name first_id.
Proof.
  intros Hwf Hnb resolve out.
  split; [apply precedence_chain_total|].
  split; [intros choice Hchoice; by apply resolve_dependencies_chain|].
  intros override_id preempt_id provider_id providers pattern pattern_id Ho Hp Hn Hin Hm
         no_override no_preemption no_provider_list.
  assert (no_override !! node_name = None) as Hno by apply lookup_delete_eq.
  destruct (resolve_dependencies_chain workflow_nodes builtin_nodes builtin_patterns cat
              plugin_overrides node_name (Some override_id) Hwf Hnb
              (chain_override _ _ _ _ Ho)) as (Hlisted & Hothers & _).
  split; [done|]. split.
  { intros other _ Hneq Hother. by apply Hneq, Hothers. }
  split; [|split].
  - apply (resolve_dependencies_chain workflow_nodes builtin_nodes builtin_patterns cat
             no_override node_name (Some preempt_id) Hwf Hnb).
    by apply chain_preemption.
  - apply (resolve_dependencies_chain workflow_nodes builtin_nodes builtin_patterns
             no_preemption no_override node_name (Some provider_id) Hwf Hnb).
    apply chain_provider; [done|apply lookup_delete_eq|by exists providers].
  - pose proof (first_pattern_spec (pattern_entries cat) node_name) as Hfirst.
    destruct (first_pattern (pattern_entries cat) node_name) as [first_id|].
    2: { pose proof (Hfirst (pattern, pattern_id) Hin) as Hno'. simpl in Hno'. congruence. }
    exists first_id. split; [exact Hfirst|].
    apply (resolve_dependencies_chain workflow_nodes builtin_nodes builtin_patterns
             no_provider_list no_override node_name (Some first_id) Hwf Hnb).
    apply chain_pattern; [done|apply lookup_delete_eq| |exact Hfirst].
    left. apply lookup_delete_eq.
Qed.

Lemma C2_precedence_chain_witness :
  let always := {| pattern_source := ".*"; search := fun _ => true |} in
  let cat := {| node_to_plugins := {[ "Node" := ["P-catalog"] ]};
                plugin_metadata := ∅;
                preemption_map := {[ "Node" := "P-preempt" ]};
                pattern_entries := [(always, "P-pattern")];
                comfy_nodes := ∅ |} in
  let out := resolve_dependencies {[ "Node" ]} ∅ [] cat {[ "Node" := "P-override" ]} in
  listed_under out.1 "Node" "P-override" /\
  ~ listed_under out.1 "Node" "P-preempt" /\
  ~ listed_under out.1 "Node" "P-catalog" /\
  ~ listed_under out.1 "Node" "P-pattern".
Proof.
  intros always cat out.
  assert ("Node" ∈ ({[ "Node" ]} : gset string)) as Hwf by (by apply elem_of_singleton).
  assert (is_builtin ∅ [] "Node" = false) as Hnb by (vm_compute; reflexivity).
  destruct (C2_precedence_chain {[ "Node" ]} ∅ [] cat {[ "Node" := "P-override" ]} "Node"
              Hwf Hnb) as (_ & _ & H).
  destruct (H "P-override" "P-preempt" "P-catalog" [] always "P-pattern")
    as (Hin & Hout & _);
    [reflexivity|reflexivity|reflexivity|apply elem_of_cons; by left|reflexivity|].
  split; [exact Hin|].
  split; [|split]; apply Hout; try discriminate.
  - apply elem_of_cons. by left.
  - apply elem_of_cons. right. apply elem_of_cons. by left.
  - apply elem_of_cons. right. apply elem_of_cons. right. apply elem_of_cons. by left.
Defined.

(** C9: a node name that is in the built-in set, or that one of the
    built-in patterns matches, is listed under no plugin of the result and
    is not among the unresolved names. *)
Theorem C9_builtin_nodes_skipped workflow_nodes builtin_nodes builtin_patterns cat
    plugin_overrides node_name :
  node_name ∈ builtin_nodes \/
    (exists pattern, pattern ∈ builtin_patterns /\ search pattern node_name = true) ->
  let out := resolve_dependencies workflow_nodes builtin_nodes builtin_patterns cat
               plugin_overrides in
  (forall group, group ∈ out.1 -> node_name ∉ group_nodes group) /\
  (node_name ∉ out.2).
Proof.
  intros Hb%is_builtin_true out.
  destruct (resolve_dependencies_spec workflow_nodes builtin_nodes builtin_patterns cat
              plugin_overrides) as [H1 H2]. fold out in H1, H2.
  split.
  - intros group Hg Hn.
    assert (is_builtin builtin_nodes builtin_patterns node_name = false) as E.
    { apply (H1 (group_id group) node_name). by exists group. }
    congruence.
  - intros Hu. apply H2 in Hu as (_ & ? & _). congruence.
Qed.

Lemma C9_builtin_nodes_skipped_witness :
  let preview := {| pattern_source := "^Preview"; search := PyStr.startswith "Preview" |} in
  let cat := {| node_to_plugins := {[ "KSampler" := ["P1"]; "PreviewImage" := ["P2"] ]};
                plugin_metadata := ∅; preemption_map := ∅; pattern_entries := [];
                comfy_nodes := ∅ |} in
  let out := resolve_dependencies {[ "KSampler"; "PreviewImage"; "Custom" ]}
               {[ "KSampler" ]} [preview] cat ∅ in
  ((forall group, group ∈ out.1 -> "KSampler" ∉ group_nodes group) /\ ("KSampler" ∉ out.2)) /\
  ((forall group, group ∈ out.1 -> "PreviewImage" ∉ group_nodes group) /\
   ("PreviewImage" ∉ out.2)).
Proof.
  intros preview cat out. split.
  - apply C9_builtin_nodes_skipped. left. by apply elem_of_singleton.
  - apply C9_builtin_nodes_skipped. right. exists preview.
    split; [apply elem_of_cons; by left|reflexivity].
Defined.

End resolver.

(** ** Catalog builder *)

Section catalog.
Import Generate Spec.

Lemma dict_get_set {V} k k' (v : V) d :
  Dict.get k (Dict.set k' v d) = if decide (k = k') then Some v else Dict.get k d.
Proof.
  induction d as [|[k0 v0] d IH]; simpl.
  - by destruct (decide (k = k')).
  - destruct (decide (k' = k0)) as [->|Hne]; simpl.
    + by destruct (decide (k = k0)).
    + destruct (decide (k = k0)) as [->|]; [|done].
      destruct (decide (k0 = k')); [congruence|done].
Qed.

Lemma dict_get_absent {V} k (d : list (string * V)) :
  k ∉ map fst d -> Dict.get k d = None.
Proof.
  induction d as [|[k0 v0] d IH]; simpl; [done|]. intros Hk.
  destruct (decide (k = k0)) as [->|].
  - exfalso. apply Hk, elem_of_cons. by left.
  - apply IH. intros H. apply Hk, elem_of_cons. by right.
Qed.

(** [d.update(other)]: the keys of [other] take its values, the rest stay *)
Lemma dict_get_update {V} k (other : list (string * V)) : forall d,
  NoDup (map fst other) ->
  Dict.get k (Dict.update d other)
  = match Dict.get k other with Some v => Some v | None => Dict.get k d end.
Proof.
  unfold Dict.update.
  induction other as [|[k0 v0] other IH]; intros d Hnd; simpl; [done|].
  apply NoDup_cons in Hnd as [Hk0 Hnd]. rewrite (IH _ Hnd). simpl in *.
  destruct (decide (k = k0)) as [->|Hne].
  - by rewrite (dict_get_absent _ _ Hk0), dict_get_set, decide_True.
  - by rewrite dict_get_set, decide_False.
Qed.

Lemma non_null_keys d k : k ∈ map fst (non_null d) -> k ∈ map fst d.
Proof.
  induction d as [|[k0 v0] d IH]; simpl; [done|].
  destruct (is_null v0); simpl; rewrite ?elem_of_cons; intuition.
Qed.

Lemma non_null_unique d : unique_keys d -> unique_keys (non_null d).
Proof.
  unfold unique_keys. induction d as [|[k0 v0] d IH]; simpl; [done|].
  intros [Hk0 Hnd]%NoDup_cons. destruct (is_null v0); simpl; [by apply IH|].
  apply NoDup_cons. split; [|by apply IH]. intros H. by apply Hk0, non_null_keys.
Qed.

(** [{k: v for k, v in d.items() if v is not None}] keeps the non-null values *)
Lemma dict_get_non_null k d :
  unique_keys d ->
  Dict.get k (non_null d)
  = match Dict.get k d with
    | Some v => if is_null v then None else Some v
    | None => None
    end.
Proof.
  unfold unique_keys. induction d as [|[k0 v0] d IH]; simpl; [done|].
  intros [Hk0 Hnd]%NoDup_cons.
  destruct (decide (k = k0)) as [->|Hne].
  - destruct (is_null v0) eqn:E; simpl.
    + apply dict_get_absent. intros H. by apply Hk0, non_null_keys.
    + by rewrite decide_True.
  - destruct (is_null v0); simpl; [by apply IH|]. rewrite decide_False by done. by apply IH.
Qed.

(** the value stored for a canonical id that already has metadata *)
Lemma merge_metadata_later_wins earlier later :
  unique_keys later ->
  later_non_null_wins earlier later (merge_metadata (Some earlier) later).
Proof.
  intros Hu k. unfold merge_metadata, Dict.get_json.
  destruct (Dict.truthy earlier) eqn:Et.
  - rewrite dict_get_update by (by apply non_null_unique).
    rewrite dict_get_non_null by done.
    destruct (Dict.get k later) as [v|]; simpl; [|done].
    by destruct (is_null v).
  - destruct earlier; [|done]. simpl.
    destruct (Dict.get k later) as [v|]; simpl; [|done].
    destruct (is_null v) eqn:Ev; [by destruct v|done].
Qed.

(** the providers of a node name after the names of one entry are added *)
Lemma add_providers_spec cid names : forall m c n,
  c ∈ default [] (add_providers cid names m !! n) <->
  c ∈ default [] (m !! n) \/
  (c = cid /\ n ∈ List.filter PyStr.truthy (map PyStr.strip names)).
Proof.
  unfold add_providers.
  induction names as [|name names IH]; intros m c n; simpl.
  - split; [by left|]. intros [?|[_ H]]; [done|]. by apply elem_of_nil in H.
  - rewrite IH. destruct (PyStr.truthy (PyStr.strip name)) eqn:Et.
    + destruct (decide (PyStr.strip name = n)) as [<-|Hne].
      * rewrite lookup_insert_eq. simpl. rewrite elem_of_app, list_elem_of_singleton, elem_of_cons.
        split.
        -- intros [[? | ->] | [-> ?]]; auto.
        -- intros [? | [-> [_ | ?]]]; auto.
      * rewrite lookup_insert_ne by done. rewrite elem_of_cons. split.
        -- intros [? | [-> ?]]; auto.
        -- intros [? | [-> [? | ?]]]; auto. congruence.
    + done.
Qed.

Lemma catalog_fold_providers re_compile custom_catalog raw_data : forall acc c n,
  c ∈ providers (fold_left (catalog_step re_compile custom_catalog) raw_data acc) n <->
  c ∈ providers acc n \/
  exists raw value, (raw, value) ∈ raw_data /\ canonical_id custom_catalog raw = c /\
                    n ∈ provided_names value.
Proof.
  induction raw_data as [|[raw value] raw_data IH]; intros acc c n; simpl.
  - split; [by left|]. intros [?|(? & ? & H & _)]; [done|]. by apply elem_of_nil in H.
  - rewrite IH. unfold providers at 1. simpl. rewrite add_providers_spec.
    fold (providers acc n). unfold provided_names. split.
    + intros [[? | [-> ?]] | (r & v & ? & ? & ?)]; [by left|right..].
      * exists raw, value. split; [apply elem_of_cons; by left|done].
      * exists r, v. split; [apply elem_of_cons; by right|done].
    + intros [?|(r & v & [?|?]%elem_of_cons & <- & ?)]; [by left; left|..].
      * simplify_eq. left. right. done.
      * right. by exists r, v.
Qed.

(** C6, as the code has it: the providers of a node name list a canonical
    id exactly when some raw entry that canonicalizes to that id names the
    node, so the node names of raw ids with one canonical id are united;
    and when a canonical id already has metadata, the metadata of a later
    entry is merged into it key by key: a non-null value of the later entry
    replaces the earlier value, set or not, and a key the later entry lacks
    or holds as null keeps its earlier value.  The first entry of a
    canonical id stores its metadata as it is. *)
Theorem C6_later_non_null_values_win re_compile custom_catalog :
  (forall raw_data c n,
     c ∈ providers (load_extension_node_map re_compile raw_data custom_catalog) n <->
     exists raw value, (raw, value) ∈ raw_data /\ canonical_id custom_catalog raw = c /\
                       n ∈ provided_names value) /\
  (forall acc raw value earlier,
     let cid := canonical_id custom_catalog raw in
     let later := combined_metadata custom_catalog raw (entry_metadata value) in
     plugin_metadata acc !! cid = Some earlier -> unique_keys later ->
     exists merged,
       plugin_metadata (catalog_step re_compile custom_catalog acc (raw, value)) !! cid
         = Some merged /\
       later_non_null_wins earlier later merged) /\
  (forall acc raw value,
     let cid := canonical_id custom_catalog raw in
     plugin_metadata acc !! cid = None ->
     plugin_metadata (catalog_step re_compile custom_catalog acc (raw, value)) !! cid
       = Some (combined_metadata custom_catalog raw (entry_metadata value))).
Proof.
  split; [|split].
  - intros raw_data c n. unfold load_extension_node_map.
    rewrite catalog_fold_providers. split; [|by right].
    intros [H|H]; [|done]. unfold providers in H. simpl in H.
    rewrite lookup_empty in H. by apply elem_of_nil in H.
  - intros acc raw value earlier cid later Hearlier Hu. simpl.
    fold cid. rewrite lookup_insert_eq, Hearlier. eexists. split; [done|].
    by apply merge_metadata_later_wins.
  - intros acc raw value cid Hnone. simpl. fold cid.
    by rewrite lookup_insert_eq, Hnone.
Qed.

(** C6, as the specification words it, fails: two raw ids with one
    canonical id, the first with title [First], the second with title
    [Second]; the merged metadata holds [Second], an already set key has
    been overridden. *)
Lemma C6_set_key_overridden_counterexample :
  let custom_catalog : gmap string (list (string * json)) :=
    {[ "raw-a" := [("reference", JStr "https://example.com/p"); ("title", JStr "Dir A")];
       "raw-b" := [("reference", JStr "https://example.com/p"); ("author", JStr "bob")] ]} in
  let first := ("raw-a", JArr [JArr [JStr "N1"]; JObj [("title", JStr "First")]]) in
  let second := ("raw-b", JArr [JArr [JStr "N2"]; JObj [("title", JStr "Second")]]) in
  let re_compile := fun _ : string => @None Pattern in
  let cid := "https://example.com/p" in
  let earlier := plugin_metadata (load_extension_node_map re_compile [first] custom_catalog) !! cid in
  let merged :=
    plugin_metadata (load_extension_node_map re_compile [first; second] custom_catalog) !! cid in
  let later := combined_metadata custom_catalog "raw-b" (entry_metadata second.2) in
  canonical_id custom_catalog "raw-a" = canonical_id custom_catalog "raw-b" /\
  (Dict.get "title" <$> earlier) = Some (Some (JStr "First")) /\
  (Dict.get "title" <$> merged) = Some (Some (JStr "Second")) /\
  merged <> ((fun e => merge_unset_only e later) <$> earlier).
Proof.
  vm_compute. split; [done|]. split; [done|]. split; [done|]. intros H. discriminate H.
Qed.

End catalog.

(** ** Loading the node map *)

Section node_map.
Import Generate Spec.

Lemma fallback_unbound fallback_ran : "fallback" ∉ branch_scope fallback_ran.
Proof.
  apply (bool_decide_eq_false ("fallback" ∈ branch_scope fallback_ran)).
  destruct fallback_ran; vm_compute; reflexivity.
Qed.

Lemma read_fallback_raises {A} fallback_ran (k : Outcome A) :
  read_name (branch_scope fallback_ran) "fallback" k = Raises (NameError "fallback").
Proof.
  unfold read_name. rewrite decide_False; [done|apply fallback_unbound].
Qed.

(** C5, as the code has it: without [--node-map] the name [fallback] is
    not bound where the default branch reads it, and the branch never
    completes normally: it neither yields a node map nor exits with the
    fatal input error.  When the preferred file is absent, or is present
    and loads, the branch ends in the [NameError] for [fallback]; when the
    preferred file is present but cannot be read or parsed, that error is
    raised first. *)
Theorem C5_default_branch_never_completes json_loads fallback_ran preferred fallback :
  let out := load_node_map json_loads (branch_scope fallback_ran) None preferred fallback in
  ("fallback" ∉ branch_scope fallback_ran) /\
  (forall data, out <> Returns data) /\
  (forall code, out <> Exits code) /\
  (preferred = Absent \/
   (exists content data, preferred = Text content /\ json_loads content = Some data) ->
   out = Raises (NameError "fallback")) /\
  (preferred = Unreadable -> out = Raises ReadError) /\
  (forall content, preferred = Text content -> json_loads content = None ->
                   out = Raises JSONDecodeError).
Proof.
  intros out. split; [apply fallback_unbound|].
  assert (exists e, out = Raises e) as [e He].
  { unfold out, load_node_map, load_json_file.
    destruct preferred as [| |content]; simpl; rewrite ?read_fallback_raises; eauto.
    destruct (json_loads content); rewrite ?read_fallback_raises; eauto. }
  split; [intros data; by rewrite He|]. split; [intros code; by rewrite He|].
  unfold out, load_node_map, load_json_file. split; [|split].
  - intros [->|(content & data & -> & Hloads)]; simpl.
    + apply read_fallback_raises.
    + rewrite Hloads. apply read_fallback_raises.
  - by intros ->.
  - intros content -> Hloads. simpl. by rewrite Hloads.
Qed.

(** C5, as the specification states it, fails for a preferred file that
    exists but does not load: the error of the load is raised before the
    name [fallback] is read. *)
Lemma C5_unloadable_preferred_counterexample :
  load_node_map loads_empty_object (branch_scope false) None (Text "{") Absent
    = Raises JSONDecodeError /\
  load_node_map loads_empty_object (branch_scope false) None Unreadable Absent
    = Raises ReadError /\
  ~ always_name_error loads_empty_object false (Text "{") Absent /\
  ~ always_name_error loads_empty_object false Unreadable Absent.
Proof.
  unfold always_name_error. split; [done|]. split; [done|]. split; intros H; discriminate H.
Qed.

End node_map.

(** ** Further properties of the plan builder and of requirement lines *)

Section more_apply.
Import Apply Shape.

Lemma lower_app s1 s2 : PyStr.lower (s1 +:+ s2) = PyStr.lower s1 +:+ PyStr.lower s2.
Proof.
  induction s1 as [|c s1 IH]; [done|].
  rewrite app_cons_str. cbn [PyStr.lower]. by rewrite IH.
Qed.

Lemma lower_rev s : PyStr.lower (String.rev s) = String.rev (PyStr.lower s).
Proof.
  induction s as [|c s IH]; [done|].
  cbn [PyStr.lower]. by rewrite !rev_cons, lower_app, IH.
Qed.

Lemma lstrip_by_lower p s :
  (forall c, p (PyStr.lower_char c) = p c) ->
  PyStr.lstrip_by p (PyStr.lower s) = PyStr.lower (PyStr.lstrip_by p s).
Proof.
  intros Hp. induction s as [|c s IH]; [done|].
  cbn [PyStr.lower PyStr.lstrip_by]. rewrite Hp. by destruct (p c).
Qed.

Lemma strip_by_lower p s :
  (forall c, p (PyStr.lower_char c) = p c) ->
  PyStr.strip_by p (PyStr.lower s) = PyStr.lower (PyStr.strip_by p s).
Proof.
  intros Hp. unfold PyStr.strip_by, PyStr.rstrip_by.
  by rewrite (lstrip_by_lower _ _ Hp), <- lower_rev, (lstrip_by_lower _ _ Hp), lower_rev.
Qed.

Lemma hyphen_lower_char c :
  PyStr.is_char "-" (PyStr.lower_char c) = PyStr.is_char "-" c.
Proof. destruct c as [[] [] [] [] [] [] [] []]; vm_compute; reflexivity. Qed.

Lemma safe_lower_char c : slug_char c = true -> safe_char (PyStr.lower_char c) = true.
Proof. destruct c as [[] [] [] [] [] [] [] []]; vm_compute; done. Qed.

Lemma all_chars_lower s :
  all_chars slug_char s = true -> all_chars safe_char (PyStr.lower s) = true.
Proof.
  induction s as [|c s IH]; [done|]. cbn [all_chars PyStr.lower].
  intros [Hc Hs]%andb_true_iff. by rewrite (safe_lower_char _ Hc), (IH Hs).
Qed.

Lemma all_chars_sub_runs s : forall in_run, all_chars slug_char (sub_runs in_run s) = true.
Proof.
  induction s as [|c s IH]; intros in_run; [done|]. cbn [sub_runs].
  destruct (slug_char c) eqn:Ec.
  - cbn [all_chars]. by rewrite Ec, IH.
  - destruct in_run; [apply IH|]. cbn [all_chars]. by rewrite IH.
Qed.

(** X1: A slug base is never empty, is made of the characters [a-z0-9._-]
    only, and neither starts nor ends with a hyphen. *)
Theorem slugify_safe name :
  slugify name <> "" /\
  all_chars safe_char (slugify name) = true /\
  PyStr.strip_by (PyStr.is_char "-") (slugify name) = slugify name.
Proof.
  unfold slugify.
  set (cleaned := PyStr.lower (PyStr.strip_by (PyStr.is_char "-") (sub_runs false name))).
  destruct (PyStr.truthy cleaned) eqn:Et.
  - split; [by destruct cleaned|]. split.
    + apply all_chars_lower, all_chars_strip_by, all_chars_sub_runs.
    + unfold cleaned. by rewrite (strip_by_lower _ _ hyphen_lower_char), strip_by_idem.
  - split; [done|]. split; vm_compute; reflexivity.
Qed.

Lemma parse_requirement_line_original line e :
  parse_requirement_line line = Some e ->
  original e = PyStr.strip line /\ PyStr.strip line <> "".
Proof.
  unfold parse_requirement_line.
  destruct (PyStr.strip line) as [|c s] eqn:Es; [done|].
  repeat (case_match; try done); intros ?; by simplify_eq.
Qed.

(** X2: Parsing looks at the trimmed line only; the text an entry keeps is the
    trimmed line, never empty, and parsing that text again gives the same
    entry. *)
Theorem parse_requirement_line_round_trip line :
  parse_requirement_line (PyStr.strip line) = parse_requirement_line line /\
  forall e, parse_requirement_line line = Some e ->
            original e = PyStr.strip line /\ original e <> "" /\
            PyStr.strip (original e) = original e /\
            parse_requirement_line (original e) = Some e.
Proof.
  assert (parse_requirement_line (PyStr.strip line) = parse_requirement_line line) as Hstrip.
  { unfold parse_requirement_line, PyStr.strip. by rewrite strip_by_idem. }
  split; [done|]. intros e He.
  destruct (parse_requirement_line_original line e He) as [Ho Hne].
  rewrite Ho. split; [done|]. split; [done|]. split.
  - unfold PyStr.strip. apply strip_by_idem.
  - by rewrite Hstrip.
Qed.

End more_apply.

(** ** Further properties of the aggregator *)

Section more_aggregation.
Import Apply Spec Shape.

(** X3: The collected lines are the texts of parsed entries taken in input
    order, with pairwise distinct dedup ids, none of them covered by the
    baseline. *)
Theorem collect_lines_distinct known lines :
  exists entries,
    collect_lines known lines = map original entries /\
    entries `sublist_of` omap parse_requirement_line lines /\
    NoDup (map dedup_id entries) /\
    forall e, e ∈ entries -> is_covered known (dedup_id e) = false.
Proof.
  induction lines as [|line lines IH] using rev_ind.
  - exists []. split; [done|]. split; [done|]. split; [constructor|].
    intros e H. by apply elem_of_nil in H.
  - destruct IH as (entries & Hout & Hsub & Hnd & Hcov).
    rewrite collect_lines_snoc, omap_app. unfold emitted.
    destruct (parse_requirement_line line) as [e|] eqn:Ep; simpl; rewrite Ep.
    2: { exists entries. rewrite !app_nil_r. done. }
    destruct (is_covered known (dedup_id e) || bool_decide (dedup_id e ∈ dedup_ids lines))
      eqn:Eseen.
    + exists entries. rewrite app_nil_r. split; [done|].
      split; [by apply sublist_inserts_r|done].
    + apply orb_false_iff in Eseen as [Ecov Enew].
      apply bool_decide_eq_false in Enew.
      exists (entries ++ [e])%list. rewrite !map_app, Hout. split; [done|].
      split; [by apply sublist_app|]. split.
      * apply NoDup_app. split; [done|]. split; [|apply NoDup_singleton].
        intros id Hid Hin. simpl in Hin. apply list_elem_of_singleton in Hin. subst id.
        apply map_elem_of in Hid as (e' & Heq & He').
        apply Enew. unfold dedup_ids. apply map_elem_of. exists e'.
        split; [done|]. by eapply elem_of_sublist.
      * intros e' [He'| ->%list_elem_of_singleton]%elem_of_app; [by apply Hcov|done].
Qed.

Lemma collect_lines_fixed known entries :
  (forall e, e ∈ entries -> parse_requirement_line (original e) = Some e) ->
  NoDup (map dedup_id entries) ->
  (forall e, e ∈ entries -> is_covered known (dedup_id e) = false) ->
  collect_lines known (map original entries) = map original entries.
Proof.
  induction entries as [|e entries IH] using rev_ind; intros Hparse Hnd Hcov; [done|].
  rewrite map_app in Hnd. apply NoDup_app in Hnd as (Hnd & Hnew & _).
  rewrite map_app. simpl. rewrite collect_lines_snoc, IH; [|intros; apply Hparse|done|intros; apply Hcov];
    try (apply elem_of_app; by left).
  f_equal. unfold emitted.
  rewrite Hparse by (apply elem_of_app; right; by apply list_elem_of_singleton).
  rewrite Hcov by (apply elem_of_app; right; by apply list_elem_of_singleton).
  assert (omap parse_requirement_line (map original entries) = entries) as Homap.
  { clear -Hparse. induction entries as [|e' entries IH]; [done|]. simpl.
    rewrite Hparse by (apply elem_of_app; left; apply elem_of_cons; by left).
    simpl. f_equal. apply IH. intros e0 He0. apply Hparse.
    apply elem_of_app in He0 as [He0|He0]; apply elem_of_app; [left|by right].
    apply elem_of_cons. by right. }
  unfold dedup_ids. rewrite Homap. simpl.
  rewrite bool_decide_eq_false_2; [done|].
  intros Hin. apply (Hnew _ Hin). simpl. apply elem_of_cons. by left.
Qed.

(** X4: Running the aggregator over its own output changes nothing. *)
Theorem collect_lines_idempotent known lines :
  collect_lines known (collect_lines known lines) = collect_lines known lines.
Proof.
  destruct (collect_lines_distinct known lines) as (entries & -> & Hsub & Hnd & Hcov).
  apply collect_lines_fixed; [|done..].
  intros e He. apply (elem_of_sublist _ _ _ He) in Hsub.
  apply list_elem_of_omap in Hsub as (line & _ & Hline).
  by apply (parse_requirement_line_round_trip line).
Qed.

(** X5: A larger baseline only removes lines from the output: it adds none and
    keeps the order of the rest. *)
Theorem collect_lines_baseline_monotone known known' lines :
  known_packages known ⊆ known_packages known' ->
  known_vcs known ⊆ known_vcs known' ->
  collect_lines known' lines `sublist_of` collect_lines known lines.
Proof.
  intros Hp Hv.
  assert (forall id, is_covered known id = true -> is_covered known' id = true) as Hcov.
  { intros [[] x]; unfold is_covered; simpl; rewrite !bool_decide_eq_true; auto. }
  induction lines as [|line lines IH] using rev_ind; [done|].
  rewrite !collect_lines_snoc. apply sublist_app; [done|]. unfold emitted.
  destruct (parse_requirement_line line) as [e|]; [|done].
  destruct (bool_decide (dedup_id e ∈ dedup_ids lines)); [by rewrite !orb_true_r|].
  rewrite !orb_false_r.
  destruct (is_covered known (dedup_id e)) eqn:E; [by rewrite (Hcov _ E)|].
  destruct (is_covered known' (dedup_id e)); [apply sublist_nil_l|done].
Qed.

Lemma collect_lines_baseline_monotone_witness :
  let known := {| known_packages := ∅; known_vcs := ∅ |} in
  let known' := {| known_packages := {[ "numpy" ]}; known_vcs := ∅ |} in
  collect_lines known' ["NumPy==1.2"; "torch"] `sublist_of` collect_lines known ["NumPy==1.2"; "torch"].
Proof.
  intros known known'.
  apply collect_lines_baseline_monotone; simpl; apply empty_subseteq.
Defined.

Lemma known_eq k1 k2 :
  (forall id, is_covered k1 id = true <-> is_covered k2 id = true) -> k1 = k2.
Proof.
  intros H. destruct k1 as [p1 v1], k2 as [p2 v2]. f_equal.
  - apply set_eq. intros x. specialize (H (PackagePool, x)).
    unfold is_covered in H. simpl in H. by rewrite !bool_decide_eq_true in H.
  - apply set_eq. intros x. specialize (H (VcsPool, x)).
    unfold is_covered in H. simpl in H. by rewrite !bool_decide_eq_true in H.
Qed.

Lemma baseline_lines_elem_of paths line :
  line ∈ baseline_lines paths <->
  exists content, Text content ∈ paths /\ line ∈ splitlines content.
Proof.
  unfold baseline_lines. rewrite list_elem_of_In, in_flat_map. split.
  - intros (path & Hpath & Hline). destruct path as [| |content]; [done..|].
    exists content. by rewrite !list_elem_of_In.
  - intros (content & Hpath & Hline). exists (Text content). by rewrite <- !list_elem_of_In.
Qed.

(** X6: The baseline sets do not depend on the order in which the baseline
    files are given. *)
Theorem load_known_requirements_order paths paths' :
  paths ≡ₚ paths' ->
  load_known_requirements paths = load_known_requirements paths'.
Proof.
  intros Hperm. apply known_eq. intros id. unfold load_known_requirements.
  rewrite !load_known_requirements_fold, !fold_note_known_covered.
  assert (forall e, e ∈ omap parse_requirement_line (baseline_lines paths) <->
                    e ∈ omap parse_requirement_line (baseline_lines paths')) as Hsame.
  { intros e. rewrite !list_elem_of_omap.
    split; intros (line & (content & Hc & Hl)%baseline_lines_elem_of & Hp);
      exists line; (split; [|done]); apply baseline_lines_elem_of; exists content;
      (split; [|done]); [by rewrite <- Hperm|by rewrite Hperm]. }
  split; (intros [?|(e & He & ?)]; [by left|right; exists e; split; [by apply Hsame|done]]).
Qed.

Lemma load_known_requirements_order_witness :
  load_known_requirements [Text "numpy"; Text "torch"]
  = load_known_requirements [Text "torch"; Text "numpy"].
Proof. apply load_known_requirements_order. apply Permutation_swap. Defined.

Lemma splitlines_aux_line l : forall acc rest,
  all_chars no_break l = true ->
  splitlines_aux acc (l +:+ String "010" rest)
  = (String.rev acc +:+ l) :: splitlines_aux "" rest.
Proof.
  induction l as [|c l IH]; intros acc rest Hl.
  - rewrite app_nil_str, app_empty_r. reflexivity.
  - cbn [all_chars] in Hl. apply andb_true_iff in Hl as [Hc Hl].
    unfold no_break, is_break in Hc. apply negb_true_iff, orb_false_iff in Hc as [Hcr Hlb].
    rewrite app_cons_str. cbn [splitlines_aux]. rewrite Hcr, Hlb.
    rewrite (IH _ _ Hl), rev_cons, app_assoc_str. reflexivity.
Qed.

Lemma splitlines_output_text collected :
  Forall (fun l => all_chars no_break l = true) collected ->
  splitlines (output_text collected) = collected.
Proof.
  unfold splitlines. induction 1 as [|l collected Hl _ IH]; [done|].
  cbn [output_text fold_right]. fold (output_text collected).
  change (l +:+ String "010" (output_text collected))
    with (l +:+ String "010" (output_text collected)).
  by rewrite (splitlines_aux_line l "" _ Hl), IH.
Qed.

Lemma splitlines_aux_no_break n : forall s acc,
  String.length s <= n ->
  all_chars no_break acc = true ->
  Forall (fun l => all_chars no_break l = true) (splitlines_aux acc s).
Proof.
  induction n as [|n IH]; intros s acc Hlen Hacc.
  - destruct s; [|simpl in Hlen; lia]. simpl.
    destruct (PyStr.truthy acc); constructor; [by rewrite all_chars_rev|constructor].
  - destruct s as [|c s'].
    { simpl. destruct (PyStr.truthy acc); constructor; [by rewrite all_chars_rev|constructor]. }
    simpl in Hlen. cbn [splitlines_aux].
    destruct (PyStr.is_char "013" c) eqn:Hcr.
    + destruct s' as [|d s''].
      * constructor; [by rewrite all_chars_rev|]. apply IH; [simpl; lia|done].
      * destruct (PyStr.is_char "010" d);
          (constructor; [by rewrite all_chars_rev|]); apply IH; simpl in *; try lia; done.
    + destruct (is_linebreak c) eqn:Hlb.
      * constructor; [by rewrite all_chars_rev|]. apply IH; [lia|done].
      * apply IH; [lia|]. cbn [all_chars]. rewrite Hacc.
        unfold no_break, is_break. by rewrite Hcr, Hlb.
Qed.

Lemma plan_lines_no_break w plans :
  Forall (fun l => all_chars no_break l = true) (flat_map (plan_lines w) plans).
Proof.
  apply Forall_forall. intros l Hl. apply list_elem_of_In, in_flat_map in Hl as (plan & _ & Hl).
  unfold plan_lines in Hl.
  assert (In l (flat_map (file_lines w) (requirements plan))) as Hin
    by (destruct (status plan); by try done).
  apply in_flat_map in Hin as (req_file & _ & Hin). unfold file_lines in Hin.
  destruct (read_text w req_file) as [text|]; [|done].
  pose proof (splitlines_aux_no_break (String.length text) text "" (le_n _) eq_refl) as H.
  rewrite Forall_forall in H. apply H. by apply list_elem_of_In.
Qed.

(** X7: The requirements file, when it is written, reads back line by line as
    exactly the collected list. *)
Theorem requirements_output_reads_back plans known w :
  let collected := (collect_requirements plans known w).1 in
  splitlines (output_text collected) = collected /\
  forall text, requirements_output (collect_requirements plans known w).2 = Some text ->
               splitlines text = collected.
Proof.
  intros collected.
  assert (splitlines (output_text collected) = collected) as Hback.
  { apply splitlines_output_text, Forall_forall. intros l Hl.
    unfold collected, collect_requirements in Hl. simpl in Hl.
    destruct (collect_lines_distinct known (flat_map (plan_lines w) plans))
      as (entries & Hout & Hsub & _).
    rewrite Hout in Hl. apply map_elem_of in Hl as (e & -> & He).
    apply (elem_of_sublist _ _ _ He) in Hsub.
    apply list_elem_of_omap in Hsub as (line & Hline & Hparse).
    destruct (parse_requirement_line_original line e Hparse) as [-> _].
    apply all_chars_strip_by.
    pose proof (plan_lines_no_break w plans) as Hnb. rewrite Forall_forall in Hnb.
    by apply Hnb. }
  split; [done|]. intros text Htext. rewrite <- Hback.
  unfold collect_requirements in Htext. simpl in Htext.
  change (collect_lines known (flat_map (plan_lines w) plans)) with collected in Htext.
  destruct collected; [done|]. by simplify_eq.
Qed.

End more_aggregation.

(** ** Further properties of the materializer *)

Section more_materialization.
Import Apply Spec Shape.

Lemma StronglySorted_filter {A} (R : relation A) (P : A -> Prop) `{!forall x, Decision (P x)} l :
  StronglySorted R l -> StronglySorted R (filter P l).
Proof.
  induction 1 as [|x l Hl IH Hx]; [constructor|].
  rewrite filter_cons. destruct (decide (P x)); [|done].
  constructor; [done|]. apply Forall_forall. intros y [_ Hy]%list_elem_of_filter.
  rewrite Forall_forall in Hx. by apply Hx.
Qed.

(** X8: Requirement-file discovery returns exactly the regular files of the
    directory whose names start with [requirements]; nothing is found at a
    path that is not a directory; and unless a file is named exactly
    [requirements], the files come in ascending order of name, each once. *)
Theorem find_requirement_files_exact root target (children : gmap string DirEntry) :
  (forall p,
     p ∈ find_requirement_files root target (Some (DirNode children)) <->
     path_root p = root /\ path_slug p = target /\
     PyStr.startswith "requirements" (path_name p) = true /\
     is_file (children !! path_name p) = true) /\
  find_requirement_files root target (Some FileNode) = [] /\
  find_requirement_files root target None = [] /\
  (is_file (children !! "requirements") = false ->
   StronglySorted String.le
     (map path_name (find_requirement_files root target (Some (DirNode children)))) /\
   NoDup (find_requirement_files root target (Some (DirNode children)))).
Proof.
  set (mk := fun name => {| path_root := root; path_slug := target; path_name := name |}).
  assert (forall name, name ∈ glob_requirements children <->
                       is_Some (children !! name) /\
                       PyStr.startswith "requirements" name = true) as Hglob.
  { intros name. unfold glob_requirements, PyStr.sorted.
    rewrite merge_sort_Permutation, list_elem_of_filter, map_elem_of. split.
    - intros (Hpre & [k e] & -> & He%elem_of_map_to_list). split; [by eexists|done].
    - intros ([e He] & Hpre). split; [done|]. exists (name, e).
      split; [done|]. by apply elem_of_map_to_list. }
  assert (forall p,
            p ∈ map mk (filter (fun name => is_file (children !! name) = true)
                               (glob_requirements children)) <->
            path_root p = root /\ path_slug p = target /\
            PyStr.startswith "requirements" (path_name p) = true /\
            is_file (children !! path_name p) = true) as Hres.
  { intros p. rewrite map_elem_of. split.
    - intros (name & -> & [Hfile [_ Hpre]%Hglob]%list_elem_of_filter). done.
    - intros (<- & <- & Hpre & Hfile). exists (path_name p). split; [by destruct p|].
      apply list_elem_of_filter. split; [done|]. apply Hglob. split; [|done].
      destruct (children !! path_name p); [by eexists|done]. }
  split; [|split; [done|split; [done|]]].
  - intros p. unfold find_requirement_files. fold mk.
    destruct (is_file (children !! "requirements")) eqn:Ereq; [|apply Hres].
    rewrite elem_of_app, Hres, list_elem_of_singleton. split; [|by left].
    intros [?| ->]; [done|]. unfold mk. cbn [path_root path_slug path_name].
    by rewrite Ereq.
  - intros Ereq. unfold find_requirement_files. fold mk. rewrite Ereq.
    assert (NoDup (glob_requirements children)) as Hnd.
    { unfold glob_requirements, PyStr.sorted. rewrite merge_sort_Permutation.
      apply NoDup_filter, (NoDup_fst_map_to_list children). }
    split.
    + rewrite map_map. simpl. rewrite map_id.
      apply StronglySorted_filter. unfold glob_requirements, PyStr.sorted.
      apply StronglySorted_merge_sort; apply _.
    + apply (NoDup_filter (fun name => is_file (children !! name) = true)) in Hnd.
      revert Hnd. generalize (filter (fun name => is_file (children !! name) = true)
                                     (glob_requirements children)).
      intros l. induction 1 as [|x l Hx Hl IH]; simpl; constructor; [|done].
      intros (y & Heq & Hy)%map_elem_of. unfold mk in Heq. by simplify_eq.
Qed.

(** what one call keeps of the plan and of the tree *)
Lemma clone_plugin_keeps git root plan w :
  let plan' := (clone_plugin git root plan w).1 in
  let w' := (clone_plugin git root plan w).2 in
  repo_url plan' = repo_url plan /\ slug plan' = slug plan /\
  (forall t node, fs w !! t = Some node -> fs w' !! t = Some node).
Proof.
  unfold clone_plugin.
  destruct (repo_url plan) as [url|] eqn:Eurl; [destruct (slug plan) as [target|] eqn:Eslug|];
    [|done..].
  destruct (fs w !! target) as [node|] eqn:Enode; [done|].
  destruct (git url target) as [tree| |stderr [tree|]]; simpl; repeat split; try done.
  all: intros t node Ht; rewrite lookup_insert_ne; [done|]; intros ->; congruence.
Qed.

(** X9: Materializing one plan keeps the plan's id, nodes, URL, slug and
    reason, and never leaves it [planned].  It keeps every entry that exists
    under the custom-node root, the requirements output and the summary; it
    runs at most one clone command, and only for a target that does not
    exist; it changes nothing under the root but the plan's own target, and
    nothing at all when it runs no clone command; and a plan is [cloned]
    only if its target did not exist before and is a directory after. *)
Theorem clone_plugin_frame git root plan w :
  let plan' := (clone_plugin git root plan w).1 in
  let w' := (clone_plugin git root plan w).2 in
  (plugin_id plan' = plugin_id plan /\ nodes plan' = nodes plan /\
   repo_url plan' = repo_url plan /\ slug plan' = slug plan /\
   reason plan' = reason plan) /\
  status plan' <> planned /\
  (forall t node, fs w !! t = Some node -> fs w' !! t = Some node) /\
  requirements_output w' = requirements_output w /\
  summary_output w' = summary_output w /\
  (git_calls w' = git_calls w \/
   exists url target, repo_url plan = Some url /\ slug plan = Some target /\
                      fs w !! target = None /\
                      git_calls w' = (git_calls w ++ [(url, target)])%list) /\
  (forall t, slug plan <> Some t -> fs w' !! t = fs w !! t) /\
  (git_calls w' = git_calls w -> fs w' = fs w) /\
  (status plan' = cloned ->
   exists target tree, slug plan = Some target /\ fs w !! target = None /\
                       fs w' !! target = Some (DirNode tree)).
Proof.
  assert (forall (l : list (string * string)) x, l = (l ++ [x])%list -> False) as Hgrow.
  { intros l x H. apply (f_equal length) in H. rewrite length_app in H. simpl in H. lia. }
  unfold clone_plugin.
  destruct (repo_url plan) as [url|] eqn:Eurl; [destruct (slug plan) as [target|] eqn:Eslug|].
  - destruct (fs w !! target) as [node|] eqn:Enode.
    + simpl. repeat split; try done. by left.
    + destruct (git url target) as [tree| |stderr [tree|]]; simpl.
      all: repeat split; try done.
      all: try (intros t node Ht; rewrite lookup_insert_ne; [done|]; intros ->; congruence).
      all: try (right; by exists url, target).
      all: try (intros t Ht; rewrite lookup_insert_ne; [done|]; congruence).
      all: try (intros H; symmetry in H; by apply Hgrow in H).
      intros _. exists target, tree. by rewrite lookup_insert_eq.
  - simpl. repeat split; try done. by left.
  - simpl. repeat split; try done. by left.
Qed.

End more_materialization.

(** ** Further properties of [main] *)

Section more_main.
Import Apply Spec Shape.

Lemma process_plan_outcome git root st plan :
  let st' := process_plan git root st plan in
  (forall t node, fs (world st) !! t = Some node -> fs (world st') !! t = Some node) /\
  exists u,
    processed_plans st' = (processed_plans st ++ [u])%list /\
    missing_repos st' = missing_repos st + length (List.filter no_url [u]) /\
    clone_failures st' = clone_failures st + length (List.filter failed_plan [u]) /\
    repo_url u = repo_url plan /\ slug u = slug plan /\
    (no_url u = false -> failed_plan u = false -> is_Some (slug u) -> materialized (world st') u).
Proof.
  pose proof (clone_plugin_keeps git root plan (world st)) as Hframe.
  pose proof (clone_plugin_requirements git root plan (world st)) as Hreq.
  unfold process_plan. cbn zeta in *.
  destruct (clone_plugin git root plan (world st)) as [u w1] eqn:E. simpl in *.
  destruct Hframe as (Hurl & Hslug & Hkeep).
  split; [done|]. exists u. split; [done|].
  unfold no_url, failed_plan, materialized. rewrite Hurl, Hslug.
  destruct (repo_url plan) as [url|] eqn:Eurl.
  - destruct (status u) eqn:Est; simpl; (split; [lia|]); (split; [lia|]);
      (split; [done|]); (split; [done|]); intros _ Hf [target Ht]; try done.
    all: rewrite Ht in *; destruct (Hreq url target eq_refl eq_refl) as [?|(Hst & Hdir & _)];
      [congruence|]; split; [done|by exists target].
  - simpl. split; [lia|]. split; [lia|]. done.
Qed.

Lemma process_fold_outcomes git root plans : forall st,
  let st' := fold_left (process_plan git root) plans st in
  (forall t node, fs (world st) !! t = Some node -> fs (world st') !! t = Some node) /\
  exists updated,
    processed_plans st' = (processed_plans st ++ updated)%list /\
    missing_repos st' = missing_repos st + length (List.filter no_url updated) /\
    clone_failures st' = clone_failures st + length (List.filter failed_plan updated) /\
    map repo_url updated = map repo_url plans /\ map slug updated = map slug plans /\
    Forall (fun u => no_url u = false -> failed_plan u = false -> is_Some (slug u) ->
                     materialized (world st') u) updated.
Proof.
  induction plans as [|plan plans IH]; intros st; cbn zeta; simpl.
  - split; [done|]. exists []. rewrite app_nil_r. simpl. repeat split; try lia; done.
  - destruct (process_plan_outcome git root st plan) as (Hk1 & u & Hp1 & Hm1 & Hf1 & Hu & Hs & Hmat).
    destruct (IH (process_plan git root st plan)) as (Hk2 & updated & Hp2 & Hm2 & Hf2 & Hurls & Hslugs & Hall).
    cbn zeta in *. split; [auto|].
    exists (u :: updated). rewrite Hp2, Hp1, Hm2, Hm1, Hf2, Hf1, <- app_assoc. simpl.
    split; [done|]. split; [destruct (no_url u); simpl; lia|].
    split; [destruct (failed_plan u); simpl; lia|].
    split; [by rewrite Hu, Hurls|]. split; [by rewrite Hs, Hslugs|].
    constructor; [|done]. intros H1 H2 H3.
    destruct (Hmat H1 H2 H3) as (Hst & target & Ht & [node Hnode]).
    split; [done|]. exists target. split; [done|]. exists node. by apply Hk2.
Qed.

Lemma slugs_first_free_has_slug plans : forall used,
  slugs_first_free used plans ->
  Forall (fun p => is_Some (repo_url p) -> is_Some (slug p)) plans.
Proof.
  induction plans as [|plan plans IH]; intros used H; [constructor|].
  simpl in H. destruct (repo_url plan) as [url|] eqn:Eurl.
  - destruct H as (s & Hs & _ & Hrest). constructor; [|by eapply IH].
    rewrite Hs. eauto.
  - destruct H as [_ Hrest]. constructor; [|by eapply IH]. rewrite Eurl. by intros [? ?].
Qed.

Lemma has_slug_transfer plans : forall updated,
  map repo_url updated = map repo_url plans ->
  map slug updated = map slug plans ->
  Forall (fun p => is_Some (repo_url p) -> is_Some (slug p)) plans ->
  Forall (fun p => is_Some (repo_url p) -> is_Some (slug p)) updated.
Proof.
  induction plans as [|plan plans IH]; intros [|u updated] Hu Hs Hall;
    try done.
  simpl in Hu, Hs. injection Hu as Hu1 Hu2. injection Hs as Hs1 Hs2.
  apply Forall_cons in Hall as [Hp Hall]. constructor; [|by apply IH].
  by rewrite Hu1, Hs1.
Qed.

(** X10: [main] never alters or removes an entry that already exists under the
    custom-node root. *)
Theorem main_keeps_existing_entries git args w code w' :
  main git args w = Some (code, w') ->
  forall t node, fs w !! t = Some node -> fs w' !! t = Some node.
Proof.
  unfold main. destruct (arg_deps args) as [| |deps]; [by intros; simplify_eq..|].
  destruct (plan_plugins deps) as [[plans unresolved_nodes]|]; [|done]. simpl.
  destruct plans as [|plan plans]; [by intros; simplify_eq|].
  set (st0 := {| processed_plans := []; missing_repos := 0; clone_failures := 0; world := w |}).
  destruct (process_fold_outcomes git (arg_custom_node_root args) (plan :: plans) st0)
    as [Hkeep _].
  intros Hmain t node Ht. apply (Hkeep t node) in Ht. cbn zeta in Ht.
  unfold collect_requirements in Hmain. simpl in Hmain.
  by destruct (_ || _); simplify_eq.
Qed.

Lemma main_keeps_existing_entries_witness :
  let w := {| fs := {[ "kept" := FileNode ]}; git_calls := [];
              requirements_output := None; summary_output := None |} in
  let args := {| arg_deps := DepsLoaded
                   {| deps_plugins := [ {| group_id := "https://example.com/kept";
                                           group_nodes := []; group_metadata := None |} ];
                      deps_unresolved_nodes := [] |};
                 arg_custom_node_root := "custom_nodes";
                 arg_pak3 := Absent; arg_pak7 := Absent |} in
  exists w', main (fun _ _ => GitNotFound) args w = Some (0, w') /\
             fs w' !! "kept" = Some FileNode.
Proof.
  intros w args. eexists. split; [vm_compute; reflexivity|].
  eapply (main_keeps_existing_entries (fun _ _ => GitNotFound) args w 0);
    [vm_compute; reflexivity|reflexivity].
Defined.

(** X11: When [main] ends with status 0 on a loaded manifest, the summary lists
    one entry per plugin group and every entry is [cloned] or [skipped]
    with a slug that names an existing entry under the custom-node root. *)
Theorem main_success_materialized git args deps w w' :
  arg_deps args = DepsLoaded deps ->
  main git args w = Some (0, w') ->
  exists summary,
    summary_output w' = Some summary /\
    length (workflow_plugins summary) = length (deps_plugins deps) /\
    forall sp, sp ∈ workflow_plugins summary ->
      (sp_status sp = cloned \/ sp_status sp = skipped) /\
      exists target, sp_slug sp = Some target /\ is_Some (fs w' !! target).
Proof.
  intros Hdeps. unfold main, plan_plugins. rewrite Hdeps.
  destruct (plan_loop_spec (deps_plugins deps) ∅) as (plans & -> & Hurls & Hfree). simpl.
  assert (length plans = length (deps_plugins deps)) as Hlen.
  { by rewrite <- (length_map repo_url), Hurls, length_map. }
  destruct plans as [|plan plans].
  { intros ?; simplify_eq. eexists. split; [done|]. split; [done|].
    intros sp H. by apply elem_of_nil in H. }
  set (st0 := {| processed_plans := []; missing_repos := 0; clone_failures := 0; world := w |}).
  destruct (process_fold_outcomes git (arg_custom_node_root args) (plan :: plans) st0)
    as (_ & updated & Hproc & Hmiss & Hfail & Hu & Hs & Hmat).
  cbn zeta in *. set (st := fold_left _ (plan :: plans) st0) in *.
  change (fold_left (process_plan git (arg_custom_node_root args)) plans
            (process_plan git (arg_custom_node_root args) st0 plan)) with st.
  unfold collect_requirements. simpl.
  destruct ((0 <? missing_repos st) || (0 <? clone_failures st))%nat eqn:Ecode;
    [intros ?; simplify_eq|].
  apply orb_false_iff in Ecode as [Em Ef%Nat.ltb_ge]. apply Nat.ltb_ge in Em.
  simpl in Hmiss, Hfail, Hproc.
  intros [= <-]. eexists. split; [done|]. simpl. rewrite Hproc, length_map.
  split; [by rewrite <- (length_map repo_url), Hu, length_map|].
  intros sp (u & -> & Hin)%map_elem_of. simpl.
  assert (no_url u = false) as Hnu.
  { destruct (no_url u) eqn:E; [|done].
    assert (0 < length (List.filter no_url updated)) by (apply filter_length_pos; eauto). lia. }
  assert (failed_plan u = false) as Hnf.
  { destruct (failed_plan u) eqn:E; [|done].
    assert (0 < length (List.filter failed_plan updated)) by (apply filter_length_pos; eauto). lia. }
  rewrite Forall_forall in Hmat.
  pose proof (has_slug_transfer _ _ Hu Hs (slugs_first_free_has_slug _ _ Hfree)) as Hslug.
  rewrite Forall_forall in Hslug.
  apply (Hmat u Hin Hnu Hnf). apply (Hslug u Hin).
  unfold no_url in Hnu. destruct (repo_url u); [by eexists|done].
Qed.

Lemma main_success_materialized_witness :
  let tree : gmap string DirEntry := {[ "requirements.txt" := RegularFile (Some "torch") ]} in
  let w := {| fs := ∅; git_calls := []; requirements_output := None; summary_output := None |} in
  let deps := {| deps_plugins := [ {| group_id := "https://example.com/plugin";
                                      group_nodes := ["Node"]; group_metadata := None |} ];
                 deps_unresolved_nodes := [] |} in
  let args := {| arg_deps := DepsLoaded deps; arg_custom_node_root := "custom_nodes";
                 arg_pak3 := Absent; arg_pak7 := Absent |} in
  exists w' summary,
    main (fun _ _ => GitOk tree) args w = Some (0, w') /\
    summary_output w' = Some summary /\
    length (workflow_plugins summary) = 1.
Proof.
  intros tree w deps args.
  assert (exists w', main (fun _ _ => GitOk tree) args w = Some (0, w')) as [w' Hmain]
    by (eexists; vm_compute; reflexivity).
  destruct (main_success_materialized (fun _ _ => GitOk tree) args deps w w' eq_refl Hmain)
    as (summary & Hs & Hlen & _).
  exists w', summary. split; [exact Hmain|]. split; [exact Hs|exact Hlen].
Defined.

End more_main.

(** ** Further properties of the plan builder *)

Section more_plans.
Import Apply Spec Shape.

Lemma metadata_loop_reason metadata keys : forall r0,
  r0 = None ->
  (metadata_loop metadata keys r0 = (None, None)) \/
  exists url key, key ∈ keys /\
    metadata_loop metadata keys r0 = (Some url, Some ("metadata." +:+ key)).
Proof.
  induction keys as [|key keys IH]; intros r0 ->; [by left|].
  cbn [metadata_loop].
  destruct (normalize_git_url (str_or_none (Dict.get key metadata))) as [u|] eqn:E.
  - right. exists u, key. split; [apply elem_of_cons; by left|].
    simpl. by rewrite (normalize_git_url_truthy _ _ E).
  - simpl. destruct (IH None eq_refl) as [->|(url & k & Hk & ->)]; [by left|].
    right. exists url, k. split; [apply elem_of_cons; by right|done].
Qed.

Lemma derive_repo_reason entry :
  ((derive_repo entry).2 = None <-> (derive_repo entry).1 = None) /\
  forall r, (derive_repo entry).2 = Some r ->
            r = "plugin_id" \/ exists key, key ∈ metadata_keys /\ r = "metadata." +:+ key.
Proof.
  unfold derive_repo.
  assert (forall r reason,
            (r = None /\ reason = None) \/
            (exists url key, key ∈ metadata_keys /\ r = Some url /\
                             reason = Some ("metadata." +:+ key)) ->
            let out := match r with
                       | None =>
                           let r' := normalize_git_url (Some (PyStr.strip (group_id entry))) in
                           (r', if opt_truthy r' then Some "plugin_id" else reason)
                       | Some _ => (r, reason)
                       end in
            (out.2 = None <-> out.1 = None) /\
            forall x, out.2 = Some x ->
                      x = "plugin_id" \/
                      exists key, key ∈ metadata_keys /\ x = "metadata." +:+ key) as Hcase.
  { intros r reason [[-> ->]|(url & key & Hk & -> & ->)]; cbn zeta.
    - destruct (normalize_git_url _) as [u|] eqn:E; simpl.
      + rewrite (normalize_git_url_truthy _ _ E). split; [done|].
        intros x [= <-]. by left.
      + done.
    - simpl. split; [done|]. intros x [= <-]. right. by exists key. }
  destruct (group_metadata entry) as [metadata|].
  - destruct (metadata_loop_reason metadata metadata_keys None eq_refl)
      as [->|(url & key & Hk & ->)].
    + apply (Hcase None None). by left.
    + apply (Hcase (Some url) (Some ("metadata." +:+ key))). right. by exists url, key.
  - apply (Hcase None None). by left.
Qed.

(** X12: The Plan Builder makes one plan per manifest group, in order.  A plan's
    id is the trimmed group id, or the placeholder when that is empty, so it
    is never empty; the nodes are the group's; the plan starts [planned],
    without message and without requirement files; it has a reason exactly
    when it has a URL, and the reason is [plugin_id] or [metadata.] followed
    by one of the six metadata keys. *)
Theorem plan_plugins_shape deps :
  exists plans,
    plan_plugins deps = Some (plans, deps_unresolved_nodes deps) /\
    Forall2
      (fun entry plan =>
         plugin_id plan <> "" /\
         (plugin_id plan = PyStr.strip (group_id entry) \/
          (PyStr.strip (group_id entry) = "" /\ plugin_id plan = "<unknown>")) /\
         nodes plan = group_nodes entry /\
         status plan = planned /\ message plan = None /\ requirements plan = [] /\
         (reason plan = None <-> repo_url plan = None) /\
         forall r, reason plan = Some r ->
                   r = "plugin_id" \/
                   exists key, key ∈ metadata_keys /\ r = "metadata." +:+ key)
      (deps_plugins deps) plans.
Proof.
  unfold plan_plugins.
  assert (forall entries used, exists plans,
            plan_loop entries used = Some plans /\
            Forall2
              (fun entry plan =>
                 plugin_id plan <> "" /\
                 (plugin_id plan = PyStr.strip (group_id entry) \/
                  (PyStr.strip (group_id entry) = "" /\ plugin_id plan = "<unknown>")) /\
                 nodes plan = group_nodes entry /\
                 status plan = planned /\ message plan = None /\ requirements plan = [] /\
                 (reason plan = None <-> repo_url plan = None) /\
                 forall r, reason plan = Some r ->
                           r = "plugin_id" \/
                           exists key, key ∈ metadata_keys /\ r = "metadata." +:+ key)
              entries plans) as Hloop.
  { induction entries as [|entry entries IH]; intros used; simpl.
    - exists []. split; [done|constructor].
    - pose proof (derive_repo_reason entry) as [Hreason Hform].
      pose proof (plan_entry_spec entry used) as (plan & used' & Hplan & _).
      rewrite Hplan. simpl. destruct (IH used') as (plans & -> & Hall). simpl.
      exists (plan :: plans). split; [done|]. constructor; [|done].
      unfold plan_entry in Hplan.
      destruct (derive_repo entry) as [r reason0]. simpl in Hreason, Hform.
      destruct (match r with
                | Some url => if PyStr.truthy url
                              then '(s, used0) ← derive_slug url used; Some (Some s, used0)
                              else Some (None, used)
                | None => Some (None, used)
                end) as [slug_used|]; [|done].
      simpl in Hplan. injection Hplan as <- _. simpl.
      destruct (PyStr.strip (group_id entry)) as [|c rest] eqn:Eid; simpl.
      + split; [done|]. split; [by right|]. done.
      + split; [done|]. split; [by left|]. done. }
  destruct (Hloop (deps_plugins deps) ∅) as (plans & -> & Hall). by exists plans.
Qed.

End more_plans.

(** ** Further properties of the resolver *)

Section more_resolver.
Import Generate Spec Shape.

Lemma sorted_strings l :
  StronglySorted String.le (PyStr.sorted l) /\ PyStr.sorted l ≡ₚ l.
Proof.
  unfold PyStr.sorted. split; [|apply merge_sort_Permutation].
  apply StronglySorted_merge_sort; apply _.
Qed.

Lemma sorted_elements (ns : gset string) :
  StronglySorted String.le (PyStr.sorted (elements ns)) /\
  NoDup (PyStr.sorted (elements ns)) /\
  (ns <> ∅ -> PyStr.sorted (elements ns) <> []).
Proof.
  destruct (sorted_strings (elements ns)) as [Hs Hp]. split; [done|]. split.
  - rewrite Hp. apply NoDup_elements.
  - intros Hne Hnil. rewrite Hnil in Hp. symmetry in Hp.
    apply Permutation_nil_r, elements_empty_iff in Hp. apply Hne. by apply leibniz_equiv.
Qed.

(** every entry of [plugins] has a node and carries the catalog's metadata
    for its id *)
Lemma resolve_fold_entries builtin_nodes builtin_patterns cat plugin_overrides names :
  forall acc,
    (forall pid entry, plugins acc !! pid = Some entry ->
                       entry.1 <> ∅ /\ entry.2 = default [] (plugin_metadata cat !! pid)) ->
    forall pid entry,
      plugins (fold_left (resolve_step builtin_nodes builtin_patterns cat plugin_overrides)
                         names acc) !! pid = Some entry ->
      entry.1 <> ∅ /\ entry.2 = default [] (plugin_metadata cat !! pid).
Proof.
  induction names as [|name names IH]; intros acc Hacc; [done|].
  simpl. apply IH. intros pid entry. unfold resolve_step.
  destruct (is_builtin builtin_nodes builtin_patterns name); [apply Hacc|].
  destruct (resolve_node cat plugin_overrides name) as [p|]; simpl; [|apply Hacc].
  destruct (decide (p = pid)) as [->|Hne].
  - rewrite lookup_insert_eq. intros [= <-]. simpl. split.
    + intros Hempty. assert (name ∈ ({[name]} ∪ (default (∅, default [] (plugin_metadata cat !! pid)) (plugins acc !! pid)).1 : gset string)) as Hin
        by (apply elem_of_union; left; by apply elem_of_singleton).
      rewrite Hempty in Hin. by apply not_elem_of_empty in Hin.
    + destruct (plugins acc !! pid) as [old|] eqn:Eold; simpl; [|done].
      by apply (Hacc pid old).
  - rewrite lookup_insert_ne by done. apply Hacc.
Qed.

Lemma key_le_sorted_ids {V} (l : list (string * V)) :
  StronglySorted key_le l -> StronglySorted String.le (map fst l).
Proof.
  induction 1 as [|x l Hl IH Hx]; simpl; constructor; [done|].
  apply Forall_forall. intros k (y & -> & Hy)%map_elem_of.
  rewrite Forall_forall in Hx. by apply Hx.
Qed.

(** X13: The resolver's result is ordered and free of repetition: the
    plugin ids ascend and are pairwise distinct, every group lists at least
    one node, its nodes ascend without repetition, and so do the unresolved
    names. *)
Theorem resolve_dependencies_sorted workflow_nodes builtin_nodes builtin_patterns cat
    plugin_overrides :
  let out := resolve_dependencies workflow_nodes builtin_nodes builtin_patterns cat
               plugin_overrides in
  StronglySorted String.le (map group_id out.1) /\
  NoDup (map group_id out.1) /\
  Forall (fun group => group_nodes group <> [] /\
                       StronglySorted String.le (group_nodes group) /\
                       NoDup (group_nodes group)) out.1 /\
  StronglySorted String.le out.2 /\ NoDup out.2.
Proof.
  unfold resolve_dependencies. cbn zeta. cbn [fst snd].
  set (res := fold_left _ _ _).
  set (items := merge_sort key_le (map_to_list (plugins res))).
  assert (items ≡ₚ map_to_list (plugins res)) as Hperm by apply merge_sort_Permutation.
  assert (map group_id (map plugin_entry items) = map fst items) as Hids.
  { rewrite map_map. by apply map_ext. }
  rewrite Hids. split; [|split; [|split]].
  - apply key_le_sorted_ids. apply StronglySorted_merge_sort; apply _.
  - rewrite (Permutation_map fst Hperm). apply (NoDup_fst_map_to_list (plugins res)).
  - apply Forall_forall. intros group (item & -> & Hitem)%map_elem_of.
    rewrite Hperm in Hitem. destruct item as [pid entry].
    apply elem_of_map_to_list in Hitem.
    destruct (resolve_fold_entries builtin_nodes builtin_patterns cat plugin_overrides
                (PyStr.sorted (elements workflow_nodes)) {| plugins := ∅; unresolved := ∅ |})
      with (pid := pid) (entry := entry) as [Hne _]; [|done|].
    { intros ? ? H. simpl in H. by rewrite lookup_empty in H. }
    unfold plugin_entry. simpl.
    destruct (sorted_elements entry.1) as (Hs & Hnd & Hnil). auto.
  - destruct (sorted_elements (unresolved res)) as (Hs & Hnd & _). done.
Qed.

(** X14: A group of the result carries the catalog's merged metadata for
    its plugin id, and carries no metadata when the catalog has none for the
    id or has an empty one. *)
Theorem resolve_dependencies_metadata workflow_nodes builtin_nodes builtin_patterns cat
    plugin_overrides group :
  group ∈ (resolve_dependencies workflow_nodes builtin_nodes builtin_patterns cat
             plugin_overrides).1 ->
  group_metadata group
  = match plugin_metadata cat !! group_id group with
    | Some (kv :: metadata) => Some (kv :: metadata)
    | _ => None
    end.
Proof.
  unfold resolve_dependencies. cbn zeta. cbn [fst].
  set (res := fold_left _ _ _).
  intros (item & -> & Hitem)%map_elem_of.
  rewrite merge_sort_Permutation in Hitem. destruct item as [pid entry].
  apply elem_of_map_to_list in Hitem.
  destruct (resolve_fold_entries builtin_nodes builtin_patterns cat plugin_overrides
              (PyStr.sorted (elements workflow_nodes)) {| plugins := ∅; unresolved := ∅ |})
    with (pid := pid) (entry := entry) as [_ Hmeta]; [|done|].
  { intros ? ? H. simpl in H. by rewrite lookup_empty in H. }
  unfold plugin_entry. simpl. rewrite Hmeta.
  by destruct (plugin_metadata cat !! pid) as [[|kv metadata]|].
Qed.

Lemma resolve_dependencies_metadata_witness :
  let cat := {| node_to_plugins := {[ "Node" := ["P"] ]};
                plugin_metadata := {[ "P" := [("title", JStr "Plugin")] ]};
                preemption_map := ∅; pattern_entries := []; comfy_nodes := ∅ |} in
  let group := {| group_id := "P"; group_nodes := ["Node"];
                  group_metadata := Some [("title", JStr "Plugin")] |} in
  group_metadata group = Some [("title", JStr "Plugin")].
Proof.
  intros cat group.
  assert (group ∈ (resolve_dependencies {[ "Node" ]} ∅ [] cat ∅).1) as Hin
    by (vm_compute; apply elem_of_cons; by left).
  exact (resolve_dependencies_metadata {[ "Node" ]} ∅ [] cat ∅ group Hin).
Defined.

End more_resolver.

(** ** Further properties of the catalog builder *)

Section more_catalog.
Import Generate Spec Shape.

Lemma dict_get_setdefault {V} k k' (v : V) d :
  Dict.get k (Dict.setdefault k' v d)
  = match Dict.get k d with
    | Some x => Some x
    | None => if decide (k = k') then Some v else None
    end.
Proof.
  unfold Dict.setdefault, Dict.mem.
  destruct (Dict.get k' d) as [x'|] eqn:E'.
  - destruct (Dict.get k d) eqn:E; [done|]. destruct (decide (k = k')); [congruence|done].
  - rewrite dict_get_set. destruct (decide (k = k')) as [->|]; [by rewrite E'|].
    by destruct (Dict.get k d).
Qed.

(** X15: Directory fields never override catalog metadata: a key the
    catalog metadata holds, even with a null value, keeps its value in the
    combined metadata; a key it does not hold can only appear if it is one
    of the six directory fields; and without a directory entry the metadata
    is taken as it is. *)
Theorem combined_metadata_catalog_first custom_catalog raw_plugin_id metadata :
  (forall k v, Dict.get k metadata = Some v ->
               Dict.get k (combined_metadata custom_catalog raw_plugin_id metadata) = Some v) /\
  (forall k, Dict.get k metadata = None -> k ∉ directory_fields ->
             Dict.get k (combined_metadata custom_catalog raw_plugin_id metadata) = None) /\
  (custom_entry custom_catalog raw_plugin_id = None ->
   combined_metadata custom_catalog raw_plugin_id metadata = metadata).
Proof.
  unfold combined_metadata.
  destruct (custom_entry custom_catalog raw_plugin_id) as [entry|]; [|done].
  cbn zeta. set (m4 := Dict.setdefault "install_type" _ _).
  set (m5 := if json_truthy _ && negb _ then Dict.set _ _ m4 else m4).
  assert (forall k, Dict.get k m4
                    = match Dict.get k metadata with
                      | Some x => Some x
                      | None => Dict.get k m4
                      end) as H4.
  { intros k. unfold m4. rewrite !dict_get_setdefault. by destruct (Dict.get k metadata). }
  assert (forall k, Dict.get k m5
                    = match Dict.get k metadata with
                      | Some x => Some x
                      | None => Dict.get k m5
                      end) as H5.
  { intros k. unfold m5. destruct (_ && _) eqn:E; [|apply H4].
    apply andb_true_iff in E as [_ Hmem%negb_true_iff]. unfold Dict.mem in Hmem.
    rewrite dict_get_set. destruct (decide (k = "description")) as [->|]; [|apply H4].
    destruct (Dict.get "description" metadata) eqn:Ed; [|done].
    rewrite H4, Ed in Hmem. done. }
  assert (forall k, k ∉ directory_fields -> Dict.get k metadata = None -> Dict.get k m5 = None) as H5'.
  { intros k Hk Hnone.
    assert (forall f, f ∈ directory_fields -> k <> f) as Hne by (intros f Hf ->; done).
    unfold m5. assert (Dict.get k m4 = None) as Hm4.
    { unfold m4. rewrite !dict_get_setdefault, Hnone.
      rewrite !decide_False; [done|apply Hne; unfold directory_fields..];
        repeat (first [apply elem_of_cons; left; reflexivity | apply elem_of_cons; right]). }
    destruct (_ && _); [|done]. rewrite dict_get_set, decide_False; [done|].
    apply Hne. unfold directory_fields.
    repeat (first [apply elem_of_cons; left; reflexivity | apply elem_of_cons; right]). }
  split; [|split; [|done]].
  - intros k v Hk. destruct (Dict.get_json "files" entry);
      rewrite ?dict_get_setdefault; rewrite H5, Hk; done.
  - intros k Hnone Hk. destruct (Dict.get_json "files" entry);
      rewrite ?dict_get_setdefault, ?(H5' k Hk Hnone); try done.
    rewrite decide_False; [done|]. intros ->. apply Hk. unfold directory_fields.
    repeat (first [apply elem_of_cons; left; reflexivity | apply elem_of_cons; right]).
Qed.

Lemma catalog_fold_patterns re_compile custom_catalog raw_data : forall acc,
  pattern_entries (fold_left (catalog_step re_compile custom_catalog) raw_data acc)
  = (pattern_entries acc ++ flat_map (declared_pattern re_compile custom_catalog) raw_data)%list.
Proof.
  induction raw_data as [|[raw value] raw_data IH]; intros acc; simpl.
  - by rewrite app_nil_r.
  - rewrite IH. simpl. unfold add_pattern, declared_pattern. simpl.
    destruct (Dict.get "nodename_pattern" (entry_metadata value)) as [[| | |p| |]|];
      rewrite ?app_nil_r; try done.
    destruct (PyStr.truthy p); [|done].
    destruct (re_compile p); [by rewrite <- app_assoc|done].
Qed.

Lemma catalog_fold_rest re_compile re_compile' custom_catalog raw_data : forall acc acc',
  node_to_plugins acc = node_to_plugins acc' ->
  plugin_metadata acc = plugin_metadata acc' ->
  preemption_map acc = preemption_map acc' ->
  comfy_nodes acc = comfy_nodes acc' ->
  let c := fold_left (catalog_step re_compile custom_catalog) raw_data acc in
  let c' := fold_left (catalog_step re_compile' custom_catalog) raw_data acc' in
  node_to_plugins c = node_to_plugins c' /\ plugin_metadata c = plugin_metadata c' /\
  preemption_map c = preemption_map c' /\ comfy_nodes c = comfy_nodes c'.
Proof.
  induction raw_data as [|[raw value] raw_data IH]; intros acc acc' H1 H2 H3 H4; [done|].
  simpl. apply IH; simpl; by rewrite ?H1, ?H2, ?H3, ?H4.
Qed.

(** X16: A pattern that does not compile is dropped and nothing else is
    lost: the pattern list holds, in catalog order, the compiled pattern of
    every entry that declares a non-empty one that compiles, paired with the
    entry's canonical id; and the provider lists, the metadata, the
    preemption map and the built-in names do not depend on which patterns
    compile. *)
Theorem invalid_pattern_only_dropped re_compile re_compile' raw_data custom_catalog :
  let c := load_extension_node_map re_compile raw_data custom_catalog in
  let c' := load_extension_node_map re_compile' raw_data custom_catalog in
  pattern_entries c = flat_map (declared_pattern re_compile custom_catalog) raw_data /\
  node_to_plugins c = node_to_plugins c' /\ plugin_metadata c = plugin_metadata c' /\
  preemption_map c = preemption_map c' /\ comfy_nodes c = comfy_nodes c'.
Proof.
  unfold load_extension_node_map. split.
  - by rewrite catalog_fold_patterns.
  - by apply catalog_fold_rest.
Qed.

Lemma fold_insert_lookup (cid : string) l : forall (m : gmap string string) n,
  fold_left (fun acc entry => <[entry := cid]> acc) l m !! n
  = if decide (n ∈ l) then Some cid else m !! n.
Proof.
  induction l as [|x l IH]; intros m n; simpl.
  - destruct (decide (n ∈ [])) as [H|]; [by apply elem_of_nil in H|done].
  - rewrite IH. destruct (decide (n ∈ l)) as [Hin|Hout].
    + rewrite decide_True; [done|apply elem_of_cons; by right].
    + destruct (decide (x = n)) as [->|Hne].
      * rewrite lookup_insert_eq, decide_True; [done|apply elem_of_cons; by left].
      * rewrite lookup_insert_ne by done. rewrite decide_False; [done|].
        intros [?|?]%elem_of_cons; congruence.
Qed.

Lemma add_preemptions_lookup cid value m n :
  add_preemptions cid (Dict.get "preemptions" (entry_metadata value)) m !! n
  = if decide (n ∈ preempted_names value) then Some cid else m !! n.
Proof.
  unfold add_preemptions, preempted_names.
  destruct (Dict.get "preemptions" (entry_metadata value)) as [[| | | |items|]|];
    try (destruct (decide (n ∈ [])) as [H|]; [by apply elem_of_nil in H|done]).
  apply fold_insert_lookup.
Qed.

Lemma catalog_fold_preemption_none re_compile custom_catalog raw_data n : forall acc,
  (forall item, item ∈ raw_data -> n ∉ preempted_names item.2) ->
  preemption_map (fold_left (catalog_step re_compile custom_catalog) raw_data acc) !! n
  = preemption_map acc !! n.
Proof.
  induction raw_data as [|[raw value] raw_data IH]; intros acc Hnone; [done|].
  simpl. rewrite IH by (intros item Hitem; apply Hnone, elem_of_cons; by right).
  cbn [catalog_step preemption_map]. rewrite add_preemptions_lookup.
  rewrite decide_False; [done|].
  apply (Hnone (raw, value)). apply elem_of_cons. by left.
Qed.

(** X17: The preemption map gives a node name the canonical id of the last
    catalog entry that preempts it, and nothing when no entry does. *)
Theorem preemption_last_entry_wins re_compile custom_catalog raw_data n :
  (forall before raw value after,
     raw_data = (before ++ (raw, value) :: after)%list ->
     n ∈ preempted_names value ->
     (forall item, item ∈ after -> n ∉ preempted_names item.2) ->
     preemption_map (load_extension_node_map re_compile raw_data custom_catalog) !! n
       = Some (canonical_id custom_catalog raw)) /\
  ((forall item, item ∈ raw_data -> n ∉ preempted_names item.2) ->
   preemption_map (load_extension_node_map re_compile raw_data custom_catalog) !! n = None).
Proof.
  unfold load_extension_node_map. split.
  - intros before raw value after -> Hin Hafter.
    rewrite fold_left_app. cbn [fold_left].
    rewrite (catalog_fold_preemption_none _ _ _ _ _ Hafter).
    cbn [catalog_step preemption_map]. rewrite add_preemptions_lookup.
    by rewrite decide_True.
  - intros Hnone. by rewrite (catalog_fold_preemption_none _ _ _ _ _ Hnone).
Qed.

Lemma add_providers_keep cid names : forall (m : gmap string (list string)) n p,
  first_provider (m !! n) = Some p ->
  first_provider (add_providers cid names m !! n) = Some p.
Proof.
  unfold add_providers.
  induction names as [|name names IH]; intros m n p Hp; [done|].
  simpl. apply IH. destruct (PyStr.truthy (PyStr.strip name)); [|done].
  destruct (decide (PyStr.strip name = n)) as [->|Hne].
  - rewrite lookup_insert_eq.
    destruct (m !! n) as [[|q l]|]; simpl in *; try done.
  - by rewrite lookup_insert_ne.
Qed.

Lemma add_providers_other cid names : forall (m : gmap string (list string)) n,
  n ∉ List.filter PyStr.truthy (map PyStr.strip names) ->
  add_providers cid names m !! n = m !! n.
Proof.
  unfold add_providers.
  induction names as [|name names IH]; intros m n Hn; [done|].
  simpl in *. destruct (PyStr.truthy (PyStr.strip name)) eqn:Et.
  - rewrite IH by (intros H; apply Hn, elem_of_cons; by right).
    rewrite lookup_insert_ne; [done|]. intros Heq. apply Hn, elem_of_cons. by left.
  - by apply IH.
Qed.

Lemma add_providers_first cid names : forall (m : gmap string (list string)) n,
  m !! n = None ->
  n ∈ List.filter PyStr.truthy (map PyStr.strip names) ->
  first_provider (add_providers cid names m !! n) = Some cid.
Proof.
  induction names as [|name names IH]; intros m n Hnone Hn; [by apply elem_of_nil in Hn|].
  simpl in Hn. unfold add_providers. cbn [fold_left].
  fold (add_providers cid names).
  destruct (PyStr.truthy (PyStr.strip name)) eqn:Et.
  - destruct (decide (PyStr.strip name = n)) as [->|Hne].
    + apply add_providers_keep. by rewrite lookup_insert_eq, Hnone.
    + apply elem_of_cons in Hn as [?|Hn]; [congruence|].
      apply IH; [by rewrite lookup_insert_ne|done].
  - by apply IH.
Qed.

Lemma catalog_fold_first_keep re_compile custom_catalog raw_data n p : forall acc,
  first_provider (node_to_plugins acc !! n) = Some p ->
  first_provider
    (node_to_plugins (fold_left (catalog_step re_compile custom_catalog) raw_data acc) !! n)
  = Some p.
Proof.
  induction raw_data as [|[raw value] raw_data IH]; intros acc Hp; [done|].
  simpl. apply IH. simpl. by apply add_providers_keep.
Qed.

Lemma catalog_fold_not_provided re_compile custom_catalog raw_data n : forall acc,
  (forall item, item ∈ raw_data -> n ∉ provided_names item.2) ->
  node_to_plugins (fold_left (catalog_step re_compile custom_catalog) raw_data acc) !! n
  = node_to_plugins acc !! n.
Proof.
  induction raw_data as [|[raw value] raw_data IH]; intros acc Hnone; [done|].
  simpl. rewrite IH by (intros item Hitem; apply Hnone, elem_of_cons; by right).
  simpl. apply add_providers_other. apply (Hnone (raw, value)), elem_of_cons. by left.
Qed.

(** X18: The first provider of a node name, which the resolver falls back
    on, is the canonical id of the first catalog entry that lists the name
    (trimmed, not blank); a name no entry lists has no provider list. *)
Theorem first_provider_first_entry re_compile custom_catalog raw_data n :
  (forall before raw value after,
     raw_data = (before ++ (raw, value) :: after)%list ->
     n ∈ provided_names value ->
     (forall item, item ∈ before -> n ∉ provided_names item.2) ->
     first_provider
       (node_to_plugins (load_extension_node_map re_compile raw_data custom_catalog) !! n)
     = Some (canonical_id custom_catalog raw)) /\
  ((forall item, item ∈ raw_data -> n ∉ provided_names item.2) ->
   node_to_plugins (load_extension_node_map re_compile raw_data custom_catalog) !! n = None).
Proof.
  unfold load_extension_node_map. split.
  - intros before raw value after -> Hin Hbefore.
    rewrite fold_left_app. cbn [fold_left]. apply catalog_fold_first_keep.
    cbn [catalog_step node_to_plugins]. apply add_providers_first; [|done].
    by rewrite (catalog_fold_not_provided _ _ _ _ _ Hbefore).
  - intros Hnone. by rewrite (catalog_fold_not_provided _ _ _ _ _ Hnone).
Qed.

End more_catalog.

(** ** The special-case configuration *)

Section config.
Import Generate Spec Shape.

Lemma add_builtin_fold re_compile builtin_list : forall acc,
  (forall name,
     name ∈ (fold_left (add_builtin re_compile) builtin_list acc).1 <->
     name ∈ acc.1 \/
     (JStr name ∈ builtin_list /\ _maybe_compile_pattern re_compile name = None)) /\
  (fold_left (add_builtin re_compile) builtin_list acc).2
  = (acc.2 ++ omap (fun item => match item with
                                | JStr s => _maybe_compile_pattern re_compile s
                                | _ => None
                                end) builtin_list)%list.
Proof.
  induction builtin_list as [|item builtin_list IH]; intros acc; simpl.
  - split; [|by rewrite app_nil_r]. intros name. split; [by left|].
    intros [?|[H _]]; [done|]. by apply elem_of_nil in H.
  - destruct (IH (add_builtin re_compile acc item)) as [IH1 IH2]. split.
    + intros name. rewrite IH1. unfold add_builtin.
      destruct item as [| | |s| |]; simpl;
        try (split; [intros [?|[? ?]]; [by left|right; split; [apply elem_of_cons; by right|done]]
                    |intros [?|[[?|?]%elem_of_cons ?]]; [by left|done|by right]]).
      destruct (_maybe_compile_pattern re_compile s) eqn:Es; simpl.
      * split; [intros [?|[? ?]]; [by left|right; split; [apply elem_of_cons; by right|done]]|].
        intros [?|[[?|?]%elem_of_cons ?]]; [by left|simplify_eq; congruence|by right].
      * rewrite elem_of_union, elem_of_singleton. split.
        -- intros [[->|?]|[? ?]]; [right; split; [apply elem_of_cons; by left|done]|by left|].
           right. split; [apply elem_of_cons; by right|done].
        -- intros [?|[[?|?]%elem_of_cons ?]]; [by left; right|simplify_eq; by left; left|by right].
    + rewrite IH2. unfold add_builtin.
      destruct item as [| | |s| |]; simpl; try done.
      destruct (_maybe_compile_pattern re_compile s); simpl; [by rewrite <- app_assoc|done].
Qed.

(** X19: From a configuration that loads, the literal built-in names are
    the listed strings that are not compiled as a pattern: those without a
    regex metacharacter, and those with one that do not compile; the
    built-in patterns are the compiled ones, in list order.  Without
    [--special-config] the configuration is empty; a file that is missing,
    unreadable or not JSON ends the run with status 1. *)
Theorem load_special_config_builtins re_compile json_loads :
  (forall content data builtin_list,
     json_loads content = Some (JObj data) ->
     Dict.get "builtin_nodes" data = Some (JArr builtin_list) ->
     exists config,
       load_special_config re_compile json_loads (Some (Text content)) = Returns config /\
       (forall name,
          name ∈ builtin_overrides config <->
          JStr name ∈ builtin_list /\
          (has_regex_token name = false \/ re_compile name = None)) /\
       config_builtin_patterns config
       = omap (fun item => match item with
                           | JStr s => if has_regex_token s then re_compile s else None
                           | _ => None
                           end) builtin_list) /\
  load_special_config re_compile json_loads None
    = Returns {| builtin_overrides := ∅; config_builtin_patterns := [];
                 plugin_overrides := ∅ |} /\
  load_special_config re_compile json_loads (Some Absent) = Exits 1 /\
  load_special_config re_compile json_loads (Some Unreadable) = Exits 1 /\
  (forall content, json_loads content = None ->
                   load_special_config re_compile json_loads (Some (Text content)) = Exits 1).
Proof.
  split; [|split; [done|split; [done|split; [done|]]]].
  - intros content data builtin_list Hloads Hlist. unfold load_special_config.
    rewrite Hloads, Hlist. eexists. split; [done|]. simpl.
    destruct (add_builtin_fold re_compile builtin_list (∅, [])) as [H1 H2]. split.
    + intros name. rewrite H1. simpl. unfold _maybe_compile_pattern. split.
      * intros [H|[? Hc]]; [by apply not_elem_of_empty in H|]. split; [done|].
        destruct (has_regex_token name); [by right|by left].
      * intros [? Hc]. right. split; [done|].
        destruct (has_regex_token name); [by destruct Hc|done].
    + by rewrite H2.
  - intros content Hloads. unfold load_special_config. by rewrite Hloads.
Qed.

Lemma catalog_fold_comfy re_compile custom_catalog raw_data : forall acc n,
  n ∈ comfy_nodes (fold_left (catalog_step re_compile custom_catalog) raw_data acc) <->
  n ∈ comfy_nodes acc \/
  exists raw value, (raw, value) ∈ raw_data /\
                    canonical_id custom_catalog raw = comfy_repository /\
                    n ∈ map PyStr.strip (entry_nodes value).
Proof.
  induction raw_data as [|[raw value] raw_data IH]; intros acc n; simpl.
  - split; [by left|]. intros [?|(? & ? & H & _)]; [done|]. by apply elem_of_nil in H.
  - rewrite IH. simpl. split.
    + intros [H|(r & v & ? & ? & ?)].
      * destruct (decide (canonical_id custom_catalog raw = comfy_repository)) as [E|]; [|by left].
        apply elem_of_union in H as [H|H]; [|by left]. right. exists raw, value.
        split; [apply elem_of_cons; by left|]. split; [done|]. by apply elem_of_list_to_set in H.
      * right. exists r, v. split; [apply elem_of_cons; by right|done].
    + intros [H|(r & v & [?|?]%elem_of_cons & Hc & Hn)].
      * left. destruct (decide _); [apply elem_of_union; by right|done].
      * simplify_eq. left. rewrite decide_True by done.
        apply elem_of_union. left. by apply elem_of_list_to_set.
      * right. by exists r, v.
Qed.

(** X20: In the manifest the resolution step of [main] produces, a node
    name is listed under no plugin and is not reported unresolved when it
    is among the gathered built-in names, or when the catalog entry of the
    host repository lists it, or when the configuration lists it as a
    built-in name without regex metacharacter. *)
Theorem resolve_workflow_builtin_sources re_compile json_loads content data builtin_list
    config workflow_nodes builtin_nodes raw_data custom_catalog name :
  json_loads content = Some (JObj data) ->
  Dict.get "builtin_nodes" data = Some (JArr builtin_list) ->
  load_special_config re_compile json_loads (Some (Text content)) = Returns config ->
  name ∈ builtin_nodes \/
  (exists raw value, (raw, value) ∈ raw_data /\
                     canonical_id custom_catalog raw = comfy_repository /\
                     name ∈ map PyStr.strip (entry_nodes value)) \/
  (JStr name ∈ builtin_list /\ has_regex_token name = false) ->
  let deps := resolve_workflow re_compile workflow_nodes builtin_nodes raw_data
                custom_catalog config in
  (forall group, group ∈ deps_plugins deps -> name ∉ group_nodes group) /\
  (name ∉ deps_unresolved_nodes deps).
Proof.
  intros Hloads Hlist Hconfig Hsrc deps.
  destruct (load_special_config_builtins re_compile json_loads) as [Hcfg _].
  destruct (Hcfg content data builtin_list Hloads Hlist) as (config' & Hc' & Hlit & _).
  rewrite Hconfig in Hc'. injection Hc' as <-.
  unfold deps, resolve_workflow. cbn zeta. cbn [deps_plugins deps_unresolved_nodes].
  set (cat := load_extension_node_map re_compile raw_data custom_catalog).
  set (builtin := builtin_nodes ∪ comfy_nodes cat ∪ builtin_overrides config).
  assert (is_builtin builtin (config_builtin_patterns config) name = true) as Hb.
  { apply is_builtin_true. left. unfold builtin.
    destruct Hsrc as [H|[H|[H1 H2]]].
    - apply elem_of_union. left. apply elem_of_union. by left.
    - apply elem_of_union. left. apply elem_of_union. right.
      unfold cat, load_extension_node_map. apply catalog_fold_comfy. by right.
    - apply elem_of_union. right. apply Hlit. split; [done|by left]. }
  destruct (resolve_dependencies_spec workflow_nodes builtin (config_builtin_patterns config)
              cat (plugin_overrides config)) as [H1 H2].
  split.
  - intros group Hg Hn.
    assert (is_builtin builtin (config_builtin_patterns config) name = false) as E.
    { apply (H1 (group_id group) name). by exists group. }
    congruence.
  - intros Hu. apply H2 in Hu as (_ & ? & _). congruence.
Qed.

Lemma resolve_workflow_builtin_sources_witness :
  let json_loads := fun _ : string => Some (JObj [("builtin_nodes", JArr [JStr "MyNode"])]) in
  let re_compile := fun _ : string => @None Pattern in
  let config := {| builtin_overrides := {[ "MyNode" ]}; config_builtin_patterns := [];
                   plugin_overrides := ∅ |} in
  let deps := resolve_workflow re_compile {[ "MyNode"; "Other" ]} ∅ [] ∅ config in
  (forall group, group ∈ deps_plugins deps -> "MyNode" ∉ group_nodes group) /\
  ("MyNode" ∉ deps_unresolved_nodes deps).
Proof.
  intros json_loads re_compile config deps.
  assert (load_special_config re_compile json_loads (Some (Text "{}")) = Returns config) as Hc.
  { vm_compute. do 2 f_equal. }
  apply (resolve_workflow_builtin_sources re_compile json_loads "{}"
           [("builtin_nodes", JArr [JStr "MyNode"])] [JStr "MyNode"] config
           {[ "MyNode"; "Other" ]} ∅ [] ∅ "MyNode" eq_refl eq_refl Hc).
  right. right. split; [apply elem_of_cons; by left|reflexivity].
Defined.

End config.

(** ** The workflow's node names *)

Section workflow.
Import Generate Spec Shape.

Lemma json_nested_ind (P : json -> Prop) :
  P JNull -> (forall b, P (JBool b)) -> (forall z, P (JNum z)) -> (forall s, P (JStr s)) ->
  (forall items, Forall P items -> P (JArr items)) ->
  (forall fields, Forall (fun kv => P kv.2) fields -> P (JObj fields)) ->
  forall j, P j.
Proof.
  intros Hnull Hbool Hnum Hstr Harr Hobj. fix IH 1. intros [| b | z | s | items | fields].
  - exact Hnull.
  - apply Hbool.
  - apply Hnum.
  - apply Hstr.
  - apply Harr. induction items as [|item items IHitems]; constructor; [apply IH|exact IHitems].
  - apply Hobj. induction fields as [|[k v] fields IHfields]; constructor;
      [apply IH|exact IHfields].
Qed.

Lemma scan_obj fields name :
  name ∈ scan (JObj fields) <->
  name ∈ class_type_set fields \/ exists kv, kv ∈ fields /\ name ∈ scan kv.2.
Proof.
  cbn [scan]. rewrite elem_of_union.
  assert (forall l, name ∈ (fix scan_values (l : list (string * json)) : gset string :=
                              match l with
                              | [] => ∅
                              | kv :: l' => scan kv.2 ∪ scan_values l'
                              end) l <->
                    exists kv, kv ∈ l /\ name ∈ scan kv.2) as Hvalues.
  { induction l as [|kv l IH].
    - split; [intros H; by apply not_elem_of_empty in H|]. intros (? & H & _).
      by apply elem_of_nil in H.
    - rewrite elem_of_union, IH. split.
      + intros [?|(kv' & ? & ?)]; [exists kv|exists kv']; (split; [|done]);
          apply elem_of_cons; [by left|by right].
      + intros (kv' & [->|?]%elem_of_cons & ?); [by left|right; by exists kv']. }
  by rewrite Hvalues.
Qed.

Lemma scan_arr items name :
  name ∈ scan (JArr items) <-> exists item, item ∈ items /\ name ∈ scan item.
Proof.
  cbn [scan]. induction items as [|item items IH].
  - split; [intros H; by apply not_elem_of_empty in H|]. intros (? & H & _).
    by apply elem_of_nil in H.
  - rewrite elem_of_union, IH. split.
    + intros [?|(item' & ? & ?)]; [exists item|exists item']; (split; [|done]);
        apply elem_of_cons; [by left|by right].
    + intros (item' & [->|?]%elem_of_cons & ?); [by left|right; by exists item'].
Qed.

Lemma class_type_set_elem fields name :
  name ∈ class_type_set fields <-> class_type_of fields = Some name.
Proof.
  unfold class_type_set. destruct (class_type_of fields) as [s|].
  - rewrite elem_of_singleton. split; [by intros ->|by intros [= ->]].
  - split; [intros H; by apply not_elem_of_empty in H|done].
Qed.

(** the crawl finds the class type of every object at any depth, and
    nothing else *)
Lemma scan_within data name :
  name ∈ scan data <->
  exists fields, within (JObj fields) data /\ class_type_of fields = Some name.
Proof.
  split.
  - revert name. induction data as [| | | |items IH|fields IH] using json_nested_ind;
      intros name; try (intros H; by apply not_elem_of_empty in H).
    + intros (item & Hitem & Hn)%scan_arr. rewrite Forall_forall in IH.
      destruct (IH item Hitem name Hn) as (f & Hw & Hc). exists f. split; [|done].
      by eapply within_item.
    + intros [Hn|([k v] & Hkv & Hn)]%scan_obj.
      * exists fields. split; [constructor|by apply class_type_set_elem].
      * rewrite Forall_forall in IH. destruct (IH (k, v) Hkv name Hn) as (f & Hw & Hc).
        exists f. split; [|done]. by eapply within_value.
  - intros (f & Hw & Hc). induction Hw as [|fields k v Hkv Hw IH|items item Hitem Hw IH].
    + apply scan_obj. left. by apply class_type_set_elem.
    + apply scan_obj. right. by exists (k, v).
    + apply scan_arr. by exists item.
Qed.

Lemma scan_nodes_section_elem nodes_section name : forall discovered,
  name ∈ fold_left
           (fun discovered node =>
              match node with
              | JObj fields => class_type_set fields ∪ discovered
              | _ => discovered
              end) nodes_section discovered <->
  name ∈ discovered \/
  exists fields, JObj fields ∈ nodes_section /\ class_type_of fields = Some name.
Proof.
  induction nodes_section as [|node nodes_section IH]; intros discovered; simpl.
  - split; [by left|]. intros [?|(? & H & _)]; [done|]. by apply elem_of_nil in H.
  - rewrite IH. split.
    + intros [H|(f & ? & ?)].
      * destruct node as [| | | | |fields]; try by left.
        apply elem_of_union in H as [H|H]; [|by left]. right. exists fields.
        split; [apply elem_of_cons; by left|by apply class_type_set_elem].
      * right. exists f. split; [apply elem_of_cons; by right|done].
    + intros [H|(f & [?|?]%elem_of_cons & Hc)].
      * left. destruct node; try done. apply elem_of_union. by right.
      * simplify_eq. left. apply elem_of_union. left. by apply class_type_set_elem.
      * right. by exists f.
Qed.

(** X21: A workflow that is not a JSON object makes [load_workflow_nodes]
    fail with an attribute error.  When the object's [nodes] is a list, the
    names found are exactly the class types of the objects directly in that
    list; otherwise they are exactly the class types of the objects that
    occur anywhere in the workflow.  What the first way finds, the crawl
    over the same workflow would find as well. *)
Theorem load_workflow_nodes_found data :
  match data with
  | JObj fields =>
      exists found,
        load_workflow_nodes data = Returns found /\
        found ⊆ scan data /\
        match Dict.get "nodes" fields with
        | Some (JArr nodes_section) =>
            forall name, name ∈ found <->
                         exists node, JObj node ∈ nodes_section /\
                                      class_type_of node = Some name
        | _ =>
            forall name, name ∈ found <->
                         exists node, within (JObj node) data /\
                                      class_type_of node = Some name
        end
  | _ => load_workflow_nodes data = Raises AttributeError
  end.
Proof.
  destruct data as [| | | | |fields]; try done.
  unfold load_workflow_nodes.
  destruct (Dict.get "nodes" fields) as [[| | | |nodes_section|]|] eqn:Enodes;
    try (eexists; split; [done|]; split; [done|]; intros name; apply scan_within).
  eexists. split; [done|].
  assert (forall name, name ∈ scan_nodes_section nodes_section <->
                       exists node, JObj node ∈ nodes_section /\
                                    class_type_of node = Some name) as Hfound.
  { intros name. unfold scan_nodes_section. rewrite scan_nodes_section_elem. split.
    - intros [H|?]; [by apply not_elem_of_empty in H|done].
    - by right. }
  split; [|done]. intros name (node & Hnode & Hc)%Hfound.
  apply scan_within. exists node. split; [|done].
  apply (within_value _ fields "nodes" (JArr nodes_section)).
  - clear -Enodes. induction fields as [|[k v] fields IH]; [done|]. simpl in Enodes.
    destruct (decide ("nodes" = k)) as [<-|]; [simplify_eq; apply elem_of_cons; by left|].
    apply elem_of_cons. right. by apply IH.
  - apply (within_item _ nodes_section (JObj node)); [done|constructor].
Qed.

End workflow.

(** ** The extension directory *)

Section directory.
Import Generate Spec Shape.

Lemma entry_urls_nonempty fields url : url ∈ entry_urls fields -> url <> "".
Proof.
  unfold entry_urls. intros [H|H]%elem_of_app.
  - destruct (Dict.get "reference" fields) as [[| | |r| |]|]; try by apply elem_of_nil in H.
    destruct (PyStr.truthy r) eqn:Er; [|by apply elem_of_nil in H].
    apply list_elem_of_singleton in H as ->. by destruct r.
  - destruct (Dict.get "files" fields) as [[| | | |files|]|]; try by apply elem_of_nil in H.
    apply list_elem_of_In, filter_In in H as [_ Ht]. by destruct url.
Qed.

Lemma setdefault_fold fields urls : forall (catalog : gmap string (list (string * json))) url,
  fold_left (catalog_setdefault fields) urls catalog !! url
  = match catalog !! url with
    | Some entry => Some entry
    | None => if decide (url ∈ urls) then Some fields else None
    end.
Proof.
  induction urls as [|u urls IH]; intros catalog url; simpl.
  - destruct (catalog !! url); [done|].
    destruct (decide (url ∈ [])) as [H|]; [by apply elem_of_nil in H|done].
  - rewrite IH. unfold catalog_setdefault.
    destruct (catalog !! u) as [old|] eqn:Eu.
    + destruct (catalog !! url) eqn:Eurl; [done|].
      destruct (decide (url ∈ urls)) as [Hin|Hout].
      * rewrite decide_True; [done|apply elem_of_cons; by right].
      * rewrite decide_False; [done|]. intros [->|?]%elem_of_cons; [congruence|done].
    + destruct (decide (u = url)) as [->|Hne].
      * rewrite lookup_insert_eq, Eu. rewrite decide_True; [done|apply elem_of_cons; by left].
      * rewrite lookup_insert_ne by done. destruct (catalog !! url); [done|].
        destruct (decide (url ∈ urls)) as [Hin|Hout].
        -- rewrite decide_True; [done|apply elem_of_cons; by right].
        -- rewrite decide_False; [done|]. intros [?|?]%elem_of_cons; congruence.
Qed.

Lemma add_entry_fold entries : forall (catalog : gmap string (list (string * json))) url,
  fold_left add_entry entries catalog !! url
  = match catalog !! url with
    | Some entry => Some entry
    | None => first_mention url entries
    end.
Proof.
  induction entries as [|entry entries IH]; intros catalog url; simpl.
  - by destruct (catalog !! url).
  - rewrite IH. unfold add_entry. destruct entry as [| | | | |fields]; try done.
    rewrite setdefault_fold. destruct (catalog !! url); [done|].
    by destruct (decide (url ∈ entry_urls fields)).
Qed.

Lemma first_mention_sound url entries fields :
  first_mention url entries = Some fields ->
  JObj fields ∈ entries /\ url ∈ entry_urls fields.
Proof.
  induction entries as [|entry entries IH]; [done|]. simpl.
  destruct entry as [| | | | |f];
    try (intros [? ?]%IH; split; [apply elem_of_cons; by right|done]).
  destruct (decide (url ∈ entry_urls f)).
  - intros [= <-]. split; [apply elem_of_cons; by left|done].
  - intros [? ?]%IH. split; [apply elem_of_cons; by right|done].
Qed.

Lemma load_candidates_sound json_loads candidates : forall catalog result,
  (forall url entry, catalog !! url = Some entry -> url <> "" /\ url ∈ entry_urls entry) ->
  load_candidates json_loads candidates catalog = Returns result ->
  forall url entry, result !! url = Some entry -> url <> "" /\ url ∈ entry_urls entry.
Proof.
  induction candidates as [|path candidates IH]; intros catalog result Hcat; simpl.
  - by intros [= <-].
  - unfold load_candidate.
    assert (forall entries url entry,
              fold_left add_entry entries catalog !! url = Some entry ->
              url <> "" /\ url ∈ entry_urls entry) as Hfold.
    { intros entries url entry. rewrite add_entry_fold.
      destruct (catalog !! url) as [old|] eqn:E.
      - intros [= <-]. by apply Hcat.
      - intros [_ Hin]%first_mention_sound. split; [by eapply entry_urls_nonempty|done]. }
    destruct path as [| |content]; simpl; try by apply IH.
    destruct (json_loads content) as [[| | | | |data]|]; simpl; try done; try by apply IH.
    destruct (Dict.get "custom_nodes" data) as [[| | | |entries|]|]; simpl; try by apply IH.
    destruct (bool_decide (fold_left add_entry entries catalog = ∅)); simpl.
    + apply IH. apply Hfold.
    + intros [= <-]. apply Hfold.
Qed.

(** X22: Every key of the directory catalog is a non-empty URL, and the
    entry filed under it names that URL as its reference or among its
    files. *)
Theorem load_custom_node_catalog_sound json_loads candidates catalog url entry :
  load_custom_node_catalog json_loads candidates = Returns catalog ->
  catalog !! url = Some entry ->
  url <> "" /\ url ∈ entry_urls entry.
Proof.
  unfold load_custom_node_catalog. intros Hload.
  apply (load_candidates_sound json_loads candidates ∅ catalog); [|done].
  intros ? ? H. by rewrite lookup_empty in H.
Qed.

Lemma load_custom_node_catalog_sound_witness :
  let json_loads := fun _ : string =>
    Some (JObj [("custom_nodes",
                 JArr [JObj [("reference", JStr "https://example.com/p");
                             ("files", JArr [JStr "https://example.com/p/a.py"])]])]) in
  "https://example.com/p/a.py"
    ∈ entry_urls [("reference", JStr "https://example.com/p");
                  ("files", JArr [JStr "https://example.com/p/a.py"])].
Proof.
  intros json_loads.
  assert (exists catalog,
            load_custom_node_catalog json_loads [Text "{}"] = Returns catalog /\
            catalog !! "https://example.com/p/a.py"
              = Some [("reference", JStr "https://example.com/p");
                      ("files", JArr [JStr "https://example.com/p/a.py"])])
    as (catalog & Hload & Hlookup).
  { eexists. split; [vm_compute; reflexivity|vm_compute; reflexivity]. }
  exact (proj2 (load_custom_node_catalog_sound json_loads [Text "{}"] catalog
                  "https://example.com/p/a.py" _ Hload Hlookup)).
Defined.

(** X23: The directory is read from the first candidate file that gives a
    non-empty catalog, later candidates are not looked at; under each URL it
    files the first entry of that file that names the URL.  A candidate that
    is missing, unreadable, not JSON, or without a [custom_nodes] list is
    passed over, as is one that yields no URL at all. *)
Theorem load_custom_node_catalog_first_file json_loads rest :
  (forall content data entries,
     json_loads content = Some (JObj data) ->
     Dict.get "custom_nodes" data = Some (JArr entries) ->
     (fold_left add_entry entries ∅ <> ∅ ->
      load_custom_node_catalog json_loads (Text content :: rest)
        = Returns (fold_left add_entry entries ∅)) /\
     (fold_left add_entry entries ∅ = ∅ ->
      load_custom_node_catalog json_loads (Text content :: rest)
        = load_custom_node_catalog json_loads rest) /\
     forall url, fold_left add_entry entries ∅ !! url = first_mention url entries) /\
  load_custom_node_catalog json_loads (Absent :: rest)
    = load_custom_node_catalog json_loads rest /\
  load_custom_node_catalog json_loads (Unreadable :: rest)
    = load_custom_node_catalog json_loads rest /\
  (forall content, json_loads content = None ->
     load_custom_node_catalog json_loads (Text content :: rest)
       = load_custom_node_catalog json_loads rest) /\
  (forall content data, json_loads content = Some (JObj data) ->
     (forall entries, Dict.get "custom_nodes" data <> Some (JArr entries)) ->
     load_custom_node_catalog json_loads (Text content :: rest)
       = load_custom_node_catalog json_loads rest).
Proof.
  unfold load_custom_node_catalog. split; [|split; [done|split; [done|split]]].
  - intros content data entries Hloads Hentries. simpl. unfold load_candidate.
    rewrite Hloads, Hentries. simpl. split; [|split].
    + intros Hne. by rewrite bool_decide_eq_false_2.
    + intros He. rewrite bool_decide_eq_true_2 by done. simpl. by rewrite He.
    + intros url. by rewrite add_entry_fold, lookup_empty.
  - intros content Hloads. simpl. unfold load_candidate. by rewrite Hloads.
  - intros content data Hloads Hnone. simpl. unfold load_candidate. rewrite Hloads.
    destruct (Dict.get "custom_nodes" data) as [[| | | |entries|]|]; try done.
    by destruct (Hnone entries).
Qed.

End directory.

(** ** Running [main] again *)

Section rerun.
Import Apply Spec Shape.

Lemma plan_lines_fs w1 w2 plan : fs w1 = fs w2 -> plan_lines w1 plan = plan_lines w2 plan.
Proof.
  intros Hfs. unfold plan_lines.
  assert (forall p, file_lines w1 p = file_lines w2 p) as Hfile
    by (intros p; unfold file_lines, read_text; by rewrite Hfs).
  destruct (status plan); try done; by apply flat_map_ext.
Qed.

Lemma process_plan_pair git root st plan :
  let st' := process_plan git root st plan in
  exists u,
    processed_plans st' = (processed_plans st ++ [u])%list /\
    repo_url u = repo_url plan /\ slug u = slug plan /\
    (no_url u = false -> failed_plan u = false ->
     forall target, slug u = Some target ->
       (status u = cloned \/ status u = skipped) /\
       is_Some (fs (world st') !! target) /\
       requirements u = find_requirement_files root target (fs (world st') !! target)).
Proof.
  pose proof (clone_plugin_keeps git root plan (world st)) as Hframe.
  pose proof (clone_plugin_requirements git root plan (world st)) as Hreq.
  unfold process_plan. cbn zeta in *.
  destruct (clone_plugin git root plan (world st)) as [u w1] eqn:E. simpl in *.
  destruct Hframe as (Hurl & Hslug & _).
  exists u. split; [done|]. split; [done|]. split; [done|].
  unfold no_url, failed_plan. rewrite Hurl, Hslug.
  destruct (repo_url plan) as [url|]; [|done]. intros _ Hf target Ht.
  destruct (Hreq url target eq_refl Ht) as [Hfailed|(Hst & Hdir & Hfiles)]; [|done].
  by rewrite Hfailed in Hf.
Qed.

Lemma process_fold_pairs git root plans : forall st,
  let st' := fold_left (process_plan git root) plans st in
  exists updated,
    processed_plans st' = (processed_plans st ++ updated)%list /\
    Forall2
      (fun plan u =>
         repo_url u = repo_url plan /\ slug u = slug plan /\
         (no_url u = false -> failed_plan u = false ->
          forall target, slug u = Some target ->
            (status u = cloned \/ status u = skipped) /\
            is_Some (fs (world st') !! target) /\
            requirements u = find_requirement_files root target (fs (world st') !! target)))
      plans updated.
Proof.
  induction plans as [|plan plans IH]; intros st; cbn zeta; simpl.
  - exists []. by rewrite app_nil_r.
  - destruct (process_plan_pair git root st plan) as (u & Hp1 & Hu & Hs & Hmat).
    destruct (IH (process_plan git root st plan)) as (updated & Hp2 & Hall).
    destruct (process_fold_outcomes git root plans (process_plan git root st plan))
      as [Hkeep _].
    cbn zeta in *. exists (u :: updated). rewrite Hp2, Hp1, <- app_assoc.
    split; [done|]. constructor; [|done]. split; [done|]. split; [done|].
    intros H1 H2 target Ht. destruct (Hmat H1 H2 target Ht) as (Hst & [node Hnode] & Hfiles).
    split; [done|]. rewrite Hfiles, Hnode, (Hkeep _ _ Hnode). split; [by eexists|done].
Qed.

(** with every target in place, the loop of [main] clones nothing *)
Lemma process_fold_all_exist git root plans : forall st,
  Forall (target_exists (world st)) plans ->
  let st' := fold_left (process_plan git root) plans st in
  world st' = world st /\
  missing_repos st' = missing_repos st /\ clone_failures st' = clone_failures st /\
  processed_plans st'
  = (processed_plans st ++ map (skip_existing root (world st)) plans)%list.
Proof.
  induction plans as [|plan plans IH]; intros st Hall; cbn zeta; simpl.
  - by rewrite app_nil_r.
  - apply Forall_cons in Hall as [(url & target & Hurl & Hslug & [node Hnode]) Hall].
    assert (process_plan git root st plan
            = {| processed_plans := (processed_plans st ++ [skip_existing root (world st) plan])%list;
                 missing_repos := missing_repos st;
                 clone_failures := clone_failures st;
                 world := world st |}) as Hstep.
    { unfold process_plan, clone_plugin, skip_existing.
      rewrite Hurl, Hslug, Hnode. simpl. by rewrite Hurl. }
    rewrite Hstep.
    set (st1 := {| processed_plans := (processed_plans st ++ [skip_existing root (world st) plan])%list;
                   missing_repos := missing_repos st;
                   clone_failures := clone_failures st;
                   world := world st |}).
    destruct (IH st1 Hall) as (Hw & Hm & Hf & Hp).
    rewrite Hw, Hm, Hf, Hp. simpl. by rewrite <- app_assoc.
Qed.

Lemma rerun_lines root w1 w' plans : forall updated,
  fs w' = fs w1 ->
  Forall2
    (fun plan u =>
       repo_url u = repo_url plan /\ slug u = slug plan /\
       (no_url u = false -> failed_plan u = false ->
        forall target, slug u = Some target ->
          (status u = cloned \/ status u = skipped) /\
          is_Some (fs w1 !! target) /\
          requirements u = find_requirement_files root target (fs w1 !! target)))
    plans updated ->
  Forall (fun u => no_url u = false /\ failed_plan u = false /\ is_Some (slug u)) updated ->
  Forall (target_exists w') plans /\
  flat_map (plan_lines w') (map (skip_existing root w') plans)
  = flat_map (plan_lines w1) updated.
Proof.
  intros updated Hfs Hpairs. induction Hpairs as [|plan u plans updated Hpair _ IH];
    intros Hall; [by split|].
  apply Forall_cons in Hall as [(Hnu & Hnf & [target Ht]) Hall].
  destruct (IH Hall) as [IH1 IH2]. destruct Hpair as (Hurl & Hslug & Hmat).
  destruct (Hmat Hnu Hnf target Ht) as (Hst & Hdir & Hfiles).
  split.
  - constructor; [|done]. unfold no_url in Hnu. rewrite Hurl in Hnu.
    destruct (repo_url plan) as [url|] eqn:Eu; [|done].
    exists url, target. split; [done|]. split; [congruence|]. by rewrite Hfs.
  - simpl. rewrite IH2. f_equal. unfold skip_existing.
    rewrite <- Hslug, Ht. unfold plan_lines at 1. simpl.
    rewrite Hfs, <- Hfiles.
    assert (forall p, file_lines w' p = file_lines w1 p) as Hfile
      by (intros p; unfold file_lines, read_text; by rewrite Hfs).
    rewrite (flat_map_ext _ _ Hfile). unfold plan_lines.
    by destruct Hst as [-> | ->].
Qed.

(** X24: After a run of [main] that ended with status 0, a second run with
    the same arguments runs no clone command, whatever the fetch
    collaborator would do, leaves the directory tree as it is, ends with
    status 0 again and leaves the same requirements output. *)
Theorem main_rerun_clones_nothing git git' args deps w w' :
  arg_deps args = DepsLoaded deps ->
  main git args w = Some (0, w') ->
  exists w'',
    main git' args w' = Some (0, w'') /\
    git_calls w'' = git_calls w' /\ fs w'' = fs w' /\
    requirements_output w'' = requirements_output w'.
Proof.
  intros Hdeps. unfold main, plan_plugins. rewrite Hdeps.
  destruct (plan_loop_spec (deps_plugins deps) ∅) as (plans & -> & _ & Hfree). simpl.
  destruct plans as [|plan plans].
  { intros [= <-]. eexists. split; [reflexivity|]. done. }
  set (root := arg_custom_node_root args).
  set (known := load_known_requirements [arg_pak3 args; arg_pak7 args]).
  set (st0 := {| processed_plans := []; missing_repos := 0; clone_failures := 0; world := w |}).
  destruct (process_fold_outcomes git root (plan :: plans) st0)
    as (_ & updated & Hproc & Hmiss & Hfail & Hu & Hs & _).
  destruct (process_fold_pairs git root (plan :: plans) st0) as (updated' & Hproc' & Hpairs).
  cbn zeta in *. set (st := fold_left _ (plan :: plans) st0) in *.
  change (fold_left (process_plan git root) plans (process_plan git root st0 plan)) with st.
  simpl in Hproc, Hproc'. rewrite Hproc in Hproc'. subst updated'.
  unfold collect_requirements. simpl.
  destruct ((0 <? missing_repos st) || (0 <? clone_failures st))%nat eqn:Ecode;
    [intros ?; simplify_eq|].
  apply orb_false_iff in Ecode as [Em Ef%Nat.ltb_ge]. apply Nat.ltb_ge in Em.
  simpl in Hmiss, Hfail.
  assert (Forall (fun u => no_url u = false /\ failed_plan u = false /\ is_Some (slug u))
                 updated) as Hgood.
  { pose proof (has_slug_transfer _ _ Hu Hs (slugs_first_free_has_slug _ _ Hfree)) as Hslug.
    rewrite Forall_forall in Hslug. apply Forall_forall. intros u Hin.
    assert (no_url u = false) as Hnu.
    { destruct (no_url u) eqn:E; [|done].
      assert (0 < length (List.filter no_url updated)) by (apply filter_length_pos; eauto).
      lia. }
    assert (failed_plan u = false) as Hnf.
    { destruct (failed_plan u) eqn:E; [|done].
      assert (0 < length (List.filter failed_plan updated))
        by (apply filter_length_pos; eauto).
      lia. }
    split; [done|]. split; [done|]. apply (Hslug u Hin).
    unfold no_url in Hnu. destruct (repo_url u); [by eexists|done]. }
  intros [= <-].
  set (w1 := write_summary _ _ _ _).
  assert (fs w1 = fs (world st)) as Hfs by done.
  destruct (rerun_lines root (world st) w1 (plan :: plans) updated Hfs Hpairs Hgood)
    as [Hexist Hlines].
  set (st0' := {| processed_plans := []; missing_repos := 0; clone_failures := 0; world := w1 |}).
  destruct (process_fold_all_exist git' root (plan :: plans) st0' Hexist)
    as (Hw2 & Hm2 & Hf2 & Hp2).
  cbn zeta in *. set (st' := fold_left _ (plan :: plans) st0') in *.
  change (fold_left (process_plan git' root) plans (process_plan git' root st0' plan)) with st'.
  rewrite Hm2, Hf2. simpl. eexists. split; [reflexivity|]. simpl.
  rewrite Hw2. simpl. split; [done|]. split; [done|].
  rewrite Hp2. simpl.
  change (plan_lines w1 (skip_existing root w1 plan) ++
          flat_map (plan_lines w1) (map (skip_existing root w1) plans))%list
    with (flat_map (plan_lines w1) (map (skip_existing root w1) (plan :: plans))).
  rewrite Hlines, Hproc. done.
Qed.

Lemma main_rerun_clones_nothing_witness :
  let tree : gmap string DirEntry := {[ "requirements.txt" := RegularFile (Some "torch") ]} in
  let w := {| fs := ∅; git_calls := []; requirements_output := None; summary_output := None |} in
  let deps := {| deps_plugins := [ {| group_id := "https://example.com/plugin";
                                      group_nodes := ["Node"]; group_metadata := None |} ];
                 deps_unresolved_nodes := [] |} in
  let args := {| arg_deps := DepsLoaded deps; arg_custom_node_root := "custom_nodes";
                 arg_pak3 := Absent; arg_pak7 := Absent |} in
  exists w' w'',
    main (fun _ _ => GitOk tree) args w = Some (0, w') /\
    main (fun _ _ => GitNotFound) args w' = Some (0, w'') /\
    git_calls w'' = git_calls w'.
Proof.
  intros tree w deps args.
  assert (exists w', main (fun _ _ => GitOk tree) args w = Some (0, w')) as [w' Hmain]
    by (eexists; vm_compute; reflexivity).
  destruct (main_rerun_clones_nothing (fun _ _ => GitOk tree) (fun _ _ => GitNotFound)
              args deps w w' eq_refl Hmain) as (w'' & Hmain' & Hcalls & _).
  exists w', w''. split; [exact Hmain|]. split; [exact Hmain'|exact Hcalls].
Defined.

End rerun.

(** ** Directory names and query strings *)

Section more_slugs.
Import Apply Shape.

Lemma before_first_app c s t :
  PyStr.has_char c s = false -> PyStr.before_first c (s +:+ String c t) = s.
Proof.
  unfold PyStr.before_first. induction s as [|d s IH].
  - intros _. rewrite app_nil_str. cbn [PyStr.split_once]. unfold PyStr.is_char.
    by rewrite bool_decide_true.
  - cbn [PyStr.has_char]. intros [Hd Hs]%orb_false_iff.
    rewrite app_cons_str. cbn [PyStr.split_once]. rewrite Hd.
    specialize (IH Hs). destruct (PyStr.split_once c (s +:+ String c t)) as [a b].
    simpl in *. by rewrite IH.
Qed.

Lemma before_first_absent c s : PyStr.has_char c s = false -> PyStr.before_first c s = s.
Proof.
  unfold PyStr.before_first. induction s as [|d s IH]; [done|].
  cbn [PyStr.has_char]. intros [Hd Hs]%orb_false_iff.
  cbn [PyStr.split_once]. rewrite Hd.
  specialize (IH Hs). destruct (PyStr.split_once c s) as [a b].
  simpl in *. by rewrite IH.
Qed.

Lemma rstrip_by_app_all p s t :
  all_chars p t = true -> PyStr.rstrip_by p (s +:+ t) = PyStr.rstrip_by p s.
Proof.
  intros Ht. unfold PyStr.rstrip_by.
  by rewrite rev_app_distr, lstrip_by_app, all_chars_rev, Ht.
Qed.

(** X25: The directory name derived from a repository URL does not depend on
    trailing slashes or on a query string: a URL and the same URL followed
    by slashes and [?query] are given the same slug, and leave the same set
    of used slugs. *)
Theorem derive_slug_ignores_query url slashes query used :
  PyStr.has_char "?" url = false ->
  all_chars (PyStr.is_char "/") slashes = true ->
  derive_slug (url +:+ slashes +:+ String "?" query) used = derive_slug url used.
Proof.
  intros Hurl Hsl. unfold derive_slug, base_slug.
  rewrite <- app_assoc_str, before_first_app, (before_first_absent _ url Hurl).
  - by rewrite rstrip_by_app_all.
  - rewrite has_char_app, Hurl. simpl.
    by apply (has_char_all_other _ (PyStr.is_char "/")).
Qed.

Lemma derive_slug_ignores_query_witness :
  derive_slug ("https://example.com/plugin.git" +:+ "//" +:+ String "?" "ref=main") ∅
  = derive_slug "https://example.com/plugin.git" ∅.
Proof.
  apply derive_slug_ignores_query; vm_compute; reflexivity.
Defined.

End more_slugs.
